(** * product-composer: the package-set resolver of [productcomposer/cli.py]

    A shallow embedding of the resolution orchestrator of
    [src/productcomposer/cli.py]: package-set evaluation
    ([create_package_set]), resolution and linking ([link_rpms_to_tree],
    [link_entry_into_dir], [add_entry_to_report]), the report writer
    ([write_report_file]) and the product directory name
    ([get_product_dir]).

    Python dictionaries are [gmap]s, the module-level dictionaries
    ([tree_report], [supportstatus], [supportstatus_override]) and the output
    tree on disk are fields of an explicit [World] threaded through a small
    state-and-exit monad, and the one list object the code mutates while it
    is shared (the architectures of the product description) lives in a
    store of list objects addressed by location. *)

From Stdlib Require Import ZArith Ascii String.
From stdpp Require Import base option list gmap fin_maps strings sorting pretty.

Local Open Scope string_scope.
Local Open Scope list_scope.

(** ** Python string operations used by the code *)

Module PyStr.

(** [c in s] for a one-character string [c]. *)
Fixpoint has_char (c : ascii) (s : string) : bool :=
  match s with
  | EmptyString => false
  | String a s' => if Ascii.eqb a c then true else has_char c s'
  end.

(** [os.path.basename]: what follows the last slash. *)
Fixpoint basename (s : string) : string :=
  match s with
  | EmptyString => EmptyString
  | String a s' =>
      if has_char "/" s' then basename s'
      else if Ascii.eqb a "/" then s' else s
  end.

(** [s.startswith(p)]. *)
Definition startswith (p s : string) : bool := String.prefix p s.

(** [s.endswith(p)]. *)
Definition endswith (p s : string) : bool :=
  String.prefix (String.rev p) (String.rev s).

(** [s.removesuffix(p)]. *)
Definition removesuffix (p s : string) : string :=
  if endswith p s
  then String.substring 0 (String.length s - String.length p) s
  else s.

(** [sep.join(l)]. *)
Definition join (sep : string) (l : list string) : string :=
  String.concat sep l.

(** [x in l] for a list of strings. *)
Definition mem (x : string) (l : list string) : bool :=
  bool_decide (x ∈ l).

(** [l.remove(x)] on a list that holds [x]: the first occurrence goes. *)
Fixpoint remove (x : string) (l : list string) : list string :=
  match l with
  | [] => []
  | y :: l' => if bool_decide (y = x) then l' else y :: remove x l'
  end.

(** The characters [str.strip()] removes, among the ASCII ones.  A string
    is the text as ASCII characters: the white space outside ASCII, which
    [str.strip()] removes as well, is not told apart, and what is proved
    of [strip] on a text is proved of ASCII text. *)
Definition is_space (a : ascii) : bool :=
  let n := nat_of_ascii a in
  ((9 <=? n) && (n <=? 13) || (28 <=? n) && (n <=? 32))%nat.

(** [s.strip()]. *)
Fixpoint lstrip (s : string) : string :=
  match s with
  | EmptyString => EmptyString
  | String a s' => if is_space a then lstrip s' else s
  end.
Definition strip (s : string) : string :=
  String.rev (lstrip (String.rev (lstrip s))).

(** [s.split(' ')]: every single blank separates, empty fields are kept. *)
Fixpoint split_go (cur : string) (s : string) : list string :=
  match s with
  | EmptyString => [String.rev cur]
  | String a s' =>
      if Ascii.eqb a " " then String.rev cur :: split_go EmptyString s'
      else split_go (String a cur) s'
  end.
Definition split (s : string) : list string := split_go EmptyString s.

End PyStr.

(** ** Values and records *)

(** An attribute value as [write_report_file] inspects it: [None], a string
    or an integer. *)
Inductive pyval :=
  | VNone
  | VStr (s : string)
  | VInt (z : Z).

Global Instance pyval_eq_dec : EqDecision pyval.
Proof. solve_decision. Defined.

(** [str(val)]. *)
Definition py_str (v : pyval) : string :=
  match v with
  | VNone => "None"
  | VStr s => s
  | VInt z => pretty z
  end.

(** A pool entry ([core.Package]): the attributes cli.py reads. *)
Record Package := mkPackage {
  pkg_name : string;
  pkg_epoch : pyval;
  pkg_version : pyval;
  pkg_release : pyval;
  pkg_arch : string;
  pkg_buildtime : pyval;
  pkg_disturl : pyval;
  pkg_license : pyval;
  pkg_location : string;
  pkg_origin : string;
  pkg_product_cpeid : option string;
}.

Global Instance Package_eq_dec : EqDecision Package.
Proof. solve_decision. Defined.

(** A member of a package set: name, operator, version and the support
    status it carries. *)
Record Selector := mkSelector {
  sel_name : string;
  sel_op : pyval;
  sel_epoch : pyval;
  sel_version : pyval;
  sel_release : pyval;
  sel_supportstatus : option string;
}.

Global Instance Selector_eq_dec : EqDecision Selector.
Proof. solve_decision. Defined.

(** What cli.py uses of the classes of [productcomposer.core], which are
    imported and not defined in it: the two pool lookups, the source
    reference of a package, and the printed forms of selectors and
    packages.  [islink] and [pool_file_exists] are [os.path.islink] and
    [os.path.exists] on the files of the pool, which the build only reads. *)
Record Externals := mkExternals {
  lookup_rpm : string → string → pyval → pyval → pyval → pyval → option Package;
  lookup_all_rpms : string → string → pyval → pyval → pyval → pyval → list Package;
  get_src_package : Package → option Package;
  str_sel : Selector → string;
  str_pkg : Package → string;
  islink : string → bool;
  pool_file_exists : string → bool;
}.

(** The operations of [core.PkgSet] that cli.py calls. *)
Class PkgSetOps (PkgSet : Type) := {
  PkgSet_new : string → PkgSet;
  set_supportstatus : string → PkgSet → PkgSet;
  add_specs : list string → PkgSet → PkgSet;
  pkgset_add : PkgSet → PkgSet → PkgSet;
  pkgset_sub : PkgSet → PkgSet → PkgSet;
  pkgset_intersect : PkgSet → PkgSet → PkgSet;
  pkgset_iter : PkgSet → list Selector;
}.

(** One item of [yml['packagesets']]: a dictionary whose scalar values
    ([name], [supportstatus]) and sequence values ([flavors],
    [architectures], [packages], [add], [sub], [intersect] and whatever
    else the document holds) are kept by key. *)
Record entry := mkEntry {
  e_str : gmap string string;
  e_seq : gmap string (list string);
}.

(** One item of the legacy [packages] / [unpack_packages] lists: a
    dictionary or a plain package spec. *)
Inductive compat_entry :=
  | CompatDict (e : entry)
  | CompatSpec (s : string).

(** Locations of the list objects of the document that are shared. *)
Definition loc := nat.

(** The product description after [parse_yaml]. *)
Record Yml := mkYml {
  y_name : string;
  y_version : string;
  y_product_directory_name : option string;
  y_build_options : list string;
  y_architectures : loc;
  y_packagesets : option (list entry);
  y_packages : option (list compat_entry);
  y_unpack_packages : option (list compat_entry);
  y_unpack : option (list string);
  y_source : option string;
  y_debug : option string;
}.

(** ** The world: output tree, module-level dictionaries, printed lines *)

Inductive fnode :=
  | Directory
  | HardLinkOf (src : string)
  | CopyOf (src : string).

Global Instance fnode_eq_dec : EqDecision fnode.
Proof. solve_decision. Defined.

Record World := mkWorld {
  fs : gmap string fnode;
  tree_report : gmap string Package;
  supportstatus : gmap string (option string);
  supportstatus_override : gmap string string;
  stdout : list string;
  heap : gmap loc (list string);
}.

Definition set_fs (f : gmap string fnode → gmap string fnode) (w : World) : World :=
  mkWorld (f (fs w)) (tree_report w) (supportstatus w)
          (supportstatus_override w) (stdout w) (heap w).
Definition set_tree_report (f : gmap string Package → gmap string Package)
    (w : World) : World :=
  mkWorld (fs w) (f (tree_report w)) (supportstatus w)
          (supportstatus_override w) (stdout w) (heap w).
Definition set_supportstatus_db
    (f : gmap string (option string) → gmap string (option string))
    (w : World) : World :=
  mkWorld (fs w) (tree_report w) (f (supportstatus w))
          (supportstatus_override w) (stdout w) (heap w).
Definition set_override (f : gmap string string → gmap string string)
    (w : World) : World :=
  mkWorld (fs w) (tree_report w) (supportstatus w)
          (f (supportstatus_override w)) (stdout w) (heap w).
Definition print (line : string) (w : World) : World :=
  mkWorld (fs w) (tree_report w) (supportstatus w)
          (supportstatus_override w) (stdout w ++ [line]) (heap w).
Definition set_heap (f : gmap loc (list string) → gmap loc (list string))
    (w : World) : World :=
  mkWorld (fs w) (tree_report w) (supportstatus w)
          (supportstatus_override w) (stdout w) (f (heap w)).

(** ** Results

    A call returns, leaves through [die] ([SystemExit(1)]) or raises. *)
Inductive outcome (A : Type) :=
  | Normal (a : A)
  | Exit (code : Z)
  | Raised (exc : string).
Arguments Normal {A} a.
Arguments Exit {A} code.
Arguments Raised {A} exc.

Definition M (A : Type) : Type := World → outcome A * World.

Global Instance M_ret : MRet M := λ A a w, (Normal a, w).
Global Instance M_bind : MBind M := λ A B k m w,
  match m w with
  | (Normal a, w') => k a w'
  | (Exit c, w') => (Exit c, w')
  | (Raised e, w') => (Raised e, w')
  end.
Definition modify (f : World → World) : M unit := λ w, (Normal tt, f w).
Definition get {A} (f : World → A) : M A := λ w, (Normal (f w), w).

(** [for x in l: body], the loop variable threaded through [acc]. *)
Fixpoint for_each {A S} (body : A → S → M S) (l : list A) (acc : S) : M S :=
  match l with
  | [] => mret acc
  | x :: l' => acc' ← body x acc; for_each body l' acc'
  end.

(** [warn] and [die] of cli.py.  [warn] only prints. *)
Definition warn (msg : string) (details : option string) (w : World) : World :=
  let w := print ("WARNING: " +:+ msg) w in
  match details with
  | Some d => if bool_decide (d = "") then w else print d w
  | None => w
  end.

Definition die {A} (msg : option string) : M A :=
  λ w, (Exit 1,
        match msg with
        | Some m => if bool_decide (m = "") then w else print ("ERROR: " +:+ m) w
        | None => w
        end).

(** ** Functions whose only effect is [die]

    [create_package_set] and its helper touch no dictionary of the module
    and print nothing but the message of [die]; they are written over
    [result], and [run_result] turns a [Die] into the call of [die]. *)
Inductive result (A : Type) :=
  | Ok (a : A)
  | Die (msg : string)
  | Raise (exc : string).
Arguments Ok {A} a.
Arguments Die {A} msg.
Arguments Raise {A} exc.

Global Instance result_ret : MRet result := λ A a, Ok a.
Global Instance result_bind : MBind result := λ A B k r,
  match r with
  | Ok a => k a
  | Die msg => Die msg
  | Raise e => Raise e
  end.

Definition run_result {A} (r : result A) : M A :=
  match r with
  | Ok a => mret a
  | Die msg => die (Some msg)
  | Raise e => λ w, (Raised e, w)
  end.

Fixpoint fold_result {A S} (body : A → S → result S) (l : list A) (acc : S)
    : result S :=
  match l with
  | [] => Ok acc
  | x :: l' => acc' ← body x acc; fold_result body l' acc'
  end.

(** ** Package-set evaluation *)

Section PackageSets.
Context {PkgSet : Type} `{!PkgSetOps PkgSet}.

(** The flavor and architecture filters shared by both readers:
    [if 'flavors' in entry: if flavor is None or flavor not in
    entry['flavors']: continue], and the same for architectures. *)
Definition skipped_by_flavor (flavor : option string) (e : entry) : bool :=
  match e_seq e !! "flavors" with
  | Some fl =>
      match flavor with
      | None => true
      | Some f => negb (PyStr.mem f fl)
      end
  | None => false
  end.

Definition skipped_by_arch (arch : string) (e : entry) : bool :=
  match e_seq e !! "architectures" with
  | Some al => negb (PyStr.mem arch al)
  | None => false
  end.

(** [create_package_set_compat]: the legacy [packages] and
    [unpack_packages] lists.  [None] is Python's [None]. *)
Definition compat_step (arch : string) (flavor : option string)
    (ce : compat_entry) (pkgset : PkgSet) : result PkgSet :=
  match ce with
  | CompatDict e =>
      if skipped_by_flavor flavor e then Ok pkgset
      else if skipped_by_arch arch e then Ok pkgset
      else match e_seq e !! "packages" with
           | Some specs => Ok (add_specs specs pkgset)
           | None => Raise "KeyError: 'packages'"
           end
  | CompatSpec s => Ok (add_specs [s] pkgset)
  end.

Definition create_package_set_compat (yml : Yml) (arch : string)
    (flavor : option string) (setname : string) : result (option PkgSet) :=
  let from (old : option (list compat_entry)) : result (option PkgSet) :=
    match old with
    | None =>
        Ok (if bool_decide (setname = "unpack")
            then Some (PkgSet_new setname) else None)
    | Some entries =>
        pkgset ← fold_result (compat_step arch flavor) entries (PkgSet_new setname);
        Ok (Some pkgset)
    end in
  if bool_decide (setname = "main") then from (y_packages yml)
  else if bool_decide (setname = "unpack") then from (y_unpack_packages yml)
  else Ok None.

(** The dictionary [pkgsets]: a declared name is bound to [None] until a
    set object exists for it. *)
Local Abbreviation pkgsets_t := (gmap string (option PkgSet)).

Definition entry_name (e : entry) : string :=
  default "main" (e_str e !! "name").

(** The dispatch on [setop] at the end of the operand loop. *)
Definition apply_setop (setop : string) (pkgset other : PkgSet)
    : result PkgSet :=
  if bool_decide (setop = "add") then Ok (pkgset_add pkgset other)
  else if bool_decide (setop = "sub") then Ok (pkgset_sub pkgset other)
  else if bool_decide (setop = "intersect")
       then Ok (pkgset_intersect pkgset other)
  else Die ("unsupported package set operation '" +:+ setop +:+ "'").

(** [if pkgsets[oname] is None: pkgsets[oname] = PkgSet(oname)]. *)
Definition instantiate (oname : string) (pkgsets : pkgsets_t) : pkgsets_t :=
  match pkgsets !! oname with
  | Some None => <[oname := Some (PkgSet_new oname)]> pkgsets
  | _ => pkgsets
  end.

(** One turn of [for oname in entry[setop]].  The state is the local
    [pkgset] and the dictionary; [pkgsets[name]] is that same object, so
    the operation is written through to it. *)
Definition operand_step (name setop oname : string)
    (st : PkgSet * pkgsets_t) : result (PkgSet * pkgsets_t) :=
  let '(pkgset, pkgsets) := st in
  if bool_decide (oname = name) || bool_decide (pkgsets !! oname = None)
  then Die ("package set " +:+ oname +:+ " does not exist")
  else
    let pkgsets := instantiate oname pkgsets in
    let other := default (PkgSet_new oname) (mjoin (pkgsets !! oname)) in
    pkgset' ← apply_setop setop pkgset other;
    Ok (pkgset', <[name := Some pkgset']> pkgsets).

(** One turn of [for setop in 'add', 'sub', 'intersect']. *)
Definition setop_step (name : string) (e : entry) (setop : string)
    (st : PkgSet * pkgsets_t) : result (PkgSet * pkgsets_t) :=
  match e_seq e !! setop with
  | None => Ok st
  | Some onames => fold_result (operand_step name setop) onames st
  end.

(** One turn of [for entry in list(yml['packagesets'])]. *)
Definition entry_step (arch : string) (flavor : option string) (e : entry)
    (pkgsets : pkgsets_t) : result pkgsets_t :=
  let name := entry_name e in
  if bool_decide (is_Some (mjoin (pkgsets !! name)))
  then Die ("package set " +:+ name +:+ " is already defined")
  else
    let pkgsets := <[name := None]> pkgsets in
    if skipped_by_flavor flavor e then Ok pkgsets
    else if skipped_by_arch arch e then Ok pkgsets
    else
      let pkgset := PkgSet_new name in
      let pkgsets := <[name := Some pkgset]> pkgsets in
      let pkgset :=
        match e_str e !! "supportstatus" with
        | Some s => set_supportstatus s pkgset
        | None => pkgset
        end in
      let pkgset :=
        match e_seq e !! "packages" with
        | Some (spec :: specs) => add_specs (spec :: specs) pkgset
        | _ => pkgset
        end in
      let pkgsets := <[name := Some pkgset]> pkgsets in
      st ← fold_result (setop_step name e) ["add"; "sub"; "intersect"]
                       (pkgset, pkgsets);
      Ok st.2.

(** The declarations of [yml['packagesets']] evaluated in order. *)
Definition eval_packagesets (arch : string) (flavor : option string)
    (entries : list entry) : result pkgsets_t :=
  fold_result (entry_step arch flavor) entries ∅.

Definition create_package_set (yml : Yml) (arch : string)
    (flavor : option string) (setname : string) : result PkgSet :=
  match y_packagesets yml with
  | None =>
      pkgset ← create_package_set_compat yml arch flavor setname;
      match pkgset with
      | None => Die ("package set " +:+ setname +:+ " is not defined")
      | Some pkgset => Ok pkgset
      end
  | Some entries =>
      pkgsets ← eval_packagesets arch flavor entries;
      match pkgsets !! setname with
      | None => Die ("package set " +:+ setname +:+ " is not defined")
      | Some None => Ok (PkgSet_new setname)
      | Some (Some pkgset) => Ok pkgset
      end
  end.

End PackageSets.

(** ** A package-set implementation to run the code on

    [core/PkgSet.py] is imported by cli.py and not part of it. *)
Module SpecPkgSet.

(** [s] cut at the first [c]: what precedes it and what follows it. *)
Fixpoint cut_first (c : ascii) (s : string) : option (string * string) :=
  match s with
  | EmptyString => None
  | String a s' =>
      if Ascii.eqb a c then Some (EmptyString, s')
      else '(l, r) ← cut_first c s'; Some (String a l, r)
  end.

(** [s] cut at the last [c]. *)
Fixpoint cut_last (c : ascii) (s : string) : option (string * string) :=
  match s with
  | EmptyString => None
  | String a s' =>
      match cut_last c s' with
      | Some (l, r) => Some (String a l, r)
      | None => if Ascii.eqb a c then Some (EmptyString, s') else None
      end
  end.

(** Modelled from the spec: the selector-spec grammar of section 6, [name]
    or [name operator epoch:version-release] with the epoch optional; the
    parser of [core/PkgSelect.py] is missing from the sources. *)
Definition parse_spec (status : option string) (spec : string) : Selector :=
  match filter (λ f, f ≠ "") (PyStr.split spec) with
  | [name; op; evr] =>
      let '(epoch, vr) :=
        match cut_first ":" evr with
        | Some (e, vr) => (VStr e, vr)
        | None => (VNone, evr)
        end in
      let '(version, release) :=
        match cut_last "-" vr with
        | Some (v, r) => (VStr v, VStr r)
        | None => (VStr vr, VNone)
        end in
      mkSelector name (VStr op) epoch version release status
  | _ => mkSelector spec VNone VNone VNone VNone status
  end.

(** Modelled from the spec: the PkgSet of sections 3 and 4.2, a named
    collection with at most one Selector per name; [core/PkgSet.py] is
    missing from the sources. *)
Record t := mk {
  name : string;
  status : option string;
  elements : list Selector;
}.

(** Modelled from the spec: membership by name, the identity of a
    Selector in a set (section 3). *)
Definition has (n : string) (s : t) : bool :=
  bool_decide (n ∈ sel_name <$> elements s).

(** Modelled from the spec: insertion by name, overwriting a Selector of
    the same name (section 4.2, [add_specs]). *)
Definition put (x : Selector) (l : list Selector) : list Selector :=
  filter (λ y, sel_name y ≠ sel_name x) l ++ [x].

(** Modelled from the spec: [add_specs] of section 4.2; each new Selector
    takes the status of the set it is added to. *)
Definition insert_specs (specs : list string) (s : t) : t :=
  mk (name s) (status s)
     (foldl (λ l spec, put (parse_spec (status s) spec) l) (elements s) specs).

(** Modelled from the spec: [union] of section 4.2, members of [other]
    absent by name are inserted, members
    already present are kept. *)
Definition union (s other : t) : t :=
  mk (name s) (status s)
     (elements s ++ filter (λ y, negb (has (sel_name y) s)) (elements other)).

(** Modelled from the spec: [difference] of section 4.2, every member
    named in [other] goes. *)
Definition difference (s other : t) : t :=
  mk (name s) (status s)
     (filter (λ y, negb (has (sel_name y) other)) (elements s)).

(** Modelled from the spec: [intersection] of section 4.2, only the
    members named in [other] stay. *)
Definition intersection (s other : t) : t :=
  mk (name s) (status s)
     (filter (λ y, has (sel_name y) other) (elements s)).

(** Modelled from the spec: iteration in the order of the names (the
    sorted selector sets of section 5). *)
Definition iter (s : t) : list Selector :=
  merge_sort (λ x y, String.le (sel_name x) (sel_name y)) (elements s).

Global Instance ops : PkgSetOps t := {|
  PkgSet_new n := mk n None [];
  set_supportstatus st s := mk (name s) (Some st) (elements s);
  add_specs := insert_specs;
  pkgset_add := union;
  pkgset_sub := difference;
  pkgset_intersect := intersection;
  pkgset_iter := iter;
|}.

End SpecPkgSet.

(** ** Linking and the provenance manifest *)

Section Linking.
Context (ext : Externals).

(** [os.path.exists] on the output tree. *)
Definition path_exists (p : string) (w : World) : bool :=
  bool_decide (is_Some (fs w !! p)).

(** [link_file_into_dir].  [os.mkdir(directory)] is taken to succeed: the
    directory above, the one [create_tree] made for the sub-tree, exists,
    as it does at every call the code makes. *)
Definition link_file_into_dir (filename directory : string) (w : World)
    : World :=
  let w :=
    if path_exists directory w then w
    else set_fs <[directory := Directory]> w in
  let outname := directory +:+ "/" +:+ PyStr.basename filename in
  if path_exists outname w then w
  else if islink ext filename
       then set_fs <[outname := CopyOf filename]> w
       else set_fs <[outname := HardLinkOf filename]> w.

Definition add_entry_to_report (entry : Package) (outname : string)
    (w : World) : World :=
  if bool_decide (is_Some (tree_report w !! outname)) then w
  else set_tree_report <[outname := entry]> w.

(** The output path of a package below [directory]. *)
Definition outname_of (entry : Package) (directory : string) : string :=
  directory +:+ "/" +:+ pkg_arch entry +:+ "/"
    +:+ PyStr.basename (pkg_location entry).

Definition link_entry_into_dir (entry : Package) (directory : string)
    (add_slsa : bool) (w : World) : World :=
  let outname := outname_of entry directory in
  if path_exists outname w then w
  else
    let w := link_file_into_dir (pkg_location entry)
               (directory +:+ "/" +:+ pkg_arch entry) w in
    let w := add_entry_to_report entry outname w in
    if add_slsa then
      let slsaname :=
        PyStr.removesuffix ".rpm" (pkg_location entry)
          +:+ ".slsa_provenance.json" in
      if pool_file_exists ext slsaname
      then link_file_into_dir slsaname
             (directory +:+ "/" +:+ pkg_arch entry) w
      else w
    else w.

(** ** Resolution of the main package set *)

(** [if sourcedir:] and [if debugdir:]: a directory that is given and not
    the empty string. *)
Definition given (dir : option string) : option string :=
  match dir with
  | Some d => if bool_decide (d = "") then None else Some d
  | None => None
  end.

(** The support status written for a resolved package. *)
Definition status_for (sel : Selector) (rpm : Package) (w : World)
    : option string :=
  match supportstatus_override w !! pkg_name rpm with
  | Some s => Some s
  | None => sel_supportstatus sel
  end.

(** The block under [if sourcedir:]: the source package of [rpm], looked
    up at its exact version and release. *)
Definition link_source (sourcedir : option string) (add_slsa : bool)
    (rpm srcrpm : Package) (st : bool * World) : bool * World :=
  match given sourcedir with
  | Some sdir =>
      match lookup_rpm ext (pkg_arch srcrpm) (pkg_name srcrpm)
              (VStr "=") VNone (pkg_version srcrpm) (pkg_release srcrpm)
      with
      | Some srpm => (st.1, link_entry_into_dir srpm sdir add_slsa st.2)
      | None =>
          (true,
           warn ("source rpm package " +:+ str_pkg ext srcrpm +:+ " not found")
                (Some ("         required by  " +:+ str_pkg ext rpm)) st.2)
      end
  | None => st
  end.

(** The block under [if debugdir:]: the debugsource package of the source
    and the debuginfo package of [rpm]. *)
Definition link_debug (arch : string) (debugdir : option string)
    (add_slsa : bool) (rpm srcrpm : Package) (w : World) : World :=
  match given debugdir with
  | Some ddir =>
      let w :=
        match lookup_rpm ext arch (pkg_name srcrpm +:+ "-debugsource")
                (VStr "=") VNone (pkg_version srcrpm) (pkg_release srcrpm)
        with
        | Some drpm => link_entry_into_dir drpm ddir add_slsa w
        | None => w
        end in
      match lookup_rpm ext arch (pkg_name rpm +:+ "-debuginfo")
              (VStr "=") (pkg_epoch rpm) (pkg_version rpm) (pkg_release rpm)
      with
      | Some drpm => link_entry_into_dir drpm ddir add_slsa w
      | None => w
      end
  | None => w
  end.

(** The body of [for rpm in rpms]; the state is [missing_package] and the
    world. *)
Definition link_rpm (rpmdir arch : string) (debugdir sourcedir : option string)
    (add_slsa : bool) (sel : Selector) (st : bool * World) (rpm : Package)
    : bool * World :=
  let w := link_entry_into_dir rpm rpmdir add_slsa st.2 in
  let w := set_supportstatus_db <[pkg_name rpm := status_for sel rpm w]> w in
  match get_src_package ext rpm with
  | None =>
      (st.1,
       warn ("package " +:+ str_pkg ext rpm +:+ " does not have a source rpm")
            None w)
  | Some srcrpm =>
      let st := link_source sourcedir add_slsa rpm srcrpm (st.1, w) in
      (st.1, link_debug arch debugdir add_slsa rpm srcrpm st.2)
  end.

(** The packages a Selector resolves to, in single and in multi mode. *)
Definition resolve (singlemode : bool) (arch : string) (sel : Selector)
    : list Package :=
  if singlemode
  then option_list (lookup_rpm ext arch (sel_name sel) (sel_op sel)
                      (sel_epoch sel) (sel_version sel) (sel_release sel))
  else lookup_all_rpms ext arch (sel_name sel) (sel_op sel)
         (sel_epoch sel) (sel_version sel) (sel_release sel).

(** The body of [for sel in main_pkgset]. *)
Definition link_selector (rpmdir arch : string)
    (debugdir sourcedir : option string) (singlemode add_slsa : bool)
    (st : bool * World) (sel : Selector) : bool * World :=
  match resolve singlemode arch sel with
  | [] =>
      (true,
       warn ("package " +:+ str_sel ext sel +:+ " not found for " +:+ arch)
            None st.2)
  | rpms => foldl (link_rpm rpmdir arch debugdir sourcedir add_slsa sel) st rpms
  end.

Context {PkgSet : Type} `{!PkgSetOps PkgSet}.

Definition link_rpms_to_tree (rpmdir : string) (yml : Yml) (arch : string)
    (flavor : option string) (debugdir sourcedir : option string) : M unit :=
  let singlemode :=
    negb (PyStr.mem "take_all_available_versions" (y_build_options yml)) in
  let add_slsa := PyStr.mem "add_slsa_provenance" (y_build_options yml) in
  main_pkgset ← run_result (create_package_set yml arch flavor "main");
  missing_package ← (λ w,
    let st := foldl (link_selector rpmdir arch debugdir sourcedir
                       singlemode add_slsa)
                    (false, w) (pkgset_iter main_pkgset) in
    (Normal st.1, st.2));
  if missing_package
     && negb (PyStr.mem "ignore_missing_packages" (y_build_options yml))
  then die (Some "Abort due to missing packages")
  else mret tt.

End Linking.

(** ** The report of an output sub-tree *)

(** A [binary] element of the report: its text and its attributes in the
    order they are set. *)
Record binary := mkBinary {
  b_text : string;
  b_attrib : list (string * string);
}.

Global Instance binary_eq_dec : EqDecision binary.
Proof. solve_decision. Defined.

(** [getattr(entry, tag, None)] for the tags of the report. *)
Definition getattr (entry : Package) (tag : string) : pyval :=
  if bool_decide (tag = "name") then VStr (pkg_name entry)
  else if bool_decide (tag = "epoch") then pkg_epoch entry
  else if bool_decide (tag = "version") then pkg_version entry
  else if bool_decide (tag = "release") then pkg_release entry
  else if bool_decide (tag = "arch") then VStr (pkg_arch entry)
  else if bool_decide (tag = "buildtime") then pkg_buildtime entry
  else if bool_decide (tag = "disturl") then pkg_disturl entry
  else if bool_decide (tag = "license") then pkg_license entry
  else VNone.

Definition report_tags : list string :=
  ["name"; "epoch"; "version"; "release"; "arch"; "buildtime"; "disturl";
   "license"].

(** The body of [for tag in ...]: the attribute a tag contributes, if any. *)
Definition tag_attrib (entry : Package) (tag : string)
    : option (string * string) :=
  let val := getattr entry tag in
  if bool_decide (val = VNone) || bool_decide (val = VStr "") then None
  else if bool_decide (tag = "epoch") && bool_decide (val = VInt 0) then None
  else if bool_decide (tag = "arch") then Some ("binaryarch", py_str val)
  else Some (tag, py_str val).

Definition binary_of (entry : Package) : binary :=
  mkBinary ("obs://" +:+ pkg_origin entry)
    (omap (tag_attrib entry) report_tags ++
     if PyStr.endswith "-release" (pkg_name entry)
     then match pkg_product_cpeid entry with
          | Some cpeid => if bool_decide (cpeid = "") then [] else [("cpeid", cpeid)]
          | None => []
          end
     else []).

(** [directory] with the slash the code appends when it is missing. *)
Definition with_slash (directory : string) : string :=
  if PyStr.endswith "/" directory then directory else directory +:+ "/".

(** The order of [sorted(tree_report.items())]: the keys are distinct, so
    it is the order of the output paths. *)
Definition path_le (x y : string * Package) : Prop := String.le x.1 y.1.

Global Instance path_le_dec : RelDecision path_le.
Proof. intros x y. unfold path_le. apply _. Defined.

Definition sorted_items (report : gmap string Package)
    : list (string * Package) :=
  merge_sort path_le (map_to_list report).

(** The manifest entries [write_report_file] keeps for [directory]. *)
Definition report_entries (directory : string) (w : World)
    : list (string * Package) :=
  filter (λ kv, PyStr.startswith (with_slash directory) kv.1 = true)
         (sorted_items (tree_report w)).

(** [write_report_file]: the children of the [report] root it writes to
    [outfile], in document order. *)
Definition write_report_file (directory : string) (w : World) : list binary :=
  (λ kv, binary_of kv.2) <$> report_entries directory w.

(** ** The support-status override table *)

(** [parse_supportstatus] on the lines of the file. *)
Definition parse_supportstatus_line (line : string) (_ : unit) : M unit :=
  match PyStr.split (PyStr.strip line) with
  | a0 :: a1 :: _ => modify (set_override <[a0 := a1]>)
  | _ => λ w, (Raised "IndexError: list index out of range", w)
  end.

Definition parse_supportstatus (lines : list string) : M unit :=
  for_each parse_supportstatus_line lines tt.

(** ** The product directory name *)

(** The list object stored at a location. *)
Definition deref (l : loc) (w : World) : list string :=
  default [] (heap w !! l).

(** [if flavor] and [if release]: given and not empty. *)
Definition nonempty (s : option string) : bool :=
  match s with
  | Some s => negb (bool_decide (s = ""))
  | None => false
  end.

(** The name before the architectures are added, and what the release
    adds after them. *)
Definition name_prefix (yml : Yml) (flavor : option string) : string :=
  let name := y_name yml +:+ "-" +:+ y_version yml in
  let name := default name (y_product_directory_name yml) in
  if nonempty flavor
     && negb (PyStr.mem "hide_flavor_in_product_directory_name"
                        (y_build_options yml))
  then name +:+ "-" +:+ default "" flavor else name.

Definition name_suffix (release : option string) (name : string) : string :=
  if nonempty release then name +:+ "-Build" +:+ default "" release
  else name.

Definition get_product_dir (yml : Yml) (flavor release : option string)
    : M string :=
  let name := name_prefix yml flavor in
  name ← (λ w,
    match deref (y_architectures yml) w with
    | [] => (Normal name, w)
    | _ =>
        (* visible_archs is the list object of the document, not a copy *)
        let visible_archs := y_architectures yml in
        let w :=
          if PyStr.mem "local" (deref visible_archs w)
          then set_heap <[visible_archs :=
                 PyStr.remove "local" (deref visible_archs w)]> w
          else w in
        (Normal (name +:+ "-" +:+ PyStr.join "-" (deref visible_archs w)), w)
    end);
  let name := name_suffix release name in
  if PyStr.has_char "/" name then die (Some "Illegal product name")
  else mret name.

(** ** Meta packages and the tree *)

Section Tree.
Context (ext : Externals).
(** [unpack_one_meta_rpm] runs [unrpm] and copies the skeleton of the
    package into the tree. *)
Context (unpack_one_meta_rpm : string → Package → Z → M unit).
Context {PkgSet : Type} `{!PkgSetOps PkgSet}.

(** The body of [for sel in unpack_pkgset]. *)
Definition unpack_selector (rpmdir arch : string) (medium : Z)
    (sel : Selector) (missing_package : bool) : M bool :=
  match lookup_rpm ext arch (sel_name sel) (sel_op sel) (sel_epoch sel)
          (sel_version sel) (sel_release sel) with
  | None =>
      modify (warn ("package " +:+ str_sel ext sel +:+ " not found") None);;
      mret true
  | Some rpm =>
      unpack_one_meta_rpm rpmdir rpm medium;;
      mret missing_package
  end.

Definition unpack_meta_rpms (rpmdir : string) (yml : Yml) (arch : string)
    (flavor : option string) (medium : Z) : M unit :=
  missing_package ←
    for_each (λ unpack_pkgset_name missing_package,
        unpack_pkgset ← run_result
          (create_package_set yml arch flavor unpack_pkgset_name);
        for_each (unpack_selector rpmdir arch medium)
                 (pkgset_iter unpack_pkgset) missing_package)
      (default [] (y_unpack yml)) false;
  if missing_package
     && negb (PyStr.mem "ignore_missing_packages" (y_build_options yml))
  then die (Some "Abort due to missing packages")
  else mret tt.

(** [os.mkdir]: it raises when the path exists. *)
Definition mkdir (p : string) : M unit :=
  λ w, if path_exists p w
       then (Raised "FileExistsError", w)
       else (Normal tt, set_fs <[p := Directory]> w).

(** The [source] and [debug] options: the directory of the sub-tree, if
    one is requested. *)
Definition subtree_dir (option_name : string) (opt : option string)
    (maindir splitdir : string) : M (option string) :=
  match opt with
  | None => mret None
  | Some o =>
      if bool_decide (o = "split") then mkdir splitdir;; mret (Some splitdir)
      else if bool_decide (o = "include") then mret (Some maindir)
      else if bool_decide (o = "drop") then mret None
      else die (Some ("Bad " +:+ option_name
                 +:+ " option, must be either 'include', 'split' or 'drop'"))
  end.

(** [create_tree] up to the end of its two loops over the
    architectures; what follows them (repository metadata, reports,
    signatures, media) runs on the tree these loops leave.  The two
    [os.mkdir] calls at its start are taken to succeed, which they do when
    the directory above the output directory exists and the product
    directory name is one path component; what is proved of the tree that
    depends on them assumes an output directory that exists. *)
Definition create_tree (outdir product_base_dir : string) (yml : Yml)
    (flavor : option string) : M unit :=
  modify (λ w, if path_exists outdir w then w
               else set_fs <[outdir := Directory]> w);;
  let maindir := outdir +:+ "/" +:+ product_base_dir in
  modify (λ w, if path_exists maindir w then w
               else set_fs <[maindir := Directory]> w);;
  sourcedir ← subtree_dir "source" (y_source yml) maindir
                (outdir +:+ "/" +:+ product_base_dir +:+ "-Source");
  debugdir ← subtree_dir "debug" (y_debug yml) maindir
               (outdir +:+ "/" +:+ product_base_dir +:+ "-Debug");
  archs ← get (deref (y_architectures yml));
  for_each (λ arch _,
      link_rpms_to_tree ext maindir yml arch flavor debugdir sourcedir)
    archs tt;;
  archs ← get (deref (y_architectures yml));
  for_each (λ arch _, unpack_meta_rpms maindir yml arch flavor 1) archs tt.

(** [create_tree] with its two loops run over a given list of
    architectures instead of the list read from the document: what the
    loops are compared with. *)
Definition create_tree_over (archs : list string)
    (outdir product_base_dir : string) (yml : Yml)
    (flavor : option string) : M unit :=
  modify (λ w, if path_exists outdir w then w
               else set_fs <[outdir := Directory]> w);;
  let maindir := outdir +:+ "/" +:+ product_base_dir in
  modify (λ w, if path_exists maindir w then w
               else set_fs <[maindir := Directory]> w);;
  sourcedir ← subtree_dir "source" (y_source yml) maindir
                (outdir +:+ "/" +:+ product_base_dir +:+ "-Source");
  debugdir ← subtree_dir "debug" (y_debug yml) maindir
               (outdir +:+ "/" +:+ product_base_dir +:+ "-Debug");
  for_each (λ arch _,
      link_rpms_to_tree ext maindir yml arch flavor debugdir sourcedir)
    archs tt;;
  for_each (λ arch _, unpack_meta_rpms maindir yml arch flavor 1) archs tt.

(** [build] from the product directory name on. *)
Definition build (yml : Yml) (flavor release : option string)
    (out : string) : M unit :=
  product_base_dir ← get_product_dir yml flavor release;
  create_tree out product_base_dir yml flavor.

End Tree.

(** ** Notions the properties are stated with *)

(** [w'] extends [w]: every path of the output tree and every manifest
    entry of [w] is in [w'] unchanged, the printed lines of [w] are the
    first lines of [w'], and the override table and the shared lists are
    the same. *)
Record extends (w w' : World) : Prop := mkExtends {
  ext_fs : fs w ⊆ fs w';
  ext_report : tree_report w ⊆ tree_report w';
  ext_stdout : stdout w `prefix_of` stdout w';
  ext_override : supportstatus_override w' = supportstatus_override w;
  ext_heap : heap w' = heap w;
}.

(** The status [create_susedata_xml] reads for a name: the stored value
    when the name is in [supportstatus] and the value is not [None]. *)
Definition recorded_status (name : string) (w : World) : option string :=
  mjoin (supportstatus w !! name).

(** A name with an override whose recorded status is the override. *)
Definition overridden (name s : string) (w : World) : Prop :=
  supportstatus_override w !! name = Some s
  ∧ recorded_status name w = Some s.

(** A sequence of registrations in the manifest. *)
Definition register_all (regs : list (Package * string)) (w : World) : World :=
  foldl (λ w r, add_entry_to_report r.1 r.2 w) w regs.

Section Missing.
Context (ext : Externals).

(** A resolved package whose source package is wanted and not found. *)
Definition source_missing (sourcedir : option string) (rpm : Package)
    : bool :=
  match given sourcedir, get_src_package ext rpm with
  | Some _, Some srcrpm =>
      bool_decide (lookup_rpm ext (pkg_arch srcrpm) (pkg_name srcrpm)
                     (VStr "=") VNone (pkg_version srcrpm)
                     (pkg_release srcrpm) = None)
  | _, _ => false
  end.

(** A Selector that counts as missing: it resolves to nothing, or one of
    the packages it resolves to lacks its source package. *)
Definition selector_missing (singlemode : bool) (arch : string)
    (sourcedir : option string) (sel : Selector) : bool :=
  match resolve ext singlemode arch sel with
  | [] => true
  | rpms => existsb (source_missing sourcedir) rpms
  end.

Definition not_found_warning (arch : string) (sel : Selector) : string :=
  "WARNING: package " +:+ str_sel ext sel +:+ " not found for " +:+ arch.

End Missing.

(** The three operations of a packageset entry. *)
Definition setops : list string := ["add"; "sub"; "intersect"].

(** The keys of an entry that [create_package_set] reads as sequences. *)
Definition seq_keys : list string :=
  ["flavors"; "architectures"; "packages"; "add"; "sub"; "intersect"].

(** An entry that names itself as an operand of one of its operations. *)
Definition self_referencing (e : entry) : Prop :=
  ∃ setop onames,
    setop ∈ setops ∧ e_seq e !! setop = Some onames
    ∧ default "main" (e_str e !! "name") ∈ onames.

(** An entry that passes the flavor and architecture filters. *)
Definition active (arch : string) (flavor : option string) (e : entry) : bool :=
  negb (skipped_by_flavor flavor e) && negb (skipped_by_arch arch e).

(** The three fatal messages of [create_package_set]. *)
Definition does_not_exist (oname : string) : string :=
  "package set " +:+ oname +:+ " does not exist".
Definition already_defined (name : string) : string :=
  "package set " +:+ name +:+ " is already defined".
Definition not_defined (name : string) : string :=
  "package set " +:+ name +:+ " is not defined".

(** A name for which [pkgsets] holds a set object, not [None]. *)
Definition instantiated {PkgSet : Type} (name : string)
    (pkgsets : gmap string (option PkgSet)) : Prop :=
  is_Some (mjoin (pkgsets !! name)).

(** The document with another list of packageset entries. *)
Definition with_packagesets (entries : list entry) (yml : Yml) : Yml :=
  mkYml (y_name yml) (y_version yml) (y_product_directory_name yml)
    (y_build_options yml) (y_architectures yml) (Some entries)
    (y_packages yml) (y_unpack_packages yml) (y_unpack yml)
    (y_source yml) (y_debug yml).

(** An entry with one more key, or another value under a key. *)
Definition with_key (k : string) (v : list string) (e : entry) : entry :=
  mkEntry (e_str e) (<[k := v]> (e_seq e)).

(** The message of the last branch of the dispatch on the operation. *)
Definition unsupported (setop : string) : string :=
  "unsupported package set operation '" +:+ setop +:+ "'".

(** ** A small pool and product to run the code on *)

Module Fixture.

Definition rpm (name version release arch : string) : Package :=
  mkPackage name VNone (VStr version) (VStr release) arch
    (VInt 1700000000) (VStr ("obs://build/" +:+ name)) (VStr "MIT")
    ("repos/" +:+ arch +:+ "/" +:+ name +:+ "-" +:+ version +:+ "-"
       +:+ release +:+ "." +:+ arch +:+ ".rpm")
    ("repo/" +:+ name) None.

Definition foo11 := rpm "foo" "1.1" "1" "x86_64".
Definition foo10 := rpm "foo" "1.0" "1" "x86_64".
Definition foo_src := rpm "foo" "1.1" "1" "src".
Definition foo_debuginfo := rpm "foo-debuginfo" "1.1" "1" "x86_64".
Definition bar := rpm "bar" "2.0" "3" "x86_64".
Definition bar_debuginfo := rpm "bar-debuginfo" "2.0" "3" "x86_64".
Definition baz := rpm "baz" "0.1" "1" "x86_64".

(** The pool as a table, each name in descending order of version. *)
Definition table : list Package :=
  [foo11; foo10; foo_src; foo_debuginfo; bar; bar_debuginfo; baz].

(** The lookups the examples make: without an operator every package of
    the name and architecture matches, with [=] the version and release
    must agree (and the epoch when one is asked for). *)
Definition matches (arch name : string) (op epoch version release : pyval)
    (p : Package) : bool :=
  bool_decide (pkg_arch p = arch) && bool_decide (pkg_name p = name)
  && (bool_decide (op = VNone)
      || (bool_decide (op = VStr "=")
          && bool_decide (pkg_version p = version)
          && bool_decide (pkg_release p = release)
          && (bool_decide (epoch = VNone)
              || bool_decide (pkg_epoch p = epoch)))).

Definition all_rpms (arch name : string) (op epoch version release : pyval)
    : list Package :=
  filter (λ p, matches arch name op epoch version release p = true) table.

(** foo and baz name their source package; bar carries no source
    reference; the source of baz is not in the pool. *)
Definition src_of (p : Package) : option Package :=
  if bool_decide (pkg_name p = "foo") then Some foo_src
  else if bool_decide (pkg_name p = "baz")
       then Some (rpm "baz" "0.1" "1" "src")
  else None.

Definition show_pkg (p : Package) : string :=
  pkg_name p +:+ "-" +:+ py_str (pkg_version p) +:+ "-"
    +:+ py_str (pkg_release p) +:+ "." +:+ pkg_arch p.

Definition ext : Externals := {|
  lookup_rpm arch name op epoch version release :=
    head (all_rpms arch name op epoch version release);
  lookup_all_rpms := all_rpms;
  get_src_package := src_of;
  str_sel := sel_name;
  str_pkg := show_pkg;
  islink _ := false;
  pool_file_exists _ := false;
|}.

Definition entry_of (scalars : list (string * string))
    (seqs : list (string * list string)) : entry :=
  mkEntry (list_to_map scalars) (list_to_map seqs).

(** A product whose main set is given by [entries]; its architectures
    are the list object at location 0. *)
Definition product (options : list string) (entries : list entry) : Yml :=
  mkYml "prod" "1.0" None options 0 (Some entries) None None None None None.

Definition world (archs : list string) : World :=
  mkWorld ∅ ∅ ∅ ∅ [] {[ 0 := archs ]}.

(** The world when the loops of [create_tree] start on the output
    directory out: the product directory and the directories of split
    source and debug sub-trees have been made. *)
Definition tree (archs : list string) : World :=
  mkWorld (list_to_map [("out", Directory); ("out/prod", Directory);
                        ("out/prod-Source", Directory);
                        ("out/prod-Debug", Directory)])
          ∅ ∅ ∅ [] {[ 0 := archs ]}.

Definition no_unpack (_ : string) (_ : Package) (_ : Z) : M unit := mret tt.

(** A Selector without a version constraint and without a status. *)
Definition any (name : string) : Selector :=
  mkSelector name VNone VNone VNone VNone None.

(** A main set of two packages of the pool and two that are not in it. *)
Definition four : Yml :=
  product [] [entry_of [] [("packages", ["foo"; "nope"; "bar"; "zip"])]].

Definition four_set : SpecPkgSet.t :=
  SpecPkgSet.mk "main" None [any "foo"; any "nope"; any "bar"; any "zip"].

(** foo11 as another build of the same file name would give it. *)
Definition foo11_rebuilt : Package :=
  mkPackage "foo" VNone (VStr "1.1") (VStr "1") "x86_64"
    (VInt 1800000000) (VStr "obs://build/foo") (VStr "MIT")
    "other/x86_64/foo-1.1-1.x86_64.rpm" "other/foo" None.

(** The world after [supportstatus.txt] was read: its two lines give foo
    and bar a status. *)
Definition overriding : World :=
  (parse_supportstatus ["foo l3"; "bar unsupported "] (world ["x86_64"])).2.

(** Two entries of the name main, the first for every architecture. *)
Definition twice : Yml :=
  product [] [entry_of [("name", "main")] [("packages", ["foo"])];
              entry_of [] [("packages", ["bar"])]].

End Fixture.

(** ** More of cli.py: disk usage, the flavor of a build, link traces *)

Module PyStrMore.

(** [s.split(c)] for a separator of one character: empty fields are kept. *)
Fixpoint split_on_go (c : ascii) (cur s : string) : list string :=
  match s with
  | EmptyString => [String.rev cur]
  | String a s' =>
      if Ascii.eqb a c then String.rev cur :: split_on_go c EmptyString s'
      else split_on_go c (String a cur) s'
  end.
Definition split_on (c : ascii) (s : string) : list string :=
  split_on_go c EmptyString s.

(** [s.strip(c)] for one character. *)
Fixpoint lstrip_char (c : ascii) (s : string) : string :=
  match s with
  | EmptyString => EmptyString
  | String a s' => if Ascii.eqb a c then lstrip_char c s' else s
  end.
Definition strip_char (c : ascii) (s : string) : string :=
  String.rev (lstrip_char c (String.rev (lstrip_char c s))).

End PyStrMore.

(** One file of a directory as [Package.get_directories] lists it: its
    name, its size and the cookie that files sharing one inode have in
    common ([None] or empty without one). *)
Record filedata := mkFiledata {
  fd_basename : string;
  fd_size : Z;
  fd_cookie : option string;
}.

(** The body of [for filedata in filedatas] of [generate_du_data].  The
    statement under [if cookie in seen:] is the bare name [next], which
    evaluates the builtin and goes on: the file is counted either way. *)
Definition du_file (st : gset string * Z * Z) (fd : filedata)
    : gset string * Z * Z :=
  let '(seen, size, count) := st in
  let seen :=
    match fd_cookie fd with
    | Some cookie =>
        if bool_decide (cookie = "") then seen else {[cookie]} ∪ seen
    | None => seen
    end in
  (seen, (size + fd_size fd)%Z, (count + 1)%Z).

(** [if subdir not in dudata_size:] both entries are made with 0; then
    [dudata_size[subdir] += size] and [dudata_count[subdir] += count].  The
    state is the pair of the two dictionaries. *)
Definition du_add (subdir : string) (size count : Z)
    (st : gmap string Z * gmap string Z) : gmap string Z * gmap string Z :=
  let st :=
    if bool_decide (is_Some (st.1 !! subdir)) then st
    else (<[subdir := 0%Z]> st.1, <[subdir := 0%Z]> st.2) in
  (alter (λ n, (n + size)%Z) subdir st.1,
   alter (λ n, (n + count)%Z) subdir st.2).

(** [for comp in dir.split('/')]: each turn extends [subdir], adds the
    directory's size and count to it, and leaves once [depth] is over
    [maxdepth].  The test [comp == '' and subdir != ''] guards the bare
    name [next] and has no effect. *)
Fixpoint du_components (maxdepth : Z) (size count : Z) (comps : list string)
    (subdir : string) (depth : Z) (st : gmap string Z * gmap string Z)
    : gmap string Z * gmap string Z :=
  match comps with
  | [] => st
  | comp :: comps' =>
      let subdir := subdir +:+ comp +:+ "/" in
      let st := du_add subdir size count st in
      let depth := (depth + 1)%Z in
      if (maxdepth <? depth)%Z then st
      else du_components maxdepth size count comps' subdir depth st
  end.

(** The directory name as it is split: [''] stands for the source
    directory, and the name gets one leading slash and no trailing one. *)
Definition du_dirname (dir : string) : string :=
  let dir := if bool_decide (dir = "") then "/usr/src/packages/" else dir in
  "/" +:+ PyStrMore.strip_char "/" dir.

(** One turn of [for dir, filedatas in pkg.get_directories().items()]. *)
Definition du_dir (maxdepth : Z)
    (st : gset string * (gmap string Z * gmap string Z))
    (item : string * list filedata)
    : gset string * (gmap string Z * gmap string Z) :=
  let '(seen, size, count) := foldl du_file (st.1, 0%Z, 0%Z) item.2 in
  (seen,
   du_components maxdepth size count
     (PyStrMore.split_on "/" (du_dirname item.1)) "" 0%Z st.2).

(** The order of [sorted(dudata_size.items())]: the keys are distinct. *)
Definition key_le {A} (x y : string * A) : Prop := String.le x.1 y.1.

Global Instance key_le_dec {A} : RelDecision (@key_le A).
Proof. intros x y. unfold key_le. apply _. Defined.

(** [generate_du_data] on the items of [pkg.get_directories()]. *)
Definition generate_du_data (dirs : list (string * list filedata))
    (maxdepth : Z) : list (string * Z * Z) :=
  let st := foldl (du_dir maxdepth) (∅, (∅, ∅)) dirs in
  (λ kv : string * Z, (kv.1, kv.2, default 0%Z (st.2.2 !! kv.1)))
    <$> merge_sort key_le (map_to_list st.2.1).

(** The flavor [build] derives from the command line: what precedes the
    first dot of [args.flavor], or [None]. *)
Definition build_flavor (arg : option string) : option string :=
  match arg with
  | Some a =>
      if bool_decide (a = "") then None
      else match PyStrMore.split_on "." a with
           | f0 :: _ => if bool_decide (f0 = "") then None else Some f0
           | [] => None
           end
  | None => None
  end.

(** Two worlds with the same output tree, manifest, status tables and
    shared lists: they differ in the printed lines at most. *)
Record same_state (w v : World) : Prop := mkSameState {
  same_fs : fs w = fs v;
  same_report : tree_report w = tree_report v;
  same_status : supportstatus w = supportstatus v;
  same_override : supportstatus_override w = supportstatus_override v;
  same_heap : heap w = heap v;
}.

(** The manifest tells where each file comes from: a path it lists is a
    hard link or a copy of the file of the package it is listed with. *)
Definition provenance_sound (w : World) : Prop :=
  ∀ p e, tree_report w !! p = Some e →
    fs w !! p = Some (HardLinkOf (pkg_location e))
    ∨ fs w !! p = Some (CopyOf (pkg_location e)).

Section Traces.
Context (ext : Externals).

(** The calls of [link_entry_into_dir] that [link_rpm] makes for one
    resolved package, in order: the package and the directory. *)
Definition rpm_links (rpmdir arch : string) (debugdir sourcedir : option string)
    (rpm : Package) : list (Package * string) :=
  (rpm, rpmdir) ::
  match get_src_package ext rpm with
  | None => []
  | Some srcrpm =>
      match given sourcedir with
      | Some sdir =>
          match lookup_rpm ext (pkg_arch srcrpm) (pkg_name srcrpm)
                  (VStr "=") VNone (pkg_version srcrpm) (pkg_release srcrpm)
          with
          | Some srpm => [(srpm, sdir)]
          | None => []
          end
      | None => []
      end ++
      match given debugdir with
      | Some ddir =>
          match lookup_rpm ext arch (pkg_name srcrpm +:+ "-debugsource")
                  (VStr "=") VNone (pkg_version srcrpm) (pkg_release srcrpm)
          with
          | Some drpm => [(drpm, ddir)]
          | None => []
          end ++
          match lookup_rpm ext arch (pkg_name rpm +:+ "-debuginfo")
                  (VStr "=") (pkg_epoch rpm) (pkg_version rpm)
                  (pkg_release rpm)
          with
          | Some drpm => [(drpm, ddir)]
          | None => []
          end
      | None => []
      end
  end.

(** The calls made for a whole set of Selectors. *)
Definition set_links (rpmdir arch : string) (debugdir sourcedir : option string)
    (singlemode : bool) (sels : list Selector) : list (Package * string) :=
  sel ← sels; rpm ← resolve ext singlemode arch sel;
  rpm_links rpmdir arch debugdir sourcedir rpm.

(** A sequence of calls of [link_entry_into_dir]. *)
Definition relink (add_slsa : bool) (calls : list (Package * string))
    (w : World) : World :=
  foldl (λ w c, link_entry_into_dir ext c.1 c.2 add_slsa w) w calls.

(** The writes to [supportstatus] made for a set of Selectors, in order;
    the values depend on the override table only. *)
Definition set_writes (override : gmap string string) (arch : string)
    (singlemode : bool) (sels : list Selector)
    : list (string * option string) :=
  sel ← sels; rpm ← resolve ext singlemode arch sel;
  [(pkg_name rpm,
    match override !! pkg_name rpm with
    | Some s => Some s
    | None => sel_supportstatus sel
    end)].

End Traces.

(** A sequence of writes to a dictionary. *)
Definition apply_writes {V} (writes : list (string * V)) (m : gmap string V)
    : gmap string V :=
  foldl (λ m kv, <[kv.1 := kv.2]> m) m writes.

(** The last value a sequence of writes gives a key, if it writes it. *)
Fixpoint written {V} (k : string) (writes : list (string * V)) : option V :=
  match writes with
  | [] => None
  | (k', v) :: writes' =>
      match written k writes' with
      | Some v' => Some v'
      | None => if bool_decide (k' = k) then Some v else None
      end
  end.

(** A string without the characters [str.strip()] removes. *)
Fixpoint no_space (s : string) : bool :=
  match s with
  | EmptyString => true
  | String a s' => negb (PyStr.is_space a) && no_space s'
  end.

(** A string of such characters only. *)
Fixpoint all_space (s : string) : bool :=
  match s with
  | EmptyString => true
  | String a s' => PyStr.is_space a && all_space s'
  end.

(** The bytes of the files of one directory, and the sums
    [generate_du_data] is compared with: the bytes and the number of the
    files of all directories, every name of a file counted. *)
Definition total_size (fds : list filedata) : Z :=
  foldr Z.add 0%Z (fd_size <$> fds).

Definition file_count (fds : list filedata) : Z :=
  Z.of_nat (List.length (fd_size <$> fds)).

Definition du_totals (dirs : list (string * list filedata)) : Z * Z :=
  (foldr (λ item n, (total_size item.2 + n)%Z) 0%Z dirs,
   foldr (λ item n, (file_count item.2 + n)%Z) 0%Z dirs).

(** [dudata_size] and [dudata_count] when the loop over the directories
    has ended. *)
Definition du_dicts (dirs : list (string * list filedata)) (maxdepth : Z)
    : gmap string Z * gmap string Z :=
  (foldl (du_dir maxdepth) (∅, (∅, ∅)) dirs).2.

(** Two directories of the same name whose files have the same sizes, in
    the same order. *)
Definition same_sizes (a b : string * list filedata) : Prop :=
  a.1 = b.1 ∧ fd_size <$> a.2 = fd_size <$> b.2.

(** The files without their cookies. *)
Definition without_cookies (dirs : list (string * list filedata))
    : list (string * list filedata) :=
  (λ item : string * list filedata,
     (item.1, (λ fd, mkFiledata (fd_basename fd) (fd_size fd) None)
                <$> item.2)) <$> dirs.

(** The number of slashes of a path. *)
Fixpoint slashes (s : string) : Z :=
  match s with
  | EmptyString => 0%Z
  | String a s' => ((if Ascii.eqb a "/" then 1 else 0) + slashes s')%Z
  end.

(** The two dictionaries have the same keys. *)
Definition same_keys (st : gmap string Z * gmap string Z) : Prop :=
  ∀ k, st.1 !! k = None ↔ st.2 !! k = None.

(** A step that removes no path of the output tree. *)
Definition keeps_paths {A} (m : M A) : Prop :=
  ∀ w p, path_exists p w = true → path_exists p (m w).2 = true.

(** The message of [create_tree] for a [source] or [debug] value it does
    not know. *)
Definition bad_option (option_name : string) : string :=
  "ERROR: Bad " +:+ option_name
    +:+ " option, must be either 'include', 'split' or 'drop'".

(** The values of [source] and [debug] that make no directory and end no
    build. *)
Definition plain_option (opt : option string) : Prop :=
  opt = None ∨ opt = Some "include" ∨ opt = Some "drop".

(** A Selector of an unpack set that the pool has no package for. *)
Definition meta_missing (ext : Externals) (arch : string) (sel : Selector)
    : bool :=
  match lookup_rpm ext arch (sel_name sel) (sel_op sel) (sel_epoch sel)
          (sel_version sel) (sel_release sel) with
  | None => true
  | Some _ => false
  end.

(** [n] is an operand of one of the operations of [e]. *)
Definition operand_of (n : string) (e : entry) : Prop :=
  ∃ setop onames,
    setop ∈ setops ∧ e_seq e !! setop = Some onames ∧ n ∈ onames.

(** What leaves a set object for [n] in [pkgsets]: an entry that passes
    the filters and is named [n], or one that passes them and takes [n]
    as an operand, which instantiates a name that was only declared. *)
Definition makes_set_object (arch : string) (flavor : option string)
    (n : string) (e : entry) : Prop :=
  active arch flavor e = true ∧ (entry_name e = n ∨ operand_of n e).

(** A text of ASCII characters: on such a text the white space that
    [str.strip()] removes is the white space of [PyStr.is_space]. *)
Fixpoint ascii_text (s : string) : bool :=
  match s with
  | EmptyString => true
  | String a s' => (nat_of_ascii a <? 128)%nat && ascii_text s'
  end.

(** * Properties *)

Global Arguments warn : simpl never.
Global Arguments print : simpl never.
Global Arguments link_file_into_dir : simpl never.
Global Arguments link_entry_into_dir : simpl never.
Global Arguments add_entry_to_report : simpl never.
Global Arguments set_supportstatus_db : simpl never.

(** ** Worlds only grow while packages are linked *)

Global Instance extends_preorder : PreOrder extends.
Proof.
  split.
  - intros w. by split.
  - intros w1 w2 w3 [] []. split; try (etrans; eassumption).
    all: congruence.
Qed.

Lemma extends_print line w : extends w (print line w).
Proof. unfold print. split; simpl; try done. by apply prefix_app_r. Qed.

Lemma extends_warn msg details w : extends w (warn msg details w).
Proof.
  unfold warn. destruct details as [d|]; [case_bool_decide|];
    repeat (etrans; [|apply extends_print]); reflexivity.
Qed.

Lemma extends_fresh_path p node w :
  fs w !! p = None → extends w (set_fs <[p := node]> w).
Proof. intros Hp. split; simpl; try done. by apply insert_subseteq. Qed.

Lemma path_exists_false p w : path_exists p w = false → fs w !! p = None.
Proof.
  unfold path_exists. intros Hp%bool_decide_eq_false.
  by apply eq_None_not_Some.
Qed.

Lemma path_exists_true p w : path_exists p w = true ↔ is_Some (fs w !! p).
Proof. unfold path_exists. apply bool_decide_eq_true. Qed.

Lemma extends_path_exists p w w' :
  extends w w' → path_exists p w = true → path_exists p w' = true.
Proof.
  intros [Hfs _ _ _ _]. rewrite !path_exists_true. intros [n Hn].
  exists n. by eapply lookup_weaken.
Qed.

Lemma extends_link_file ext filename directory w :
  extends w (link_file_into_dir ext filename directory w).
Proof.
  unfold link_file_into_dir.
  set (outname := directory +:+ "/" +:+ PyStr.basename filename).
  set (w1 := if path_exists directory w then w else _).
  assert (extends w w1) as Hw1.
  { subst w1. destruct (path_exists directory w) eqn:Hd; [reflexivity|].
    by apply extends_fresh_path, path_exists_false. }
  etrans; [exact Hw1|].
  destruct (path_exists outname w1) eqn:Ho; [reflexivity|].
  apply path_exists_false in Ho.
  destruct (islink ext filename); by apply extends_fresh_path.
Qed.

Lemma extends_add_entry entry outname w :
  extends w (add_entry_to_report entry outname w).
Proof.
  unfold add_entry_to_report. case_bool_decide as Hin; [reflexivity|].
  split; simpl; try done.
  apply insert_subseteq. by apply eq_None_not_Some.
Qed.

Lemma extends_link_entry ext entry directory add_slsa w :
  extends w (link_entry_into_dir ext entry directory add_slsa w).
Proof.
  unfold link_entry_into_dir.
  destruct (path_exists (outname_of entry directory) w); [reflexivity|].
  etrans; [apply (extends_link_file ext (pkg_location entry)
                    (directory +:+ "/" +:+ pkg_arch entry))|].
  etrans; [apply (extends_add_entry entry (outname_of entry directory))|].
  destruct add_slsa; [|reflexivity].
  destruct (pool_file_exists ext _); [|reflexivity].
  apply extends_link_file.
Qed.

Lemma extends_set_status f w : extends w (set_supportstatus_db f w).
Proof. by split. Qed.

Lemma extends_printed line w w' :
  extends w w' → line ∈ stdout w → line ∈ stdout w'.
Proof. intros [_ _ [k ->] _ _] Hin. apply elem_of_app. by left. Qed.

Section ResolutionFacts.
Context (ext : Externals).
Context (rpmdir arch : string) (debugdir sourcedir : option string).
Context (singlemode add_slsa : bool).

Local Abbreviation step_rpm :=
  (link_rpm ext rpmdir arch debugdir sourcedir add_slsa).
Local Abbreviation step_sel :=
  (link_selector ext rpmdir arch debugdir sourcedir singlemode add_slsa).

Lemma link_source_extends rpm srcrpm st :
  extends st.2 (link_source ext sourcedir add_slsa rpm srcrpm st).2.
Proof.
  unfold link_source. destruct (given sourcedir) as [sdir|]; [|reflexivity].
  destruct (lookup_rpm ext _ _ _ _ _ _) as [srpm|]; simpl.
  - apply extends_link_entry.
  - apply extends_warn.
Qed.

Lemma link_debug_extends rpm srcrpm w :
  extends w (link_debug ext arch debugdir add_slsa rpm srcrpm w).
Proof.
  unfold link_debug. destruct (given debugdir) as [ddir|]; [|reflexivity].
  etrans; [|destruct (lookup_rpm ext arch (pkg_name rpm +:+ _) _ _ _ _);
            [apply extends_link_entry|reflexivity]].
  destruct (lookup_rpm ext arch (pkg_name srcrpm +:+ _) _ _ _ _);
    [apply extends_link_entry|reflexivity].
Qed.

Lemma link_rpm_extends sel st rpm : extends st.2 (step_rpm sel st rpm).2.
Proof.
  unfold link_rpm.
  etrans; [apply (extends_link_entry ext rpm rpmdir add_slsa)|].
  etrans; [apply (extends_set_status
                    <[pkg_name rpm := status_for sel rpm
                        (link_entry_into_dir ext rpm rpmdir add_slsa st.2)]>)|].
  destruct (get_src_package ext rpm) as [srcrpm|]; simpl.
  - etrans; [|apply link_debug_extends].
    apply (link_source_extends rpm srcrpm (st.1, _)).
  - apply extends_warn.
Qed.

(** The flag after one package: it is raised exactly by a wanted source
    package that is not found. *)
Lemma link_rpm_flag sel st rpm :
  (step_rpm sel st rpm).1 = st.1 || source_missing ext sourcedir rpm.
Proof.
  unfold link_rpm, link_source, source_missing.
  destruct (get_src_package ext rpm) as [srcrpm|]; simpl.
  2:{ destruct (given sourcedir); by rewrite orb_false_r. }
  destruct (given sourcedir) as [sdir|]; simpl.
  2:{ by rewrite orb_false_r. }
  destruct (lookup_rpm ext _ _ _ _ _ _) as [srpm|]; simpl.
  - by rewrite orb_false_r.
  - by rewrite orb_true_r.
Qed.

Lemma link_rpms_extends sel rpms st :
  extends st.2 (foldl (step_rpm sel) st rpms).2.
Proof.
  revert st. induction rpms as [|rpm rpms IH]; intros st; simpl.
  - reflexivity.
  - etrans; [apply (link_rpm_extends sel st rpm)|]. apply IH.
Qed.

Lemma link_rpms_flag sel rpms st :
  (foldl (step_rpm sel) st rpms).1
  = st.1 || existsb (source_missing ext sourcedir) rpms.
Proof.
  revert st. induction rpms as [|rpm rpms IH]; intros st; simpl.
  - by rewrite orb_false_r.
  - rewrite IH, link_rpm_flag. by rewrite orb_assoc.
Qed.

Lemma link_selector_extends st sel : extends st.2 (step_sel st sel).2.
Proof.
  unfold link_selector.
  destruct (resolve ext singlemode arch sel) as [|rpm rpms]; simpl.
  - apply extends_warn.
  - apply (link_rpms_extends sel (rpm :: rpms)).
Qed.

Lemma link_selector_flag st sel :
  (step_sel st sel).1
  = st.1 || selector_missing ext singlemode arch sourcedir sel.
Proof.
  unfold link_selector, selector_missing.
  destruct (resolve ext singlemode arch sel) as [|rpm rpms].
  - simpl. by rewrite orb_true_r.
  - apply (link_rpms_flag sel (rpm :: rpms)).
Qed.

Lemma link_selectors_extends sels st :
  extends st.2 (foldl step_sel st sels).2.
Proof.
  revert st. induction sels as [|sel sels IH]; intros st; simpl.
  - reflexivity.
  - etrans; [apply link_selector_extends|]. apply IH.
Qed.

Lemma link_selectors_flag sels st :
  (foldl step_sel st sels).1
  = st.1 || existsb (selector_missing ext singlemode arch sourcedir) sels.
Proof.
  revert st. induction sels as [|sel sels IH]; intros st; simpl.
  - by rewrite orb_false_r.
  - rewrite IH, link_selector_flag. by rewrite orb_assoc.
Qed.

(** A Selector that resolves to nothing prints its warning and changes
    nothing else. *)
Lemma link_selector_unresolved st sel :
  resolve ext singlemode arch sel = [] →
  (step_sel st sel).2 = print (not_found_warning ext arch sel) st.2.
Proof. unfold link_selector. by intros ->. Qed.

Lemma link_selectors_warn sels st sel :
  sel ∈ sels → resolve ext singlemode arch sel = [] →
  not_found_warning ext arch sel ∈ stdout (foldl step_sel st sels).2.
Proof.
  intros Hin Hnone. revert st.
  induction Hin as [sel sels|sel sel' sels _ IH]; intros st; simpl.
  - eapply extends_printed; [apply link_selectors_extends|].
    rewrite link_selector_unresolved by done. unfold print. simpl.
    apply elem_of_app. right. by apply list_elem_of_singleton.
  - by apply IH.
Qed.

End ResolutionFacts.

(** ** Missing packages are collected over the whole set (C1) *)


(** ** Single and multi mode (C2) *)

Lemma string_app_assoc (s1 s2 s3 : string) :
  (s1 +:+ s2) +:+ s3 = s1 +:+ (s2 +:+ s3).
Proof.
  induction s1 as [|a s1 IH]; [done|].
  change (String a ((s1 +:+ s2) +:+ s3) = String a (s1 +:+ (s2 +:+ s3))).
  by rewrite IH.
Qed.

Lemma string_length_app (s1 s2 : string) :
  String.length (s1 +:+ s2) = (String.length s1 + String.length s2)%nat.
Proof.
  induction s1 as [|a s1 IH]; [done|].
  change (S (String.length (s1 +:+ s2))
          = S (String.length s1 + String.length s2)%nat).
  by rewrite IH.
Qed.

Lemma string_app_cons a (s1 s2 : string) :
  String a s1 +:+ s2 = String a (s1 +:+ s2).
Proof. done. Qed.

Lemma string_app_nil_l (s : string) : "" +:+ s = s.
Proof. done. Qed.

Lemma string_app_nil_r (s : string) : s +:+ "" = s.
Proof.
  induction s as [|a s IH]; [done|]. by rewrite string_app_cons, IH.
Qed.

(** A string is not itself with something appended. *)
Lemma string_app_ne (s t : string) : t ≠ "" → s +:+ t ≠ s.
Proof.
  intros Ht Heq. apply (f_equal String.length) in Heq.
  rewrite string_length_app in Heq. destruct t; [done|]. simpl in Heq. lia.
Qed.

Lemma prefix_app (s t : string) : String.prefix s (s +:+ t) = true.
Proof.
  induction s as [|a s IH]; [by destruct t|].
  rewrite string_app_cons. simpl.
  destruct (ascii_dec a a) as [_|Hne]; [exact IH|done].
Qed.

(** Two strings that continue a common start with different characters
    are not both at the start of a third. *)
Lemma prefix_app_disjoint (s : string) a b (t1 t2 u : string) :
  a ≠ b →
  String.prefix (s +:+ String a t1) u = true →
  String.prefix (s +:+ String b t2) u = true → False.
Proof.
  intros Hab. revert u. induction s as [|c s IH]; intros u.
  - rewrite !string_app_nil_l. destruct u as [|d u]; simpl; [done|].
    destruct (ascii_dec a d) as [->|]; [|done].
    by destruct (ascii_dec b d) as [->|].
  - rewrite !string_app_cons. destruct u as [|d u]; simpl; [done|].
    destruct (ascii_dec c d); [apply IH|done].
Qed.

Lemma rev_app_spec (s acc : string) :
  String.rev_app s acc = String.rev s +:+ acc.
Proof.
  unfold String.rev. revert acc.
  induction s as [|a s IH]; intros acc; simpl; [done|].
  rewrite (IH (String a acc)), (IH (String a "")).
  by rewrite string_app_assoc.
Qed.

Lemma rev_cons a (s : string) : String.rev (String a s) = String.rev s +:+ String a "".
Proof. unfold String.rev at 1. simpl. apply rev_app_spec. Qed.

Lemma rev_app_distr (s t : string) :
  String.rev (s +:+ t) = String.rev t +:+ String.rev s.
Proof.
  induction s as [|a s IH].
  - by rewrite string_app_nil_l, string_app_nil_r.
  - rewrite string_app_cons, !rev_cons, IH. by rewrite string_app_assoc.
Qed.

Lemma rev_involutive (s : string) : String.rev (String.rev s) = s.
Proof.
  induction s as [|a s IH]; [done|].
  by rewrite rev_cons, rev_app_distr, IH.
Qed.

Lemma prefix_cons_cons a b (s t : string) :
  String.prefix (String a s) (String b t)
  = if ascii_dec a b then String.prefix s t else false.
Proof. done. Qed.

Lemma endswith_slash_app (s t : string) a :
  a ≠ "/"%char →
  PyStr.endswith "/" (s +:+ t +:+ String a "") = false.
Proof.
  intros Ha. unfold PyStr.endswith.
  rewrite <-string_app_assoc, rev_app_distr.
  change (String.rev (String a "")) with (String a "").
  change (String.rev "/") with "/".
  rewrite string_app_cons, prefix_cons_cons.
  by destruct (ascii_dec "/" a) as [<-|].
Qed.

Lemma link_file_creates ext filename directory w :
  path_exists (directory +:+ "/" +:+ PyStr.basename filename)
              (link_file_into_dir ext filename directory w) = true.
Proof.
  unfold link_file_into_dir.
  set (outname := directory +:+ "/" +:+ PyStr.basename filename).
  set (w1 := if path_exists directory w then w else _).
  destruct (path_exists outname w1) eqn:Ho; [done|].
  destruct (islink ext filename); apply path_exists_true; simpl;
    rewrite lookup_insert_eq; eauto.
Qed.

(** After [link_entry_into_dir] the output path of the package exists. *)
Lemma link_entry_creates ext entry directory add_slsa w :
  path_exists (outname_of entry directory)
              (link_entry_into_dir ext entry directory add_slsa w) = true.
Proof.
  unfold link_entry_into_dir.
  destruct (path_exists (outname_of entry directory) w) eqn:Ho; [done|].
  set (w1 := link_file_into_dir ext (pkg_location entry) _ w).
  assert (path_exists (outname_of entry directory) w1 = true) as H1.
  { assert (outname_of entry directory
            = (directory +:+ "/" +:+ pkg_arch entry) +:+ "/"
                +:+ PyStr.basename (pkg_location entry)) as ->.
    { unfold outname_of. by rewrite !string_app_assoc. }
    apply link_file_creates. }
  eapply extends_path_exists; [|exact H1].
  etrans; [apply (extends_add_entry entry (outname_of entry directory))|].
  destruct add_slsa; [|reflexivity].
  destruct (pool_file_exists ext _); [|reflexivity].
  apply extends_link_file.
Qed.

Section LinkedFacts.
Context (ext : Externals).
Context (rpmdir arch : string) (debugdir sourcedir : option string).
Context (singlemode add_slsa : bool).

Lemma link_rpm_links sel st rpm :
  path_exists (outname_of rpm rpmdir)
    (link_rpm ext rpmdir arch debugdir sourcedir add_slsa sel st rpm).2 = true.
Proof.
  unfold link_rpm.
  set (w1 := link_entry_into_dir ext rpm rpmdir add_slsa st.2).
  set (w2 := set_supportstatus_db _ w1).
  assert (path_exists (outname_of rpm rpmdir) w2 = true) as H2
    by apply link_entry_creates.
  destruct (get_src_package ext rpm) as [srcrpm|]; simpl;
    (eapply extends_path_exists; [|exact H2]).
  - etrans; [|apply link_debug_extends].
    apply (link_source_extends ext sourcedir add_slsa rpm srcrpm (st.1, w2)).
  - apply extends_warn.
Qed.

Lemma link_rpms_link sel rpms st rpm :
  rpm ∈ rpms →
  path_exists (outname_of rpm rpmdir)
    (foldl (link_rpm ext rpmdir arch debugdir sourcedir add_slsa sel)
           st rpms).2 = true.
Proof.
  intros Hin. revert st.
  induction Hin as [rpm rpms|rpm rpm' rpms _ IH]; intros st; simpl.
  - eapply extends_path_exists; [apply link_rpms_extends|].
    apply link_rpm_links.
  - apply IH.
Qed.

Lemma link_selector_links st sel rpm :
  rpm ∈ resolve ext singlemode arch sel →
  path_exists (outname_of rpm rpmdir)
    (link_selector ext rpmdir arch debugdir sourcedir singlemode add_slsa
       st sel).2 = true.
Proof.
  unfold link_selector.
  destruct (resolve ext singlemode arch sel) as [|rpm0 rpms] eqn:Hres.
  - by intros ?%elem_of_nil.
  - intros Hin. by apply (link_rpms_link sel (rpm0 :: rpms)).
Qed.

Lemma link_selectors_link sels st sel rpm :
  sel ∈ sels → rpm ∈ resolve ext singlemode arch sel →
  path_exists (outname_of rpm rpmdir)
    (foldl (link_selector ext rpmdir arch debugdir sourcedir singlemode
              add_slsa) st sels).2 = true.
Proof.
  intros Hin Hrpm. revert st.
  induction Hin as [sel sels|sel sel' sels _ IH]; intros st; simpl.
  - eapply extends_path_exists; [apply link_selectors_extends|].
    by apply link_selector_links.
  - by apply IH.
Qed.

End LinkedFacts.


(** ** First writer wins (C3) *)

Lemma add_entry_lookup entry outname w p :
  tree_report (add_entry_to_report entry outname w) !! p
  = match tree_report w !! p with
    | Some e => Some e
    | None => if bool_decide (outname = p) then Some entry else None
    end.
Proof.
  unfold add_entry_to_report.
  case_bool_decide as Hin; simpl.
  - destruct (tree_report w !! p) eqn:Hp; [done|].
    case_bool_decide; [|done]. subst. rewrite Hp in Hin. by destruct Hin.
  - apply eq_None_not_Some in Hin.
    case_bool_decide as Hp.
    + subst. by rewrite lookup_insert_eq, Hin.
    + rewrite lookup_insert_ne by done. by destruct (tree_report w !! p).
Qed.

Lemma add_entry_twice entry entry' outname w :
  add_entry_to_report entry' outname (add_entry_to_report entry outname w)
  = add_entry_to_report entry outname w.
Proof.
  unfold add_entry_to_report at 1.
  rewrite bool_decide_eq_true_2; [done|].
  rewrite add_entry_lookup.
  destruct (tree_report w !! outname); [eauto|].
  rewrite bool_decide_eq_true_2 by done. eauto.
Qed.

Lemma register_all_lookup regs w p :
  tree_report (register_all regs w) !! p
  = match tree_report w !! p with
    | Some e => Some e
    | None => fst <$> head (filter (λ r, r.2 = p) regs)
    end.
Proof.
  revert w. induction regs as [|[e q] regs IH]; intros w; simpl.
  - by destruct (tree_report w !! p).
  - unfold register_all in *. simpl. rewrite IH, add_entry_lookup.
    destruct (tree_report w !! p) as [e0|]; [done|].
    rewrite filter_cons. simpl.
    case_bool_decide as Hq; case_decide; try done.
Qed.

(** C3.  The manifest keeps the first package registered for an output
    path: after any sequence of registrations a path is bound to the entry
    it had before, or else to the first package of the sequence registered
    for it; registering or linking another package at a path that was
    registered or linked before changes nothing at all, neither the output
    tree nor the manifest; and linking never changes a path or a manifest
    entry that is already there. *)
Theorem first_writer_wins
    (ext : Externals) (w : World) (entry entry' : Package)
    (directory : string) (add_slsa add_slsa' : bool)
    (regs : list (Package * string)) (p : string) :
  outname_of entry' directory = outname_of entry directory →
  tree_report (register_all regs w) !! p
  = match tree_report w !! p with
    | Some e => Some e
    | None => fst <$> head (filter (λ r, r.2 = p) regs)
    end
  ∧ add_entry_to_report entry' p (add_entry_to_report entry p w)
    = add_entry_to_report entry p w
  ∧ link_entry_into_dir ext entry' directory add_slsa'
      (link_entry_into_dir ext entry directory add_slsa w)
    = link_entry_into_dir ext entry directory add_slsa w
  ∧ fs w ⊆ fs (link_entry_into_dir ext entry directory add_slsa w)
  ∧ tree_report w
    ⊆ tree_report (link_entry_into_dir ext entry directory add_slsa w).
Proof.
  intros Hsame. split; [apply register_all_lookup|].
  split; [apply add_entry_twice|]. split.
  - unfold link_entry_into_dir at 1. rewrite Hsame.
    by rewrite link_entry_creates.
  - destruct (extends_link_entry ext entry directory add_slsa w). by split.
Qed.

(** ** Support status (C7) *)

Lemma link_file_status ext filename directory w :
  supportstatus (link_file_into_dir ext filename directory w) = supportstatus w.
Proof.
  unfold link_file_into_dir.
  repeat (match goal with |- context [if ?b then _ else _] => destruct b end);
    done.
Qed.

Lemma add_entry_status entry outname w :
  supportstatus (add_entry_to_report entry outname w) = supportstatus w.
Proof. unfold add_entry_to_report. by case_bool_decide. Qed.

Lemma link_entry_status ext entry directory add_slsa w :
  supportstatus (link_entry_into_dir ext entry directory add_slsa w)
  = supportstatus w.
Proof.
  unfold link_entry_into_dir.
  destruct (path_exists (outname_of entry directory) w); [done|].
  destruct add_slsa; [destruct (pool_file_exists ext _)|];
    rewrite ?link_file_status, add_entry_status, link_file_status; done.
Qed.

Lemma warn_status msg details w :
  supportstatus (warn msg details w) = supportstatus w.
Proof.
  unfold warn, print. destruct details as [d|]; [case_bool_decide|]; done.
Qed.

Section StatusFacts.
Context (ext : Externals).
Context (rpmdir arch : string) (debugdir sourcedir : option string).
Context (singlemode add_slsa : bool).

Lemma link_source_status rpm srcrpm st :
  supportstatus (link_source ext sourcedir add_slsa rpm srcrpm st).2
  = supportstatus st.2.
Proof.
  unfold link_source. destruct (given sourcedir) as [sdir|]; [|done].
  destruct (lookup_rpm ext _ _ _ _ _ _) as [srpm|]; unfold snd.
  - apply link_entry_status.
  - apply warn_status.
Qed.

Lemma link_debug_status rpm srcrpm w :
  supportstatus (link_debug ext arch debugdir add_slsa rpm srcrpm w)
  = supportstatus w.
Proof.
  unfold link_debug. destruct (given debugdir) as [ddir|]; [|done].
  destruct (lookup_rpm ext arch (pkg_name rpm +:+ _) _ _ _ _);
    destruct (lookup_rpm ext arch (pkg_name srcrpm +:+ _) _ _ _ _);
    by rewrite ?link_entry_status.
Qed.

(** One package writes one key of [supportstatus]: its own name. *)
Lemma link_rpm_status sel st rpm :
  supportstatus
    (link_rpm ext rpmdir arch debugdir sourcedir add_slsa sel st rpm).2
  = <[pkg_name rpm := status_for sel rpm st.2]> (supportstatus st.2).
Proof.
  unfold link_rpm.
  assert (status_for sel rpm
            (link_entry_into_dir ext rpm rpmdir add_slsa st.2)
          = status_for sel rpm st.2) as ->.
  { unfold status_for.
    by rewrite (ext_override _ _
                  (extends_link_entry ext rpm rpmdir add_slsa st.2)). }
  destruct (get_src_package ext rpm) as [srcrpm|]; unfold snd at 1.
  - rewrite link_debug_status, link_source_status. unfold snd at 1.
    unfold set_supportstatus_db. simpl. by rewrite link_entry_status.
  - rewrite warn_status.
    unfold set_supportstatus_db. simpl. by rewrite link_entry_status.
Qed.

Lemma link_rpm_override sel st rpm :
  supportstatus_override
    (link_rpm ext rpmdir arch debugdir sourcedir add_slsa sel st rpm).2
  = supportstatus_override st.2.
Proof. apply ext_override, link_rpm_extends. Qed.

Lemma link_rpm_overridden name s sel st rpm :
  overridden name s st.2 →
  overridden name s
    (link_rpm ext rpmdir arch debugdir sourcedir add_slsa sel st rpm).2.
Proof.
  intros [Ho Hr]. split; [by rewrite link_rpm_override|].
  unfold recorded_status. rewrite link_rpm_status.
  destruct (decide (pkg_name rpm = name)) as [Heq|Hne].
  - rewrite Heq, lookup_insert_eq. unfold status_for. by rewrite Heq, Ho.
  - by rewrite lookup_insert_ne.
Qed.

Lemma link_rpms_overridden name s sel rpms st :
  overridden name s st.2 →
  overridden name s
    (foldl (link_rpm ext rpmdir arch debugdir sourcedir add_slsa sel)
           st rpms).2.
Proof.
  revert st. induction rpms as [|rpm rpms IH]; intros st Hst; [done|].
  simpl. by apply IH, link_rpm_overridden.
Qed.

Lemma link_rpms_override_first s sel rpms st rpm :
  rpm ∈ rpms →
  supportstatus_override st.2 !! pkg_name rpm = Some s →
  overridden (pkg_name rpm) s
    (foldl (link_rpm ext rpmdir arch debugdir sourcedir add_slsa sel)
           st rpms).2.
Proof.
  intros Hin. revert st.
  induction Hin as [rpm rpms|rpm rpm' rpms _ IH]; intros st Ho; simpl.
  - apply link_rpms_overridden. split; [by rewrite link_rpm_override|].
    unfold recorded_status. rewrite link_rpm_status, lookup_insert_eq.
    unfold status_for. by rewrite Ho.
  - apply IH. by rewrite link_rpm_override.
Qed.

Lemma link_selector_overridden name s st sel :
  overridden name s st.2 →
  overridden name s
    (link_selector ext rpmdir arch debugdir sourcedir singlemode add_slsa
       st sel).2.
Proof.
  intros [Ho Hr]. unfold link_selector.
  destruct (resolve ext singlemode arch sel) as [|rpm rpms].
  - simpl. split.
    + by rewrite (ext_override _ _ (extends_warn _ _ _)).
    + unfold recorded_status. by rewrite warn_status.
  - by apply (link_rpms_overridden name s sel (rpm :: rpms)).
Qed.

Lemma link_selectors_overridden name s sels st :
  overridden name s st.2 →
  overridden name s
    (foldl (link_selector ext rpmdir arch debugdir sourcedir singlemode
              add_slsa) st sels).2.
Proof.
  revert st. induction sels as [|sel sels IH]; intros st Hst; [done|].
  simpl. by apply IH, link_selector_overridden.
Qed.

Lemma link_selectors_override_first s sels st sel rpm :
  sel ∈ sels → rpm ∈ resolve ext singlemode arch sel →
  supportstatus_override st.2 !! pkg_name rpm = Some s →
  overridden (pkg_name rpm) s
    (foldl (link_selector ext rpmdir arch debugdir sourcedir singlemode
              add_slsa) st sels).2.
Proof.
  intros Hin Hrpm. revert st.
  induction Hin as [sel sels|sel sel' sels _ IH]; intros st Ho; simpl.
  - apply link_selectors_overridden. unfold link_selector.
    destruct (resolve ext singlemode arch sel) as [|rpm0 rpms] eqn:Hres.
    + by apply elem_of_nil in Hrpm.
    + by apply (link_rpms_override_first s sel (rpm0 :: rpms)).
  - apply IH; [done|].
    by rewrite (ext_override _ _ (link_selector_extends ext rpmdir arch
                  debugdir sourcedir singlemode add_slsa st sel')).
Qed.

End StatusFacts.

(** [parse_supportstatus] on a file of two lines: each line binds its
    first field to its second in the override table. *)
Example parse_supportstatus_two_lines :
  (parse_supportstatus ["foo l3"; "bar unsupported "]
     (Fixture.world ["x86_64"])).1 = Normal tt
  ∧ supportstatus_override Fixture.overriding !! "foo" = Some "l3"
  ∧ supportstatus_override Fixture.overriding !! "bar" = Some "unsupported"
  ∧ supportstatus_override Fixture.overriding !! "baz" = None.
Proof. vm_compute. by repeat split. Qed.

(** A line without a second field raises, as [a[1]] does. *)
Example parse_supportstatus_short_line :
  (parse_supportstatus ["foo"] (Fixture.world ["x86_64"])).1
  = Raised "IndexError: list index out of range".
Proof. reflexivity. Qed.

(** C7.  For every resolved package the status recorded for its name is
    the entry of the override table when the name has one, and otherwise
    the status carried by the Selector from its set; with neither, no
    status is recorded for the name.  The override also prevails at the end
    of the run: whatever else is resolved later, a resolved package whose
    name has an override ends with the override as its status. *)
Theorem supportstatus_override_takes_precedence
    (ext : Externals) {PkgSet : Type} `{!PkgSetOps PkgSet}
    (rpmdir : string) (yml : Yml) (arch : string) (flavor : option string)
    (debugdir sourcedir : option string) (main_pkgset : PkgSet) (w : World) :
  create_package_set yml arch flavor "main" = Ok main_pkgset →
  (∀ add_slsa sel st rpm,
     recorded_status (pkg_name rpm)
       (link_rpm ext rpmdir arch debugdir sourcedir add_slsa sel st rpm).2
     = match supportstatus_override st.2 !! pkg_name rpm with
       | Some s => Some s
       | None => sel_supportstatus sel
       end)
  ∧ (∀ add_slsa sel st rpm,
       supportstatus_override st.2 !! pkg_name rpm = None →
       sel_supportstatus sel = None →
       recorded_status (pkg_name rpm)
         (link_rpm ext rpmdir arch debugdir sourcedir add_slsa sel st rpm).2
       = None)
  ∧ (∀ sel rpm s,
       sel ∈ pkgset_iter main_pkgset →
       rpm ∈ resolve ext (negb (PyStr.mem "take_all_available_versions"
                                          (y_build_options yml))) arch sel →
       supportstatus_override w !! pkg_name rpm = Some s →
       recorded_status (pkg_name rpm)
         (link_rpms_to_tree ext rpmdir yml arch flavor debugdir sourcedir w).2
       = Some s).
Proof.
  intros Hset.
  assert (∀ add_slsa sel st rpm,
     recorded_status (pkg_name rpm)
       (link_rpm ext rpmdir arch debugdir sourcedir add_slsa sel st rpm).2
     = match supportstatus_override st.2 !! pkg_name rpm with
       | Some s => Some s
       | None => sel_supportstatus sel
       end) as Hstep.
  { intros add_slsa sel st rpm. unfold recorded_status.
    rewrite link_rpm_status, lookup_insert_eq. unfold status_for. simpl.
    by destruct (supportstatus_override st.2 !! pkg_name rpm). }
  split; [exact Hstep|]. split.
  - intros add_slsa sel st rpm Ho Hs. by rewrite Hstep, Ho.
  - intros sel rpm s Hsel Hrpm Ho.
    unfold link_rpms_to_tree, mbind, M_bind. rewrite Hset. simpl.
    set (st := foldl _ (false, w) (pkgset_iter main_pkgset)).
    assert (overridden (pkg_name rpm) s st.2) as [_ Hrec].
    { subst st. by eapply link_selectors_override_first. }
    destruct (st.1 && negb _); simpl; [|done].
    unfold die, print, recorded_status in *. simpl. done.
Qed.

(** ** Source and debug companions (C4) *)

Lemma link_source_links ext sourcedir add_slsa rpm srcrpm st sdir srpm :
  given sourcedir = Some sdir →
  lookup_rpm ext (pkg_arch srcrpm) (pkg_name srcrpm) (VStr "=") VNone
    (pkg_version srcrpm) (pkg_release srcrpm) = Some srpm →
  path_exists (outname_of srpm sdir)
    (link_source ext sourcedir add_slsa rpm srcrpm st).2 = true.
Proof.
  intros Hdir Hfound. unfold link_source. rewrite Hdir, Hfound.
  apply link_entry_creates.
Qed.

Lemma link_debug_links_debugsource ext arch debugdir add_slsa rpm srcrpm w
    ddir drpm :
  given debugdir = Some ddir →
  lookup_rpm ext arch (pkg_name srcrpm +:+ "-debugsource") (VStr "=") VNone
    (pkg_version srcrpm) (pkg_release srcrpm) = Some drpm →
  path_exists (outname_of drpm ddir)
    (link_debug ext arch debugdir add_slsa rpm srcrpm w) = true.
Proof.
  intros Hdir Hfound. unfold link_debug. rewrite Hdir, Hfound.
  destruct (lookup_rpm ext arch (pkg_name rpm +:+ _) _ _ _ _).
  - eapply extends_path_exists; [apply extends_link_entry|].
    apply link_entry_creates.
  - apply link_entry_creates.
Qed.

Lemma link_debug_links_debuginfo ext arch debugdir add_slsa rpm srcrpm w
    ddir drpm :
  given debugdir = Some ddir →
  lookup_rpm ext arch (pkg_name rpm +:+ "-debuginfo") (VStr "=")
    (pkg_epoch rpm) (pkg_version rpm) (pkg_release rpm) = Some drpm →
  path_exists (outname_of drpm ddir)
    (link_debug ext arch debugdir add_slsa rpm srcrpm w) = true.
Proof.
  intros Hdir Hfound. unfold link_debug. rewrite Hdir, Hfound.
  apply link_entry_creates.
Qed.

(** C4, as the code has it.  For a resolved binary package that names a
    source package: when a source sub-tree is requested and the source
    package is not found at its exact version and release, the package
    counts as missing, and nothing else raises the flag; when a debug
    sub-tree is requested, the debugsource package of the source and the
    debuginfo package of the binary are linked when the pool has them, and
    their absence changes neither the flag nor the outcome.  For a resolved
    binary package that names no source package the code only warns: no
    companion is looked up, neither source nor debug, and the flag is left
    as it was. *)
Theorem companions_of_a_resolved_package
    (ext : Externals) (rpmdir arch : string)
    (debugdir sourcedir : option string) (add_slsa : bool)
    (sel : Selector) (st : bool * World) (rpm : Package) :
  match get_src_package ext rpm with
  | Some srcrpm =>
      (link_rpm ext rpmdir arch debugdir sourcedir add_slsa sel st rpm).1
      = st.1
        || (bool_decide (is_Some (given sourcedir))
            && bool_decide
                 (lookup_rpm ext (pkg_arch srcrpm) (pkg_name srcrpm)
                    (VStr "=") VNone (pkg_version srcrpm)
                    (pkg_release srcrpm) = None))
      ∧ (∀ sdir srpm,
           given sourcedir = Some sdir →
           lookup_rpm ext (pkg_arch srcrpm) (pkg_name srcrpm) (VStr "=")
             VNone (pkg_version srcrpm) (pkg_release srcrpm) = Some srpm →
           path_exists (outname_of srpm sdir)
             (link_rpm ext rpmdir arch debugdir sourcedir add_slsa sel st
                rpm).2 = true)
      ∧ (∀ ddir drpm,
           given debugdir = Some ddir →
           lookup_rpm ext arch (pkg_name rpm +:+ "-debuginfo") (VStr "=")
             (pkg_epoch rpm) (pkg_version rpm) (pkg_release rpm)
           = Some drpm →
           path_exists (outname_of drpm ddir)
             (link_rpm ext rpmdir arch debugdir sourcedir add_slsa sel st
                rpm).2 = true)
      ∧ (∀ ddir drpm,
           given debugdir = Some ddir →
           lookup_rpm ext arch (pkg_name srcrpm +:+ "-debugsource")
             (VStr "=") VNone (pkg_version srcrpm) (pkg_release srcrpm)
           = Some drpm →
           path_exists (outname_of drpm ddir)
             (link_rpm ext rpmdir arch debugdir sourcedir add_slsa sel st
                rpm).2 = true)
  | None =>
      link_rpm ext rpmdir arch debugdir sourcedir add_slsa sel st rpm
      = (st.1,
         warn ("package " +:+ str_pkg ext rpm +:+ " does not have a source rpm")
           None
           (set_supportstatus_db
              <[pkg_name rpm :=
                  status_for sel rpm
                    (link_entry_into_dir ext rpm rpmdir add_slsa st.2)]>
              (link_entry_into_dir ext rpm rpmdir add_slsa st.2)))
  end
  ∧ (link_rpm ext rpmdir arch debugdir sourcedir add_slsa sel st rpm).1
    = (link_rpm ext rpmdir arch None sourcedir add_slsa sel st rpm).1.
Proof.
  split.
  2:{ by rewrite !link_rpm_flag. }
  pose proof (link_rpm_flag ext rpmdir arch debugdir sourcedir add_slsa
                sel st rpm) as Hflag.
  unfold source_missing in Hflag. unfold link_rpm in *.
  destruct (get_src_package ext rpm) as [srcrpm|]; [|done].
  split; [|split; [|split]].
  - rewrite Hflag. by destruct (given sourcedir).
  - intros sdir srpm Hdir Hfound. unfold snd at 1.
    eapply extends_path_exists; [apply link_debug_extends|].
    by eapply link_source_links.
  - intros ddir drpm Hdir Hfound. unfold snd at 1.
    by eapply link_debug_links_debuginfo.
  - intros ddir drpm Hdir Hfound. unfold snd at 1.
    by eapply link_debug_links_debugsource.
Qed.

(** C4 as the spec words it fails on a package without a source reference:
    bar names no source package, the pool holds bar-debuginfo at the
    version and release of bar and a debug sub-tree is requested.  On the
    output tree as [create_tree] has made it, with the product directory
    and the directory of the debug sub-tree, the run returns, bar is
    linked, and bar-debuginfo is not: nothing is in the debug sub-tree, and
    the one line printed is the warning about the source rpm. *)
Lemma debuginfo_skipped_without_source_reference :
  get_src_package Fixture.ext Fixture.bar = None
  ∧ lookup_rpm Fixture.ext "x86_64" "bar-debuginfo" (VStr "=")
      (pkg_epoch Fixture.bar) (pkg_version Fixture.bar)
      (pkg_release Fixture.bar) = Some Fixture.bar_debuginfo
  ∧ path_exists "out/prod" (Fixture.tree ["x86_64"]) = true
  ∧ path_exists "out/prod-Debug" (Fixture.tree ["x86_64"]) = true
  ∧ (link_rpms_to_tree (PkgSet := SpecPkgSet.t) Fixture.ext "out/prod"
       (Fixture.product [] [Fixture.entry_of [] [("packages", ["bar"])]])
       "x86_64" None (Some "out/prod-Debug") None
       (Fixture.tree ["x86_64"])).1 = Normal tt
  ∧ fs (link_rpms_to_tree (PkgSet := SpecPkgSet.t) Fixture.ext "out/prod"
          (Fixture.product [] [Fixture.entry_of [] [("packages", ["bar"])]])
          "x86_64" None (Some "out/prod-Debug") None
          (Fixture.tree ["x86_64"])).2
       !! outname_of Fixture.bar "out/prod"
    = Some (HardLinkOf (pkg_location Fixture.bar))
  ∧ path_exists (outname_of Fixture.bar_debuginfo "out/prod-Debug")
      (link_rpms_to_tree (PkgSet := SpecPkgSet.t) Fixture.ext "out/prod"
         (Fixture.product [] [Fixture.entry_of [] [("packages", ["bar"])]])
         "x86_64" None (Some "out/prod-Debug") None
         (Fixture.tree ["x86_64"])).2 = false
  ∧ path_exists "out/prod-Debug/x86_64"
      (link_rpms_to_tree (PkgSet := SpecPkgSet.t) Fixture.ext "out/prod"
         (Fixture.product [] [Fixture.entry_of [] [("packages", ["bar"])]])
         "x86_64" None (Some "out/prod-Debug") None
         (Fixture.tree ["x86_64"])).2 = false
  ∧ List.length
      (stdout
         (link_rpms_to_tree (PkgSet := SpecPkgSet.t) Fixture.ext "out/prod"
            (Fixture.product [] [Fixture.entry_of [] [("packages", ["bar"])]])
            "x86_64" None (Some "out/prod-Debug") None
            (Fixture.tree ["x86_64"])).2) = 1%nat.
Proof. vm_compute. by repeat split. Qed.

(** ** Package-set declarations (C5, C6, C8) *)

Lemma fold_result_app {A S} (f : A → S → result S) (l1 l2 : list A) (a : S) :
  fold_result f (l1 ++ l2) a = fold_result f l1 a ≫= fold_result f l2.
Proof.
  revert a. induction l1 as [|x l1 IH]; intros a; simpl; [done|].
  unfold mbind, result_bind. destruct (f x a); [apply IH|done..].
Qed.

Lemma fold_result_ext {A S} (f g : A → S → result S) (l : list A) (a : S) :
  (∀ x s, x ∈ l → f x s = g x s) → fold_result f l a = fold_result g l a.
Proof.
  revert a. induction l as [|x l IH]; intros a Hfg; simpl; [done|].
  rewrite (Hfg x a) by apply list_elem_of_here.
  unfold mbind, result_bind. destruct (g x a); [|done..].
  apply IH. intros y s Hy. apply Hfg. by apply list_elem_of_further.
Qed.

Section PackageSetFacts.
Context {PkgSet : Type} `{!PkgSetOps PkgSet}.

Lemma apply_setop_ok setop (pkgset other : PkgSet) :
  setop ∈ setops → ∃ r, apply_setop setop pkgset other = Ok r.
Proof.
  unfold setops, apply_setop. rewrite !elem_of_cons, elem_of_nil.
  intros [->|[->|[->|[]]]]; eauto.
Qed.

(** What [operand_step] returns: the fatal message for an operand that is
    the set itself or was not declared before, and otherwise the result of
    the operation on the operand, an empty set standing in for a declared
    name that has no set object yet. *)
Lemma operand_step_spec name setop oname (pkgset : PkgSet) pkgsets :
  setop ∈ setops →
  (oname = name ∨ pkgsets !! oname = None →
   operand_step name setop oname (pkgset, pkgsets)
   = Die (does_not_exist oname))
  ∧ (oname ≠ name → pkgsets !! oname = Some None →
     ∃ r, apply_setop setop pkgset (PkgSet_new oname) = Ok r
          ∧ operand_step name setop oname (pkgset, pkgsets)
            = Ok (r, <[name := Some r]>
                       (<[oname := Some (PkgSet_new oname)]> pkgsets)))
  ∧ (∀ other, oname ≠ name → pkgsets !! oname = Some (Some other) →
     ∃ r, apply_setop setop pkgset other = Ok r
          ∧ operand_step name setop oname (pkgset, pkgsets)
            = Ok (r, <[name := Some r]> pkgsets)).
Proof.
  intros Hop. unfold operand_step, does_not_exist. repeat split.
  - intros [->|Hnone].
    + by rewrite bool_decide_eq_true_2.
    + rewrite (bool_decide_eq_true_2 (pkgsets !! oname = None)) by done.
      by rewrite orb_true_r.
  - intros Hne Hdecl.
    rewrite bool_decide_eq_false_2 by done.
    rewrite bool_decide_eq_false_2 by (by rewrite Hdecl). simpl.
    unfold instantiate. rewrite Hdecl, lookup_insert_eq. simpl.
    destruct (apply_setop_ok setop pkgset (PkgSet_new oname) Hop) as [r Hr].
    exists r. by rewrite Hr.
  - intros other Hne Hdecl.
    rewrite bool_decide_eq_false_2 by done.
    rewrite bool_decide_eq_false_2 by (by rewrite Hdecl). simpl.
    unfold instantiate. rewrite Hdecl. simpl. rewrite Hdecl. simpl.
    destruct (apply_setop_ok setop pkgset other Hop) as [r Hr].
    exists r. by rewrite Hr.
Qed.

(** [operand_step] ends in the one fatal message or goes on. *)
Lemma operand_step_cases name setop oname (st : PkgSet * gmap string (option PkgSet)) :
  setop ∈ setops →
  operand_step name setop oname st = Die (does_not_exist oname)
  ∨ ∃ st', operand_step name setop oname st = Ok st'.
Proof.
  intros Hop. destruct st as [pkgset pkgsets].
  destruct (operand_step_spec name setop oname pkgset pkgsets Hop)
    as (Hdie & Hnone & Hsome).
  destruct (decide (oname = name)) as [Heq|Hne]; [left; auto|].
  destruct (pkgsets !! oname) as [[other|]|] eqn:Hlook.
  - right. destruct (Hsome other Hne eq_refl) as (r & _ & ->). eauto.
  - right. destruct (Hnone Hne eq_refl) as (r & _ & ->). eauto.
  - left. auto.
Qed.

Lemma operands_cases name setop onames (st : PkgSet * gmap string (option PkgSet)) :
  setop ∈ setops →
  (∃ oname, fold_result (operand_step name setop) onames st
            = Die (does_not_exist oname))
  ∨ ∃ st', fold_result (operand_step name setop) onames st = Ok st'.
Proof.
  intros Hop. revert st.
  induction onames as [|oname onames IH]; intros st; simpl; [eauto|].
  destruct (operand_step_cases name setop oname st Hop) as [->|[st' ->]];
    simpl; [eauto|apply IH].
Qed.

Lemma operands_self name setop onames (st : PkgSet * gmap string (option PkgSet)) :
  setop ∈ setops → name ∈ onames →
  ∃ oname, fold_result (operand_step name setop) onames st
           = Die (does_not_exist oname).
Proof.
  intros Hop Hin. revert st.
  induction Hin as [name onames|name oname onames _ IH]; intros st; simpl.
  - destruct st as [pkgset pkgsets].
    destruct (operand_step_spec name setop name pkgset pkgsets Hop)
      as (-> & _); eauto.
  - destruct (operand_step_cases name setop oname st Hop) as [->|[st' ->]];
      simpl; [eauto|apply IH].
Qed.

Lemma setop_step_cases name e setop (st : PkgSet * gmap string (option PkgSet)) :
  setop ∈ setops →
  (∃ oname, setop_step name e setop st = Die (does_not_exist oname))
  ∨ ∃ st', setop_step name e setop st = Ok st'.
Proof.
  intros Hop. unfold setop_step.
  destruct (e_seq e !! setop) as [onames|]; [by apply operands_cases|eauto].
Qed.

Lemma setops_self name e l (st : PkgSet * gmap string (option PkgSet)) setop onames :
  l ⊆ setops → setop ∈ l → e_seq e !! setop = Some onames → name ∈ onames →
  ∃ oname, fold_result (setop_step name e) l st = Die (does_not_exist oname).
Proof.
  intros Hl Hin Hlook Hself. revert st Hl.
  induction Hin as [setop l|setop setop' l _ IH]; intros st Hl; simpl.
  - replace (setop_step name e setop st)
      with (fold_result (operand_step name setop) onames st)
      by (unfold setop_step; by rewrite Hlook).
    destruct (operands_self name setop onames st) as [oname ->]; eauto.
    apply Hl, list_elem_of_here.
  - destruct (setop_step_cases name e setop' st) as [[oname ->]|[st' ->]];
      simpl; eauto.
    + apply Hl, list_elem_of_here.
    + apply IH; [done|]. intros x Hx. by apply Hl, list_elem_of_further.
Qed.

End PackageSetFacts.

Section DeclarationFacts.
Context {PkgSet : Type} `{!PkgSetOps PkgSet}.

Local Abbreviation pkgsets_t := (gmap string (option PkgSet)).

Lemma setops_cases name e l (st : PkgSet * pkgsets_t) :
  l ⊆ setops →
  (∃ oname, fold_result (setop_step name e) l st = Die (does_not_exist oname))
  ∨ ∃ st', fold_result (setop_step name e) l st = Ok st'.
Proof.
  revert st. induction l as [|setop l IH]; intros st Hl; simpl; [eauto|].
  destruct (setop_step_cases name e setop st) as [[oname ->]|[st' ->]];
    simpl; eauto.
  - apply Hl, list_elem_of_here.
  - apply IH. intros x Hx. by apply Hl, list_elem_of_further.
Qed.

(** An entry whose name already has a set object is refused at once. *)
Lemma entry_step_defined arch flavor e (pkgsets : pkgsets_t) :
  instantiated (entry_name e) pkgsets →
  entry_step arch flavor e pkgsets = Die (already_defined (entry_name e)).
Proof.
  intros Hdef. unfold entry_step, instantiated in *.
  by rewrite bool_decide_eq_true_2.
Qed.

(** An entry that is filtered out only declares its name. *)
Lemma entry_step_skipped arch flavor e (pkgsets : pkgsets_t) :
  ¬ instantiated (entry_name e) pkgsets → active arch flavor e = false →
  entry_step arch flavor e pkgsets = Ok (<[entry_name e := None]> pkgsets).
Proof.
  intros Hdef Hskip. unfold entry_step, instantiated, active in *.
  rewrite bool_decide_eq_false_2 by done.
  destruct (skipped_by_flavor flavor e); [done|].
  by destruct (skipped_by_arch arch e).
Qed.

(** What an entry that passes the filters does. *)
Lemma entry_step_active arch flavor e (pkgsets : pkgsets_t) :
  ¬ instantiated (entry_name e) pkgsets → active arch flavor e = true →
  ∃ pkgset pkgsets1,
    pkgsets1 !! entry_name e = Some (Some pkgset)
    ∧ (∀ n, n ≠ entry_name e → pkgsets1 !! n = pkgsets !! n)
    ∧ entry_step arch flavor e pkgsets
      = st ← fold_result (setop_step (entry_name e) e) setops
               (pkgset, pkgsets1); Ok st.2.
Proof.
  intros Hdef Hact. unfold entry_step, instantiated, active in *.
  rewrite bool_decide_eq_false_2 by done.
  destruct (skipped_by_flavor flavor e); [done|].
  destruct (skipped_by_arch arch e); [done|].
  eexists _, _. split; [|split; [|reflexivity]].
  - by rewrite lookup_insert_eq.
  - intros n Hn. by rewrite !lookup_insert_ne.
Qed.

Lemma instantiate_keeps oname n (pkgsets : pkgsets_t) :
  instantiated n pkgsets → instantiated n (instantiate oname pkgsets).
Proof.
  unfold instantiated, instantiate. intros Hn.
  destruct (pkgsets !! oname) as [[other|]|] eqn:Ho; try done.
  destruct (decide (oname = n)) as [->|Hne].
  - rewrite Ho in Hn. by destruct Hn.
  - by rewrite lookup_insert_ne.
Qed.

Lemma operand_step_keeps name setop oname (st st' : PkgSet * pkgsets_t) :
  operand_step name setop oname st = Ok st' →
  instantiated name st'.2
  ∧ ∀ n, instantiated n st.2 → instantiated n st'.2.
Proof.
  destruct st as [pkgset pkgsets]. unfold operand_step.
  destruct (_ || _); [done|].
  destruct (apply_setop _ _ _) as [r| |]; simpl; [|done..].
  intros [= <-]. simpl. split.
  - unfold instantiated. rewrite lookup_insert_eq. simpl. eauto.
  - intros n Hn. unfold instantiated.
    destruct (decide (name = n)) as [->|Hne].
    + rewrite lookup_insert_eq. simpl. eauto.
    + rewrite lookup_insert_ne by done. by apply instantiate_keeps.
Qed.

Lemma operands_keep name setop onames (st st' : PkgSet * pkgsets_t) :
  fold_result (operand_step name setop) onames st = Ok st' →
  ∀ n, instantiated n st.2 → instantiated n st'.2.
Proof.
  revert st. induction onames as [|oname onames IH]; intros st; simpl.
  - by intros [= <-].
  - destruct (operand_step name setop oname st) as [st1| |] eqn:H1;
      simpl; [|done..].
    intros Hrest n Hn. apply (IH st1 Hrest).
    by apply (operand_step_keeps _ _ _ _ _ H1).
Qed.

Lemma setops_keep name e l (st st' : PkgSet * pkgsets_t) :
  fold_result (setop_step name e) l st = Ok st' →
  ∀ n, instantiated n st.2 → instantiated n st'.2.
Proof.
  revert st. induction l as [|setop l IH]; intros st; simpl.
  - by intros [= <-].
  - destruct (setop_step name e setop st) as [st1| |] eqn:H1;
      simpl; [|done..].
    intros Hrest n Hn. apply (IH st1 Hrest).
    unfold setop_step in H1. destruct (e_seq e !! setop) as [onames|].
    + by apply (operands_keep _ _ _ _ _ H1).
    + by injection H1 as <-.
Qed.

(** Set objects stay: a name that has one keeps it through every later
    entry that is accepted, and an entry that passes the filters leaves
    one for its own name. *)
Lemma entry_step_keeps arch flavor e (pkgsets pkgsets' : pkgsets_t) :
  entry_step arch flavor e pkgsets = Ok pkgsets' →
  (active arch flavor e = true → instantiated (entry_name e) pkgsets')
  ∧ ∀ n, instantiated n pkgsets → instantiated n pkgsets'.
Proof.
  intros Hstep.
  destruct (decide (instantiated (entry_name e) pkgsets)) as [Hdef|Hdef].
  { by rewrite entry_step_defined in Hstep. }
  destruct (active arch flavor e) eqn:Hact.
  - destruct (entry_step_active arch flavor e pkgsets Hdef Hact)
      as (pkgset & pkgsets1 & Hname & Hother & Heq).
    rewrite Heq in Hstep.
    destruct (fold_result _ setops _) as [st'| |] eqn:Hfold;
      simpl in Hstep; [|done..].
    injection Hstep as <-.
    assert (∀ n, instantiated n pkgsets1 → instantiated n st'.2) as Hkeep
      by apply (setops_keep _ _ _ _ _ Hfold).
    split.
    + intros _. apply Hkeep. unfold instantiated. rewrite Hname. simpl. eauto.
    + intros n Hn. apply Hkeep. unfold instantiated in *.
      destruct (decide (n = entry_name e)) as [->|Hne]; [done|].
      by rewrite Hother.
  - rewrite entry_step_skipped in Hstep by done. injection Hstep as <-.
    split; [done|]. intros n Hn. unfold instantiated in *.
    destruct (decide (n = entry_name e)) as [->|Hne]; [done|].
    by rewrite lookup_insert_ne.
Qed.

Lemma entries_keep arch flavor l (pkgsets pkgsets' : pkgsets_t) :
  fold_result (entry_step arch flavor) l pkgsets = Ok pkgsets' →
  ∀ n, instantiated n pkgsets → instantiated n pkgsets'.
Proof.
  revert pkgsets. induction l as [|e l IH]; intros pkgsets; simpl.
  - by intros [= <-].
  - destruct (entry_step arch flavor e pkgsets) as [p1| |] eqn:H1;
      simpl; [|done..].
    intros Hrest n Hn. apply (IH p1 Hrest).
    by apply (entry_step_keeps _ _ _ _ _ H1).
Qed.

(** The fatal messages of one entry, and no exception. *)
Lemma entry_step_outcome arch flavor e (pkgsets : pkgsets_t) :
  (∃ pkgsets', entry_step arch flavor e pkgsets = Ok pkgsets')
  ∨ entry_step arch flavor e pkgsets = Die (already_defined (entry_name e))
  ∨ ∃ oname, entry_step arch flavor e pkgsets = Die (does_not_exist oname).
Proof.
  destruct (decide (instantiated (entry_name e) pkgsets)) as [Hdef|Hdef].
  { right. left. by apply entry_step_defined. }
  destruct (active arch flavor e) eqn:Hact.
  - destruct (entry_step_active arch flavor e pkgsets Hdef Hact)
      as (pkgset & pkgsets1 & _ & _ & ->).
    destruct (setops_cases (entry_name e) e setops (pkgset, pkgsets1))
      as [[oname ->]|[st' ->]]; simpl; eauto.
  - left. rewrite entry_step_skipped by done. eauto.
Qed.

Lemma entries_outcome arch flavor l (pkgsets : pkgsets_t) :
  (∃ pkgsets', fold_result (entry_step arch flavor) l pkgsets = Ok pkgsets')
  ∨ ∃ n, fold_result (entry_step arch flavor) l pkgsets
         = Die (already_defined n)
         ∨ fold_result (entry_step arch flavor) l pkgsets
           = Die (does_not_exist n).
Proof.
  revert pkgsets. induction l as [|e l IH]; intros pkgsets; simpl; [eauto|].
  destruct (entry_step_outcome arch flavor e pkgsets)
    as [[p1 ->]|[->|[oname ->]]]; simpl; eauto.
Qed.

End DeclarationFacts.

Section DeclarationTheorems.
Context {PkgSet : Type} `{!PkgSetOps PkgSet}.

Local Abbreviation pkgsets_t := (gmap string (option PkgSet)).

Lemma create_package_set_entries yml arch flavor setname entries :
  y_packagesets yml = Some entries →
  create_package_set (PkgSet := PkgSet) yml arch flavor setname
  = pkgsets ← eval_packagesets arch flavor entries;
    match pkgsets !! setname with
    | None => Die (not_defined setname)
    | Some None => Ok (PkgSet_new setname)
    | Some (Some pkgset) => Ok pkgset
    end.
Proof. intros Hsets. unfold create_package_set. by rewrite Hsets. Qed.

Lemma create_package_set_dies yml arch flavor setname entries msg :
  y_packagesets yml = Some entries →
  eval_packagesets (PkgSet := PkgSet) arch flavor entries = Die msg →
  create_package_set (PkgSet := PkgSet) yml arch flavor setname = Die msg.
Proof.
  intros Hsets Hdie. rewrite (create_package_set_entries _ _ _ _ _ Hsets).
  by rewrite Hdie.
Qed.

(** C5, as the code has it.  In the operations of a packageset entry an
    operand that was not declared by an earlier entry is fatal, and so is
    the set itself as its own operand: an entry that passes the filters
    and names itself under add, sub or intersect always ends the
    evaluation with the fatal message.  What is accepted without a set
    object is a name that an earlier entry declared and the flavor or
    architecture filter left without one: it stands for the empty set. *)
Theorem operand_sets_must_be_declared_before
    (arch : string) (flavor : option string) (e : entry)
    (name setop oname : string) (pkgset : PkgSet) (pkgsets : pkgsets_t) :
  setop ∈ setops →
  (oname = name ∨ pkgsets !! oname = None →
   operand_step name setop oname (pkgset, pkgsets)
   = Die (does_not_exist oname))
  ∧ (oname ≠ name → pkgsets !! oname = Some None →
     ∃ r, apply_setop setop pkgset (PkgSet_new oname) = Ok r
          ∧ operand_step name setop oname (pkgset, pkgsets)
            = Ok (r, <[name := Some r]>
                       (<[oname := Some (PkgSet_new oname)]> pkgsets)))
  ∧ (∀ other, oname ≠ name → pkgsets !! oname = Some (Some other) →
     ∃ r, apply_setop setop pkgset other = Ok r
          ∧ operand_step name setop oname (pkgset, pkgsets)
            = Ok (r, <[name := Some r]> pkgsets))
  ∧ (∀ yml setname l1 l2 (pkgsets0 : pkgsets_t),
       y_packagesets yml = Some (l1 ++ e :: l2) →
       eval_packagesets arch flavor l1 = Ok pkgsets0 →
       ¬ instantiated (entry_name e) pkgsets0 →
       active arch flavor e = true →
       self_referencing e →
       ∃ oname',
         entry_step arch flavor e pkgsets0 = Die (does_not_exist oname')
         ∧ create_package_set (PkgSet := PkgSet) yml arch flavor setname
           = Die (does_not_exist oname')).
Proof.
  intros Hop.
  destruct (operand_step_spec name setop oname pkgset pkgsets Hop)
    as (H1 & H2 & H3).
  split; [exact H1|]. split; [exact H2|]. split; [exact H3|].
  intros yml setname l1 l2 pkgsets0 Hsets Hpre Hdef Hact
    (setop' & onames & Hop' & Hlook & Hself).
  destruct (entry_step_active arch flavor e pkgsets0 Hdef Hact)
    as (pkgset0 & pkgsets1 & _ & _ & Heq).
  destruct (setops_self (entry_name e) e setops (pkgset0, pkgsets1)
              setop' onames) as [oname' Hdie]; try done.
  assert (entry_step arch flavor e pkgsets0 = Die (does_not_exist oname'))
    as Hstep by (by rewrite Heq, Hdie).
  exists oname'. split; [exact Hstep|].
  apply (create_package_set_dies _ _ _ _ _ _ Hsets).
  unfold eval_packagesets in *. rewrite fold_result_app, Hpre. simpl.
  by rewrite Hstep.
Qed.

End DeclarationTheorems.

(** C5 as the spec words it fails on a set that names itself: the entry
    main with [add: [main]] is not taken as an empty placeholder, the
    evaluation dies. *)
Lemma self_reference_is_fatal :
  create_package_set (PkgSet := SpecPkgSet.t)
    (Fixture.product []
       [Fixture.entry_of [("name", "main")]
          [("packages", ["foo"]); ("add", ["main"])]])
    "x86_64" None "main"
  = Die "package set main does not exist".
Proof. vm_compute. reflexivity. Qed.

Section DuplicateNames.
Context {PkgSet : Type} `{!PkgSetOps PkgSet}.

Local Abbreviation pkgsets_t := (gmap string (option PkgSet)).

Lemma entries_no_raise arch flavor l (pkgsets : pkgsets_t) exc :
  fold_result (entry_step arch flavor) l pkgsets ≠ Raise exc.
Proof.
  destruct (entries_outcome arch flavor l pkgsets)
    as [[p ->]|[n [->| ->]]]; done.
Qed.

(** After an entry that passed the filters, a later entry of the same name
    is never reached without the name having a set object. *)
Lemma active_name_stays arch flavor e1 l1 l2 (pkgsets : pkgsets_t) :
  active arch flavor e1 = true →
  fold_result (entry_step arch flavor) (l1 ++ e1 :: l2) ∅ = Ok pkgsets →
  instantiated (entry_name e1) pkgsets.
Proof.
  intros Hact. rewrite fold_result_app.
  destruct (fold_result (entry_step arch flavor) l1 ∅) as [p0| |];
    simpl; [|done..].
  destruct (entry_step arch flavor e1 p0) as [p1| |] eqn:H1;
    simpl; [|done..].
  intros Hrest. apply (entries_keep _ _ _ _ _ Hrest).
  destruct (entry_step_keeps _ _ _ _ _ H1) as [Hown _]. by apply Hown.
Qed.

Lemma instantiate_intro oname n (pkgsets : pkgsets_t) :
  instantiated n (instantiate oname pkgsets) →
  instantiated n pkgsets ∨ n = oname.
Proof.
  unfold instantiated, instantiate.
  destruct (pkgsets !! oname) as [[other|]|] eqn:Ho; auto.
  destruct (decide (n = oname)) as [->|Hne]; [auto|].
  rewrite lookup_insert_ne by done. auto.
Qed.

Lemma instantiate_operand oname (pkgsets : pkgsets_t) :
  pkgsets !! oname ≠ None → instantiated oname (instantiate oname pkgsets).
Proof.
  unfold instantiated, instantiate. intros Hdecl.
  destruct (pkgsets !! oname) as [[other|]|] eqn:Ho; [| |done].
  - rewrite Ho. simpl. eauto.
  - rewrite lookup_insert_eq. simpl. eauto.
Qed.

(** An operation that goes through leaves a set object for its operand,
    and makes one for no name but the operand and the set itself. *)
Lemma operand_step_intro name setop oname (st st' : PkgSet * pkgsets_t) :
  operand_step name setop oname st = Ok st' →
  instantiated oname st'.2
  ∧ ∀ n, instantiated n st'.2 →
         instantiated n st.2 ∨ n = name ∨ n = oname.
Proof.
  destruct st as [pkgset pkgsets]. unfold operand_step.
  destruct (bool_decide (oname = name)) eqn:Hself; [done|].
  destruct (bool_decide (pkgsets !! oname = None)) eqn:Hnone; [done|].
  apply bool_decide_eq_false in Hself, Hnone. simpl.
  destruct (apply_setop _ _ _) as [r| |]; simpl; [|done..].
  intros [= <-]. simpl. split.
  - unfold instantiated. rewrite lookup_insert_ne by done.
    by apply instantiate_operand.
  - intros n. unfold instantiated at 1.
    destruct (decide (name = n)) as [->|Hne]; [auto|].
    rewrite lookup_insert_ne by done.
    intros [Hn| ->]%instantiate_intro; auto.
Qed.

Lemma operands_intro name setop onames (st st' : PkgSet * pkgsets_t) :
  fold_result (operand_step name setop) onames st = Ok st' →
  (∀ o, o ∈ onames → instantiated o st'.2)
  ∧ ∀ n, instantiated n st'.2 →
         instantiated n st.2 ∨ n = name ∨ n ∈ onames.
Proof.
  revert st. induction onames as [|oname onames IH]; intros st; simpl.
  - intros [= <-]. split; [by intros o ?%elem_of_nil|auto].
  - destruct (operand_step name setop oname st) as [st1| |] eqn:H1;
      simpl; [|done..].
    intros Hrest. destruct (IH st1 Hrest) as [Hall Hintro].
    destruct (operand_step_intro _ _ _ _ _ H1) as [Hop Hnew].
    split.
    + intros o [->|Ho]%elem_of_cons; [|by apply Hall].
      by apply (operands_keep _ _ _ _ _ Hrest).
    + intros n [Hn|[->|Hn]]%Hintro.
      * destruct (Hnew n Hn) as [?|[->| ->]]; auto.
        right. right. apply list_elem_of_here.
      * auto.
      * right. right. by apply list_elem_of_further.
Qed.

Lemma setops_intro name e l (st st' : PkgSet * pkgsets_t) :
  fold_result (setop_step name e) l st = Ok st' →
  (∀ setop onames o,
     setop ∈ l → e_seq e !! setop = Some onames → o ∈ onames →
     instantiated o st'.2)
  ∧ ∀ n, instantiated n st'.2 →
         instantiated n st.2 ∨ n = name
         ∨ ∃ setop onames,
             setop ∈ l ∧ e_seq e !! setop = Some onames ∧ n ∈ onames.
Proof.
  revert st. induction l as [|setop l IH]; intros st; simpl.
  - intros [= <-]. split; [by intros ? ? ? ?%elem_of_nil|auto].
  - destruct (setop_step name e setop st) as [st1| |] eqn:H1;
      simpl; [|done..].
    intros Hrest. destruct (IH st1 Hrest) as [Hall Hintro].
    unfold setop_step in H1. split.
    + intros setop' onames o [->|Hin]%elem_of_cons Hlook Ho;
        [|by eapply Hall].
      rewrite Hlook in H1.
      apply (setops_keep _ _ _ _ _ Hrest).
      by apply (operands_intro _ _ _ _ _ H1).
    + intros n [Hn|[->|(setop' & onames & Hin & Hlook & Hn)]]%Hintro.
      * destruct (e_seq e !! setop) as [onames|] eqn:Hlook.
        -- destruct (operands_intro _ _ _ _ _ H1) as [_ Hnew].
           destruct (Hnew n Hn) as [?|[->|Ho]]; auto.
           right. right. exists setop, onames.
           split; [apply list_elem_of_here|done].
        -- injection H1 as <-. auto.
      * auto.
      * right. right. exists setop', onames.
        split; [by apply list_elem_of_further|done].
Qed.

(** The names that have a set object after an entry: those that had one,
    and those the entry makes one for. *)
Lemma entry_step_sets arch flavor e (pkgsets pkgsets' : pkgsets_t) n :
  entry_step arch flavor e pkgsets = Ok pkgsets' →
  instantiated n pkgsets'
  ↔ instantiated n pkgsets ∨ makes_set_object arch flavor n e.
Proof.
  intros Hstep.
  destruct (decide (instantiated (entry_name e) pkgsets)) as [Hdef|Hdef].
  { by rewrite entry_step_defined in Hstep. }
  destruct (active arch flavor e) eqn:Hact.
  - destruct (entry_step_active arch flavor e pkgsets Hdef Hact)
      as (pkgset & pkgsets1 & Hname & Hother & Heq).
    pose proof Hstep as Hkeeps. apply entry_step_keeps in Hkeeps.
    rewrite Heq in Hstep.
    destruct (fold_result _ setops _) as [st'| |] eqn:Hfold;
      simpl in Hstep; [|done..].
    injection Hstep as <-.
    destruct (setops_intro _ _ _ _ _ Hfold) as [Hall Hintro].
    split.
    + intros [Hn|[->|(setop & onames & Hin & Hlook & Hn)]]%Hintro.
      * destruct (decide (n = entry_name e)) as [->|Hne].
        -- right. split; [done|by left].
        -- left. unfold instantiated in *. by rewrite <-Hother.
      * right. split; [done|by left].
      * right. split; [done|]. right. by exists setop, onames.
    + intros [Hn|[_ [<-|(setop & onames & Hin & Hlook & Hn)]]].
      * by apply (proj2 Hkeeps).
      * by apply (proj1 Hkeeps).
      * by eapply Hall.
  - rewrite entry_step_skipped in Hstep by done. injection Hstep as <-.
    split.
    + intros Hn. left. unfold instantiated in *.
      destruct (decide (n = entry_name e)) as [->|Hne].
      * rewrite lookup_insert_eq in Hn. by destruct Hn.
      * by rewrite lookup_insert_ne in Hn.
    + intros [Hn|[Hcontra _]]; [|unfold makes_set_object in *; congruence].
      unfold instantiated in *.
      destruct (decide (n = entry_name e)) as [->|Hne]; [done|].
      by rewrite lookup_insert_ne.
Qed.

Lemma entries_sets arch flavor l (pkgsets pkgsets' : pkgsets_t) n :
  fold_result (entry_step arch flavor) l pkgsets = Ok pkgsets' →
  instantiated n pkgsets'
  ↔ instantiated n pkgsets
    ∨ ∃ e, e ∈ l ∧ makes_set_object arch flavor n e.
Proof.
  revert pkgsets. induction l as [|e l IH]; intros pkgsets; simpl.
  - intros [= <-]. split; [auto|].
    by intros [?|(e & ?%elem_of_nil & _)].
  - destruct (entry_step arch flavor e pkgsets) as [p1| |] eqn:H1;
      simpl; [|done..].
    intros Hrest. rewrite (IH p1 Hrest), (entry_step_sets _ _ _ _ _ n H1).
    split.
    + intros [[Hn|Hmakes]|(e' & Hin & Hmakes)]; [auto| |].
      * right. exists e. split; [apply list_elem_of_here|done].
      * right. exists e'. split; [by apply list_elem_of_further|done].
    + intros [Hn|(e' & [->|Hin]%elem_of_cons & Hmakes)]; [auto|auto|].
      right. by exists e'.
Qed.

Lemma entries_sets_from_empty arch flavor l (pkgsets : pkgsets_t) n :
  eval_packagesets arch flavor l = Ok pkgsets →
  instantiated n pkgsets ↔ ∃ e, e ∈ l ∧ makes_set_object arch flavor n e.
Proof.
  unfold eval_packagesets. intros Heval.
  rewrite (entries_sets _ _ _ _ _ n Heval). split; [|auto].
  intros [Hn|?]; [|done]. unfold instantiated in Hn.
  rewrite lookup_empty in Hn. by destruct Hn.
Qed.

(** The message of a duplicate is not the message of a missing operand. *)
Lemma does_not_exist_ne oname name :
  does_not_exist oname ≠ already_defined name.
Proof.
  unfold does_not_exist, already_defined. intros Heq.
  apply (f_equal String.rev) in Heq.
  rewrite !rev_app_distr in Heq. by vm_compute in Heq.
Qed.

(** C8, as the code has it.  A packageset entry is refused as a
    duplicate, "is already defined", exactly when its name has a set
    object by then (the implicit name main included), and a name has one
    exactly when an earlier entry that passed the flavor and architecture
    filters is of that name, or took the name as an operand of add, sub or
    intersect, which turns a name that was only declared into an empty set.
    After such an entry the evaluation of the declarations always dies, at
    the duplicate at the latest and with its message when it gets there,
    and the entries after it play no part.  An entry of a name that no
    earlier entry has left a set object for is never refused as a
    duplicate: it is evaluated as if the name had not been declared, and
    when it passes the filters and goes through it defines the set. *)
Theorem duplicate_name_with_a_set_object_is_fatal
    (arch : string) (flavor : option string) (e2 : entry)
    (l l3 : list entry) (yml : Yml) (setname : string) :
  y_packagesets yml = Some (l ++ e2 :: l3) →
  ((∃ e1, e1 ∈ l ∧ makes_set_object arch flavor (entry_name e2) e1) →
   ∃ msg,
     create_package_set (PkgSet := PkgSet) yml arch flavor setname = Die msg
     ∧ eval_packagesets (PkgSet := PkgSet) arch flavor (l ++ [e2]) = Die msg
     ∧ (∀ pkgsets : pkgsets_t,
          eval_packagesets arch flavor l = Ok pkgsets →
          msg = already_defined (entry_name e2)))
  ∧ (∀ pkgsets : pkgsets_t,
       eval_packagesets arch flavor l = Ok pkgsets →
       (instantiated (entry_name e2) pkgsets
        ↔ ∃ e1, e1 ∈ l ∧ makes_set_object arch flavor (entry_name e2) e1)
       ∧ (entry_step arch flavor e2 pkgsets
          = Die (already_defined (entry_name e2))
          ↔ ∃ e1, e1 ∈ l
                  ∧ makes_set_object arch flavor (entry_name e2) e1))
  ∧ ((∀ e1, e1 ∈ l →
        ¬ makes_set_object arch flavor (entry_name e2) e1) →
     ∀ pkgsets : pkgsets_t,
       eval_packagesets arch flavor l = Ok pkgsets →
       entry_step arch flavor e2 pkgsets
       = entry_step arch flavor e2 (delete (entry_name e2) pkgsets)
       ∧ (∀ pkgsets' : pkgsets_t,
            active arch flavor e2 = true →
            entry_step arch flavor e2 pkgsets = Ok pkgsets' →
            instantiated (entry_name e2) pkgsets')).
Proof.
  intros Hsets.
  assert (∀ pkgsets : pkgsets_t,
            eval_packagesets arch flavor l = Ok pkgsets →
            entry_step arch flavor e2 pkgsets
            = Die (already_defined (entry_name e2))
            ↔ instantiated (entry_name e2) pkgsets) as Hdup.
  { intros pkgsets _. split; [|apply entry_step_defined].
    intros Hdie.
    destruct (decide (instantiated (entry_name e2) pkgsets)) as [|Hnot];
      [done|].
    destruct (active arch flavor e2) eqn:Hact.
    - destruct (entry_step_active arch flavor e2 pkgsets Hnot Hact)
        as (pkgset & pkgsets1 & _ & _ & Heq).
      rewrite Heq in Hdie.
      destruct (setops_cases (entry_name e2) e2 setops (pkgset, pkgsets1))
        as [[oname Hop]|[st' Hop]]; [done| |]; rewrite Hop in Hdie;
        simpl in Hdie; [|done].
      exfalso. apply (does_not_exist_ne oname (entry_name e2)).
      congruence.
    - by rewrite entry_step_skipped in Hdie. }
  split; [|split].
  - intros Hmakes.
    assert (∀ l', fold_result (entry_step (PkgSet := PkgSet) arch flavor)
                    (l ++ e2 :: l') ∅
                  = fold_result (entry_step arch flavor) l ∅
                    ≫= fold_result (entry_step arch flavor) (e2 :: l'))
      as Hcut by (intros l'; apply fold_result_app).
    destruct (fold_result (entry_step (PkgSet := PkgSet) arch flavor) l ∅)
      as [p|msg|exc] eqn:Hpre.
    + assert (instantiated (entry_name e2) p) as Hdef
        by (by apply (entries_sets_from_empty arch flavor l)).
      exists (already_defined (entry_name e2)). split; [|split; [|done]].
      * apply (create_package_set_dies _ _ _ _ _ _ Hsets).
        unfold eval_packagesets. rewrite Hcut. simpl.
        by rewrite entry_step_defined.
      * unfold eval_packagesets. rewrite Hcut. simpl.
        by rewrite entry_step_defined.
    + exists msg. split; [|split].
      * apply (create_package_set_dies _ _ _ _ _ _ Hsets).
        unfold eval_packagesets. by rewrite Hcut.
      * unfold eval_packagesets. by rewrite Hcut.
      * unfold eval_packagesets. intros pkgsets. by rewrite Hpre.
    + by apply entries_no_raise in Hpre.
  - intros pkgsets Heval.
    pose proof (entries_sets_from_empty arch flavor l pkgsets
                  (entry_name e2) Heval) as Hiff.
    split; [exact Hiff|]. by rewrite (Hdup pkgsets Heval).
  - intros Hnone pkgsets Heval.
    assert (¬ instantiated (entry_name e2) pkgsets) as Hnot.
    { rewrite (entries_sets_from_empty arch flavor l pkgsets _ Heval).
      intros (e1 & Hin & Hmakes). by apply (Hnone e1). }
    split.
    + unfold entry_step, instantiated in *.
      rewrite lookup_delete_eq. simpl.
      rewrite !bool_decide_eq_false_2 by (done || by intros [? ?]).
      by rewrite !insert_delete_eq.
    + intros pkgsets' Hact Hstep.
      by apply (proj1 (entry_step_keeps _ _ _ _ _ Hstep)).
Qed.

End DuplicateNames.

(** C8 as the spec words it fails on two entries of one name of which the
    first is filtered out: for x86_64 the first entry main, declared for
    aarch64 only, leaves no set object, and the second entry main is
    accepted and gives the set. *)
Lemma duplicate_name_after_filtered_entry_is_accepted :
  create_package_set (PkgSet := SpecPkgSet.t)
    (Fixture.product []
       [Fixture.entry_of [("name", "main")]
          [("architectures", ["aarch64"]); ("packages", ["bar"])];
        Fixture.entry_of [("name", "main")] [("packages", ["foo"])]])
    "x86_64" None "main"
  = Ok (SpecPkgSet.mk "main" None
          [mkSelector "foo" VNone VNone VNone VNone None]).
Proof. vm_compute. reflexivity. Qed.

Ltac in_list :=
  repeat first [apply list_elem_of_here | apply list_elem_of_further].

Section UnknownOperations.
Context {PkgSet : Type} `{!PkgSetOps PkgSet}.

Local Abbreviation pkgsets_t := (gmap string (option PkgSet)).

(** A key that is not read leaves the evaluation of its entry as it is. *)
Lemma entry_step_with_key arch flavor e k v (pkgsets : pkgsets_t) :
  k ∉ seq_keys →
  entry_step arch flavor (with_key k v e) pkgsets
  = entry_step arch flavor e pkgsets.
Proof.
  intros Hk.
  assert (∀ k', k' ∈ seq_keys →
            e_seq (with_key k v e) !! k' = e_seq e !! k') as Hsame.
  { intros k' Hk'. simpl. apply lookup_insert_ne. by intros ->. }
  unfold entry_step, entry_name, skipped_by_flavor, skipped_by_arch.
  rewrite !Hsame by in_list.
  change (e_str (with_key k v e)) with (e_str e).
  destruct (bool_decide _); [done|].
  destruct (match e_seq e !! "flavors" with Some _ => _ | None => _ end);
    [done|].
  destruct (match e_seq e !! "architectures" with
            | Some _ => _ | None => _ end); [done|].
  f_equal. apply fold_result_ext. intros setop st Hin.
  unfold setop_step. rewrite Hsame; [done|].
  revert Hin. unfold seq_keys. rewrite !elem_of_cons, !elem_of_nil. tauto.
Qed.

Lemma compat_no_die arch flavor l (s : PkgSet) msg :
  fold_result (compat_step arch flavor) l s ≠ Die msg.
Proof.
  revert s. induction l as [|ce l IH]; intros s; simpl; [done|].
  assert (compat_step arch flavor ce s ≠ Die msg) as Hstep.
  { unfold compat_step. destruct ce as [e|spec]; [|done].
    destruct (skipped_by_flavor flavor e); [done|].
    destruct (skipped_by_arch arch e); [done|].
    by destruct (e_seq e !! "packages"). }
  destruct (compat_step arch flavor ce s) as [s'| |]; simpl; [apply IH|done..].
Qed.

Lemma compat_messages arch flavor setname (old : option (list compat_entry))
    (d : option PkgSet) msg :
  match old with
  | Some entries =>
      pkgset ← fold_result (compat_step arch flavor) entries
                 (PkgSet_new setname); Ok (Some pkgset)
  | None => Ok d
  end ≫= (λ pkgset : option PkgSet,
            match pkgset with
            | Some pkgset => Ok pkgset
            | None => Die (not_defined setname)
            end) = Die msg →
  msg = not_defined setname.
Proof.
  destruct old as [l|]; simpl.
  - pose proof (compat_no_die arch flavor l (PkgSet_new setname)) as Hno.
    destruct (fold_result _ l _) as [s|m|exc]; simpl; try done.
    by destruct (Hno m).
  - destruct d; simpl; [done|]. by intros [= <-].
Qed.

(** The fatal messages of [create_package_set] are its three messages
    about package sets. *)
Lemma create_package_set_messages yml arch flavor setname msg :
  create_package_set (PkgSet := PkgSet) yml arch flavor setname = Die msg →
  ∃ n, msg = does_not_exist n ∨ msg = already_defined n ∨ msg = not_defined n.
Proof.
  unfold create_package_set.
  destruct (y_packagesets yml) as [entries|].
  - unfold eval_packagesets.
    destruct (entries_outcome (PkgSet := PkgSet) arch flavor entries ∅)
      as [[p ->]|[n [->| ->]]]; simpl.
    + destruct (p !! setname) as [[?|]|]; [done..|]. intros [= <-]. eauto.
    + intros [= <-]. eauto.
    + intros [= <-]. eauto.
  - unfold create_package_set_compat.
    destruct (bool_decide (setname = "main"));
      [|destruct (bool_decide (setname = "unpack"))].
    + intros ->%compat_messages. eauto.
    + intros ->%compat_messages. eauto.
    + simpl. intros [= <-]. eauto.
Qed.

(** C6, as the code has it.  The operations of an entry are the keys add,
    sub and intersect and nothing else is looked at: a key outside the
    ones the code reads changes nothing, whatever its name and value, in
    the entry and in the result of [create_package_set]; and the branch
    that rejects an unsupported operation is never taken, no call of
    [create_package_set] dies with its message. *)
Theorem other_operation_names_are_ignored
    (arch : string) (flavor : option string) (e : entry)
    (k : string) (v : list string) (pkgsets : pkgsets_t)
    (yml : Yml) (l1 l2 : list entry) (setname setop : string) :
  k ∉ seq_keys →
  entry_step arch flavor (with_key k v e) pkgsets
  = entry_step arch flavor e pkgsets
  ∧ create_package_set (PkgSet := PkgSet)
      (with_packagesets (l1 ++ with_key k v e :: l2) yml) arch flavor setname
    = create_package_set (with_packagesets (l1 ++ e :: l2) yml)
        arch flavor setname
  ∧ create_package_set (PkgSet := PkgSet) yml arch flavor setname
    ≠ Die (unsupported setop).
Proof.
  intros Hk. split; [by apply entry_step_with_key|]. split.
  - assert (eval_packagesets (PkgSet := PkgSet) arch flavor
              (l1 ++ with_key k v e :: l2)
            = eval_packagesets arch flavor (l1 ++ e :: l2)) as Heval.
    { unfold eval_packagesets. rewrite !fold_result_app.
      destruct (fold_result _ l1 ∅); simpl; [|done..].
      by rewrite entry_step_with_key. }
    unfold create_package_set. simpl. by rewrite Heval.
  - intros Hdie.
    destruct (create_package_set_messages _ _ _ _ _ Hdie) as [n Hmsg].
    assert (String.get 0 (unsupported setop)
            = Some "u"%char) as Hu by reflexivity.
    destruct Hmsg as [Hm|[Hm|Hm]]; rewrite Hm in Hu; by vm_compute in Hu.
Qed.

End UnknownOperations.

(** C6 as the spec words it fails on an entry with an operation of another
    name: the key union is not rejected, the set is what the entry gives
    without it. *)
Lemma unknown_operation_is_not_rejected :
  create_package_set (PkgSet := SpecPkgSet.t)
    (Fixture.product []
       [Fixture.entry_of [("name", "other")] [("packages", ["bar"])];
        Fixture.entry_of [("name", "main")]
          [("packages", ["foo"]); ("union", ["other"])]])
    "x86_64" None "main"
  = Ok (SpecPkgSet.mk "main" None
          [mkSelector "foo" VNone VNone VNone VNone None]).
Proof. vm_compute. reflexivity. Qed.

(** ** The report of a sub-tree (C9) *)

Global Instance path_le_total : Total path_le.
Proof. intros x y. unfold path_le. apply (total String.le). Qed.

Global Instance path_le_trans : Transitive path_le.
Proof. intros x y z. unfold path_le. apply (transitivity (R := String.le)). Qed.

Lemma StronglySorted_filter {A} (R : relation A) (P : A → Prop)
    `{!∀ x, Decision (P x)} (l : list A) :
  StronglySorted R l → StronglySorted R (filter P l).
Proof.
  induction 1 as [|x l _ IH Hall]; [constructor|].
  rewrite filter_cons. destruct (decide (P x)); [|done].
  constructor; [done|].
  apply Forall_forall. intros y [_ Hy]%list_elem_of_filter.
  by eapply Forall_forall in Hall.
Qed.

Lemma sorted_items_perm (report : gmap string Package) :
  sorted_items report ≡ₚ map_to_list report.
Proof. apply merge_sort_Permutation. Qed.

Lemma elem_of_sorted_items (report : gmap string Package) fn e :
  (fn, e) ∈ sorted_items report ↔ report !! fn = Some e.
Proof. by rewrite sorted_items_perm, elem_of_map_to_list. Qed.

Lemma sorted_items_sorted (report : gmap string Package) :
  StronglySorted path_le (sorted_items report).
Proof. apply (StronglySorted_merge_sort path_le). Qed.

Lemma tag_attrib_spec entry tag :
  getattr entry tag ≠ VNone → getattr entry tag ≠ VStr "" →
  ¬ (tag = "epoch" ∧ getattr entry tag = VInt 0) →
  tag_attrib entry tag
  = Some (if bool_decide (tag = "arch") then "binaryarch" else tag,
          py_str (getattr entry tag)).
Proof.
  intros Hnone Hempty Hepoch. unfold tag_attrib.
  rewrite !bool_decide_eq_false_2 by done. simpl.
  destruct (bool_decide (tag = "epoch")) eqn:He; simpl.
  - apply bool_decide_eq_true in He.
    rewrite bool_decide_eq_false_2 by (intros ?; by apply Hepoch).
    subst. by rewrite bool_decide_eq_false_2.
  - by destruct (bool_decide (tag = "arch")).
Qed.

Lemma prefix_spec (p s : string) :
  String.prefix p s = true ↔ ∃ rest, s = p +:+ rest.
Proof.
  split; [|intros [rest ->]; apply prefix_app].
  revert s. induction p as [|a p IH]; intros s.
  - intros _. by exists s.
  - destruct s as [|b s]; [done|]. rewrite prefix_cons_cons.
    destruct (ascii_dec a b) as [->|]; [|done].
    intros [rest ->]%IH. by exists rest.
Qed.

Lemma endswith_slash_spec (s : string) :
  PyStr.endswith "/" s = true ↔ ∃ d, s = d +:+ "/".
Proof.
  unfold PyStr.endswith. change (String.rev "/") with "/".
  rewrite prefix_spec. split.
  - intros [rest Hrev]. exists (String.rev rest).
    rewrite <-(rev_involutive s), Hrev.
    by rewrite (rev_app_distr "/" rest).
  - intros [d ->]. exists (String.rev d). by rewrite rev_app_distr.
Qed.

Lemma string_app_inv_head (s t u : string) : s +:+ t = s +:+ u → t = u.
Proof.
  induction s as [|a s IH]; [done|].
  rewrite !string_app_cons. intros [= Heq]. by apply IH.
Qed.

(** The attributes of an element are those of the tags that have a value,
    and the product identifier. *)
Lemma binary_attrib_inv e k v :
  (k, v) ∈ b_attrib (binary_of e) →
  k = "cpeid"
  ∨ ∃ tag,
      tag ∈ report_tags
      ∧ k = (if bool_decide (tag = "arch") then "binaryarch" else tag)
      ∧ v = py_str (getattr e tag)
      ∧ getattr e tag ≠ VNone ∧ getattr e tag ≠ VStr ""
      ∧ ¬ (tag = "epoch" ∧ getattr e tag = VInt 0).
Proof.
  unfold binary_of. change (b_attrib (mkBinary ?t ?a)) with a.
  rewrite elem_of_app, list_elem_of_omap.
  intros [(tag & Htag & Hattr)|Hcpe].
  - right. exists tag. split; [done|]. unfold tag_attrib in Hattr.
    destruct (bool_decide (getattr e tag = VNone)) eqn:Hnone; [done|].
    destruct (bool_decide (getattr e tag = VStr "")) eqn:Hempty; [done|].
    apply bool_decide_eq_false in Hnone, Hempty. simpl in Hattr.
    destruct (bool_decide (tag = "epoch")
              && bool_decide (getattr e tag = VInt 0)) eqn:Hepoch; [done|].
    assert (¬ (tag = "epoch" ∧ getattr e tag = VInt 0)) as Hnot.
    { intros [H1 H2]. by rewrite !bool_decide_eq_true_2 in Hepoch. }
    destruct (bool_decide (tag = "arch")); by injection Hattr as <- <-.
  - left. destruct (PyStr.endswith "-release" (pkg_name e));
      [|by apply elem_of_nil in Hcpe].
    destruct (pkg_product_cpeid e) as [cpeid|];
      [|by apply elem_of_nil in Hcpe].
    destruct (bool_decide (cpeid = "")); [by apply elem_of_nil in Hcpe|].
    apply list_elem_of_singleton in Hcpe. by injection Hcpe as -> _.
Qed.

(** C9.  The report written for a sub-tree is made from the manifest
    entries whose output path is the directory of the sub-tree, a slash
    (unless the directory ends in one) and a rest, and from no other: an
    entry registered in a split source or debug tree beside the directory
    is not in it.  The entries come in the order of their output paths,
    which are distinct, and each gives one [binary] element at its place:
    the element carries the origin of the package as [obs://] text and,
    for each of name, epoch, version, release, arch, buildtime, disturl and
    license that the package has, the value as an attribute, the
    architecture under [binaryarch]; an empty value and the epoch 0 give
    no attribute, and the only other attribute is [cpeid]. *)
Theorem report_is_the_sorted_subtree (directory : string) (w : World) :
  ∃ items : list (string * Package),
    ((∀ d, directory ≠ d +:+ "/") →
     (∀ fn e,
        (fn, e) ∈ items
        ↔ tree_report w !! fn = Some e
          ∧ ∃ rest, fn = directory +:+ "/" +:+ rest)
     ∧ (∀ e rest,
          ((directory +:+ "-Source/" +:+ rest, e) ∉ items)
          ∧ ((directory +:+ "-Debug/" +:+ rest, e) ∉ items)))
    ∧ ((∃ d, directory = d +:+ "/") →
       ∀ fn e,
         (fn, e) ∈ items
         ↔ tree_report w !! fn = Some e ∧ ∃ rest, fn = directory +:+ rest)
    ∧ StronglySorted String.le (items.*1)
    ∧ NoDup (items.*1)
    ∧ List.length (write_report_file directory w) = List.length items
    ∧ (∀ i fn e,
         items !! i = Some (fn, e) →
         ∃ b,
           write_report_file directory w !! i = Some b
           ∧ b_text b = "obs://" +:+ pkg_origin e
           ∧ (∀ tag,
                tag ∈ report_tags →
                getattr e tag ≠ VNone → getattr e tag ≠ VStr "" →
                ¬ (tag = "epoch" ∧ getattr e tag = VInt 0) →
                (if bool_decide (tag = "arch") then "binaryarch" else tag,
                 py_str (getattr e tag)) ∈ b_attrib b)
           ∧ (∀ k v,
                (k, v) ∈ b_attrib b →
                k = "cpeid"
                ∨ ∃ tag,
                    tag ∈ report_tags
                    ∧ k = (if bool_decide (tag = "arch")
                           then "binaryarch" else tag)
                    ∧ v = py_str (getattr e tag)
                    ∧ getattr e tag ≠ VNone ∧ getattr e tag ≠ VStr ""
                    ∧ ¬ (tag = "epoch" ∧ getattr e tag = VInt 0))).
Proof.
  exists (report_entries directory w).
  assert (∀ fn e,
            (fn, e) ∈ report_entries directory w
            ↔ tree_report w !! fn = Some e
              ∧ ∃ rest, fn = with_slash directory +:+ rest) as Hmem.
  { intros fn e. unfold report_entries.
    rewrite list_elem_of_filter, elem_of_sorted_items. simpl.
    unfold PyStr.startswith. rewrite prefix_spec. tauto. }
  split; [|split; [|split; [|split; [|split]]]].
  - intros Hnoslash.
    assert (with_slash directory = directory +:+ "/") as Hslash.
    { unfold with_slash.
      destruct (PyStr.endswith "/" directory) eqn:Hends; [|done].
      apply endswith_slash_spec in Hends as [d ->]. by destruct (Hnoslash d). }
    split.
    + intros fn e. rewrite Hmem, Hslash.
      by setoid_rewrite string_app_assoc.
    + intros e rest. split.
      * rewrite Hmem, Hslash. intros [_ [rest' Heq]].
        rewrite string_app_assoc in Heq.
        by apply string_app_inv_head in Heq.
      * rewrite Hmem, Hslash. intros [_ [rest' Heq]].
        rewrite string_app_assoc in Heq.
        by apply string_app_inv_head in Heq.
  - intros Hends%endswith_slash_spec fn e. rewrite Hmem.
    unfold with_slash. by rewrite Hends.
  - apply (StronglySorted_fmap _ path_le); [by intros x y|].
    apply StronglySorted_filter, sorted_items_sorted.
  - unfold report_entries.
    eapply sublist_NoDup; [|apply fmap_sublist, sublist_filter].
    rewrite sorted_items_perm. apply NoDup_fst_map_to_list.
  - unfold write_report_file. apply length_fmap.
  - intros i fn e Hi. exists (binary_of e).
    split; [unfold write_report_file; by rewrite list_lookup_fmap, Hi|].
    split; [done|]. split.
    + intros tag Htag Hnone Hempty Hepoch. unfold binary_of.
      change (b_attrib (mkBinary ?t ?a)) with a.
      apply elem_of_app. left. apply list_elem_of_omap.
      exists tag. split; [done|]. by apply tag_attrib_spec.
    + intros k v. apply binary_attrib_inv.
Qed.

(** ** The shared list of architectures (C10) *)

Lemma remove_absent x (l : list string) : x ∉ l → PyStr.remove x l = l.
Proof.
  induction l as [|y l IH]; [done|]. rewrite not_elem_of_cons.
  intros [Hne Hl]. simpl. rewrite bool_decide_eq_false_2 by done.
  by rewrite IH.
Qed.

(** Once the first occurrence is gone, a value that occurred once is gone. *)
Lemma remove_nodup x (l : list string) : NoDup l → x ∉ PyStr.remove x l.
Proof.
  induction 1 as [|y l Hy _ IH]; simpl; [apply not_elem_of_nil|].
  case_bool_decide as Hxy; [by subst|].
  rewrite not_elem_of_cons. split; [done|]. done.
Qed.

Lemma deref_set_heap l archs w :
  deref l (set_heap <[l := archs]> w) = archs.
Proof. unfold deref. simpl. by rewrite lookup_insert_eq. Qed.

Lemma deref_heap l w w' : heap w' = heap w → deref l w' = deref l w.
Proof. unfold deref. by intros ->. Qed.

(** The architectures after the test for local: the first occurrence is
    taken out of the list object itself. *)
Lemma visible_archs_removed l archs w :
  deref l w = archs →
  deref l (if PyStr.mem "local" archs
           then set_heap <[l := PyStr.remove "local" archs]> w
           else w)
  = PyStr.remove "local" archs.
Proof.
  intros Harchs. unfold PyStr.mem. case_bool_decide as Hin.
  - apply deref_set_heap.
  - by rewrite remove_absent.
Qed.

Lemma get_product_dir_heap yml flavor release w :
  deref (y_architectures yml) (get_product_dir yml flavor release w).2
  = PyStr.remove "local" (deref (y_architectures yml) w).
Proof.
  unfold get_product_dir, mbind, M_bind. cbv zeta.
  destruct (deref (y_architectures yml) w) as [|a archs] eqn:Harchs.
  - destruct (PyStr.has_char _ _); simpl; by rewrite ?Harchs.
  - pose proof (visible_archs_removed _ _ _ Harchs) as Hw.
    destruct (PyStr.has_char _ _); unfold die, print, deref in *;
      simpl in *; exact Hw.
Qed.

Lemma get_product_dir_name yml flavor release w :
  (get_product_dir yml flavor release w).1
  = match deref (y_architectures yml) w with
    | [] =>
        if PyStr.has_char "/" (name_suffix release (name_prefix yml flavor))
        then Exit 1
        else Normal (name_suffix release (name_prefix yml flavor))
    | _ =>
        if PyStr.has_char "/"
             (name_suffix release
                (name_prefix yml flavor +:+ "-"
                   +:+ PyStr.join "-"
                         (PyStr.remove "local"
                            (deref (y_architectures yml) w))))
        then Exit 1
        else Normal
               (name_suffix release
                  (name_prefix yml flavor +:+ "-"
                     +:+ PyStr.join "-"
                           (PyStr.remove "local"
                              (deref (y_architectures yml) w))))
    end.
Proof.
  unfold get_product_dir, mbind, M_bind. cbv zeta.
  destruct (deref (y_architectures yml) w) as [|a archs] eqn:Harchs.
  - by destruct (PyStr.has_char _ _).
  - rewrite (visible_archs_removed _ _ _ Harchs).
    by destruct (PyStr.has_char _ _).
Qed.

Section TreeFacts.
Context (ext : Externals).
Context (unpack_one_meta_rpm : string → Package → Z → M unit).
Context {PkgSet : Type} `{!PkgSetOps PkgSet}.

Lemma link_rpms_to_tree_extends rpmdir yml arch flavor debugdir sourcedir w :
  extends w
    (link_rpms_to_tree ext rpmdir yml arch flavor debugdir sourcedir w).2.
Proof.
  unfold link_rpms_to_tree, mbind, M_bind.
  destruct (create_package_set yml arch flavor "main") as [s|msg|exc]; simpl.
  - set (st := foldl _ (false, w) (pkgset_iter s)).
    assert (extends w st.2) as Hst
      by apply (link_selectors_extends ext rpmdir arch debugdir sourcedir
                  _ _ (pkgset_iter s) (false, w)).
    destruct (st.1 && negb _); simpl; [|done].
    etrans; [exact Hst|]. apply extends_print.
  - case_bool_decide; [reflexivity|apply extends_print].
  - reflexivity.
Qed.

Lemma link_all_extends rpmdir yml flavor debugdir sourcedir archs w :
  extends w
    (for_each (λ arch _, link_rpms_to_tree ext rpmdir yml arch flavor
                           debugdir sourcedir) archs tt w).2.
Proof.
  revert w. induction archs as [|arch archs IH]; intros w; simpl.
  - reflexivity.
  - unfold mbind, M_bind.
    pose proof (link_rpms_to_tree_extends rpmdir yml arch flavor debugdir
                  sourcedir w) as Hone.
    destruct (link_rpms_to_tree ext rpmdir yml arch flavor debugdir
                sourcedir w) as [[[]| |] w1]; simpl in *; [|done..].
    etrans; [exact Hone|]. apply IH.
Qed.

Lemma subtree_dir_heap option_name opt maindir splitdir w :
  heap (subtree_dir option_name opt maindir splitdir w).2 = heap w.
Proof.
  unfold subtree_dir. destruct opt as [o|]; [|done].
  repeat case_bool_decide; try done.
  unfold mbind, M_bind, mkdir. by destruct (path_exists splitdir w).
Qed.

(** The two loops of [create_tree] run over the list the document holds
    when [create_tree] is entered. *)
Lemma create_tree_reads_shared_list outdir product_base_dir yml flavor w :
  create_tree ext unpack_one_meta_rpm outdir product_base_dir yml flavor w
  = create_tree_over ext unpack_one_meta_rpm
      (deref (y_architectures yml) w) outdir product_base_dir yml flavor w.
Proof.
  unfold create_tree, create_tree_over, mbind, M_bind, modify, get.
  set (w1 := if path_exists outdir w then w else _).
  set (w2 := if path_exists _ w1 then w1 else _).
  assert (heap w2 = heap w) as H2.
  { subst w2 w1.
    destruct (path_exists outdir w);
      destruct (path_exists _ _); done. }
  pose proof (subtree_dir_heap "source" (y_source yml)
                (outdir +:+ "/" +:+ product_base_dir)
                (outdir +:+ "/" +:+ product_base_dir +:+ "-Source") w2) as H3.
  destruct (subtree_dir "source" _ _ _ w2) as [[sourcedir| |] w3];
    simpl in H3; [|done..].
  pose proof (subtree_dir_heap "debug" (y_debug yml)
                (outdir +:+ "/" +:+ product_base_dir)
                (outdir +:+ "/" +:+ product_base_dir +:+ "-Debug") w3) as H4.
  destruct (subtree_dir "debug" _ _ _ w3) as [[debugdir| |] w4];
    simpl in H4; [|done..].
  assert (deref (y_architectures yml) w4 = deref (y_architectures yml) w)
    as -> by (apply deref_heap; congruence).
  pose proof (link_all_extends (outdir +:+ "/" +:+ product_base_dir) yml
                flavor debugdir sourcedir (deref (y_architectures yml) w) w4)
    as H5.
  destruct (for_each _ (deref (y_architectures yml) w) tt w4)
    as [[[]| |] w5]; simpl in H5; [|done..].
  assert (deref (y_architectures yml) w5 = deref (y_architectures yml) w)
    as -> by (apply deref_heap; rewrite (ext_heap _ _ H5); congruence).
  done.
Qed.

End TreeFacts.

(** C10, as the code has it.  [get_product_dir] edits the list of
    architectures of the document in place: the first occurrence of local
    is taken out of the list object that the document holds, not of a
    copy.  The directory name is built from the list so reduced, and the
    loops of [create_tree] that run afterwards in the same build, the
    resolution and linking per architecture and the unpacking of the meta
    packages, run over that reduced list.  When the architectures are
    distinct, local is not among them any more. *)
Theorem get_product_dir_edits_the_shared_list
    (ext : Externals) (unpack_one_meta_rpm : string → Package → Z → M unit)
    {PkgSet : Type} `{!PkgSetOps PkgSet}
    (yml : Yml) (flavor release : option string) (out : string) (w : World) :
  deref (y_architectures yml) (get_product_dir yml flavor release w).2
  = PyStr.remove "local" (deref (y_architectures yml) w)
  ∧ (get_product_dir yml flavor release w).1
    = match deref (y_architectures yml) w with
      | [] =>
          if PyStr.has_char "/" (name_suffix release (name_prefix yml flavor))
          then Exit 1
          else Normal (name_suffix release (name_prefix yml flavor))
      | _ =>
          if PyStr.has_char "/"
               (name_suffix release
                  (name_prefix yml flavor +:+ "-"
                     +:+ PyStr.join "-"
                           (PyStr.remove "local"
                              (deref (y_architectures yml) w))))
          then Exit 1
          else Normal
                 (name_suffix release
                    (name_prefix yml flavor +:+ "-"
                       +:+ PyStr.join "-"
                             (PyStr.remove "local"
                                (deref (y_architectures yml) w))))
      end
  ∧ build ext unpack_one_meta_rpm yml flavor release out w
    = (product_base_dir ← get_product_dir yml flavor release;
       create_tree_over ext unpack_one_meta_rpm
         (PyStr.remove "local" (deref (y_architectures yml) w))
         out product_base_dir yml flavor) w
  ∧ (NoDup (deref (y_architectures yml) w) →
     "local" ∉ PyStr.remove "local" (deref (y_architectures yml) w)).
Proof.
  split; [apply get_product_dir_heap|].
  split; [apply get_product_dir_name|].
  split; [|apply remove_nodup].
  unfold build, mbind, M_bind.
  pose proof (get_product_dir_heap yml flavor release w) as Hheap.
  destruct (get_product_dir yml flavor release w) as [[name| |] w1];
    simpl in Hheap; [|done..].
  by rewrite create_tree_reads_shared_list, Hheap.
Qed.

(** C10 as it is worded fails on a list that names local twice: only the
    first occurrence is removed, the second stays in the shared list and
    in the directory name, and the resolution that follows runs for the
    architecture local. *)
Lemma second_local_stays :
  (get_product_dir
     (Fixture.product ["ignore_missing_packages"]
        [Fixture.entry_of [] [("packages", ["foo"])]])
     None None (Fixture.world ["x86_64"; "local"; "local"])).1
  = Normal "prod-1.0-x86_64-local"
  ∧ deref 0
      (get_product_dir
         (Fixture.product ["ignore_missing_packages"]
            [Fixture.entry_of [] [("packages", ["foo"])]])
         None None (Fixture.world ["x86_64"; "local"; "local"])).2
    = ["x86_64"; "local"]
  ∧ stdout
      (build (PkgSet := SpecPkgSet.t) Fixture.ext Fixture.no_unpack
         (Fixture.product ["ignore_missing_packages"]
            [Fixture.entry_of [] [("packages", ["foo"])]])
         None None "out" (Fixture.world ["x86_64"; "local"; "local"])).2
    = ["WARNING: package foo not found for local"].
Proof. vm_compute. by repeat split. Qed.

(** * The properties at concrete inputs *)



Lemma first_writer_wins_witness :
  outname_of Fixture.foo11_rebuilt "out/prod"
  = outname_of Fixture.foo11 "out/prod"
  ∧ link_entry_into_dir Fixture.ext Fixture.foo11_rebuilt "out/prod" false
      (link_entry_into_dir Fixture.ext Fixture.foo11 "out/prod" false
         (Fixture.world ["x86_64"]))
    = link_entry_into_dir Fixture.ext Fixture.foo11 "out/prod" false
        (Fixture.world ["x86_64"]).
Proof.
  assert (outname_of Fixture.foo11_rebuilt "out/prod"
          = outname_of Fixture.foo11 "out/prod") as Hsame by reflexivity.
  split; [exact Hsame|].
  apply (first_writer_wins Fixture.ext (Fixture.world ["x86_64"])
           Fixture.foo11 Fixture.foo11_rebuilt "out/prod" false false
           [] "" Hsame).
Defined.

Lemma companions_of_a_resolved_package_witness :
  (link_rpm Fixture.ext "out/prod" "x86_64" (Some "out/prod-Debug")
     (Some "out/prod-Source") false (Fixture.any "baz")
     (false, Fixture.world ["x86_64"]) Fixture.baz).1
  = (link_rpm Fixture.ext "out/prod" "x86_64" None
       (Some "out/prod-Source") false (Fixture.any "baz")
       (false, Fixture.world ["x86_64"]) Fixture.baz).1.
Proof.
  apply (companions_of_a_resolved_package Fixture.ext "out/prod" "x86_64"
           (Some "out/prod-Debug") (Some "out/prod-Source") false
           (Fixture.any "baz") (false, Fixture.world ["x86_64"]) Fixture.baz).
Defined.

Lemma operand_sets_must_be_declared_before_witness :
  "add" ∈ setops
  ∧ operand_step "main" "add" "other"
      (SpecPkgSet.mk "main" None [], {[ "main" := Some (SpecPkgSet.mk "main" None []) ]})
    = Die (does_not_exist "other").
Proof.
  assert ("add" ∈ setops) as Hop by (unfold setops; in_list).
  split; [exact Hop|].
  apply (operand_sets_must_be_declared_before "x86_64" None
           (Fixture.entry_of [] []) "main" "add" "other"
           (SpecPkgSet.mk "main" None [])
           {[ "main" := Some (SpecPkgSet.mk "main" None []) ]} Hop).
  right. vm_compute. reflexivity.
Defined.

Lemma other_operation_names_are_ignored_witness :
  ("union" ∉ seq_keys)
  ∧ entry_step (PkgSet := SpecPkgSet.t) "x86_64" None
      (with_key "union" ["other"]
         (Fixture.entry_of [] [("packages", ["foo"])])) ∅
    = entry_step "x86_64" None
        (Fixture.entry_of [] [("packages", ["foo"])]) ∅.
Proof.
  assert ("union" ∉ seq_keys) as Hk.
  { unfold seq_keys. rewrite !not_elem_of_cons. repeat split; try done.
    apply not_elem_of_nil. }
  split; [exact Hk|].
  apply (other_operation_names_are_ignored (PkgSet := SpecPkgSet.t)
           "x86_64" None (Fixture.entry_of [] [("packages", ["foo"])])
           "union" ["other"] ∅ Fixture.four [] [] "main" "union" Hk).
Defined.

Lemma supportstatus_override_takes_precedence_witness :
  create_package_set Fixture.four "x86_64" None "main" = Ok Fixture.four_set
  ∧ recorded_status "foo"
      (link_rpms_to_tree Fixture.ext "out/prod" Fixture.four "x86_64" None
         None None Fixture.overriding).2 = Some "l3".
Proof.
  assert (create_package_set Fixture.four "x86_64" None "main"
          = Ok Fixture.four_set) as Hset by (vm_compute; reflexivity).
  split; [exact Hset|].
  destruct (supportstatus_override_takes_precedence Fixture.ext "out/prod"
              Fixture.four "x86_64" None None None Fixture.four_set
              Fixture.overriding Hset) as (_ & _ & Hrun).
  apply (Hrun (Fixture.any "foo") Fixture.foo11 "l3");
    [vm_compute; in_list..|vm_compute; reflexivity].
Defined.

Lemma duplicate_name_with_a_set_object_is_fatal_witness :
  makes_set_object "x86_64" None "extra"
    (Fixture.entry_of [("name", "main")]
       [("packages", ["foo"]); ("add", ["extra"])])
  ∧ create_package_set (PkgSet := SpecPkgSet.t)
      (Fixture.product []
         [Fixture.entry_of [("name", "extra")]
            [("architectures", ["aarch64"]); ("packages", ["bar"])];
          Fixture.entry_of [("name", "main")]
            [("packages", ["foo"]); ("add", ["extra"])];
          Fixture.entry_of [("name", "extra")] [("packages", ["baz"])]])
      "x86_64" None "main"
    = Die (already_defined "extra").
Proof.
  assert (makes_set_object "x86_64" None "extra"
            (Fixture.entry_of [("name", "main")]
               [("packages", ["foo"]); ("add", ["extra"])])) as Hmakes.
  { split; [reflexivity|]. right. exists "add", ["extra"].
    split; [unfold setops; in_list|]. split; [reflexivity|in_list]. }
  split; [exact Hmakes|].
  destruct (duplicate_name_with_a_set_object_is_fatal
              (PkgSet := SpecPkgSet.t) "x86_64" None
              (Fixture.entry_of [("name", "extra")] [("packages", ["baz"])])
              [Fixture.entry_of [("name", "extra")]
                 [("architectures", ["aarch64"]); ("packages", ["bar"])];
               Fixture.entry_of [("name", "main")]
                 [("packages", ["foo"]); ("add", ["extra"])]]
              []
              (Fixture.product []
                 [Fixture.entry_of [("name", "extra")]
                    [("architectures", ["aarch64"]); ("packages", ["bar"])];
                  Fixture.entry_of [("name", "main")]
                    [("packages", ["foo"]); ("add", ["extra"])];
                  Fixture.entry_of [("name", "extra")]
                    [("packages", ["baz"])]])
              "main" eq_refl)
    as (Hfatal & _).
  destruct Hfatal as (msg & Hdie & _ & Hmsg).
  { eexists. split; [|exact Hmakes]. in_list. }
  rewrite Hdie. f_equal.
  apply (Hmsg
    {[ "extra" := Some (SpecPkgSet.mk "extra" None []);
       "main" := Some (SpecPkgSet.mk "main" None [Fixture.any "foo"]) ]}).
  vm_compute. reflexivity.
Defined.

Lemma report_is_the_sorted_subtree_witness :
  write_report_file "out/prod"
    (register_all
       [(Fixture.foo11, outname_of Fixture.foo11 "out/prod");
        (Fixture.foo_src, outname_of Fixture.foo_src "out/prod-Source");
        (Fixture.bar, outname_of Fixture.bar "out/prod")]
       (Fixture.tree ["x86_64"]))
  = [binary_of Fixture.bar; binary_of Fixture.foo11]
  ∧ ∃ items,
      (outname_of Fixture.foo11 "out/prod", Fixture.foo11) ∈ items
      ∧ (outname_of Fixture.bar "out/prod", Fixture.bar) ∈ items
      ∧ ((outname_of Fixture.foo_src "out/prod-Source", Fixture.foo_src)
         ∉ items)
      ∧ List.length
          (write_report_file "out/prod"
             (register_all
                [(Fixture.foo11, outname_of Fixture.foo11 "out/prod");
                 (Fixture.foo_src,
                  outname_of Fixture.foo_src "out/prod-Source");
                 (Fixture.bar, outname_of Fixture.bar "out/prod")]
                (Fixture.tree ["x86_64"])))
        = List.length items.
Proof.
  split; [vm_compute; reflexivity|].
  destruct (report_is_the_sorted_subtree "out/prod"
              (register_all
                 [(Fixture.foo11, outname_of Fixture.foo11 "out/prod");
                  (Fixture.foo_src,
                   outname_of Fixture.foo_src "out/prod-Source");
                  (Fixture.bar, outname_of Fixture.bar "out/prod")]
                 (Fixture.tree ["x86_64"])))
    as (items & Hmain & _ & _ & _ & Hlen & _).
  destruct Hmain as [Hmem Hother].
  { intros d Heq.
    assert (PyStr.endswith "/" "out/prod" = true) as Hends
      by (apply endswith_slash_spec; by exists d).
    by vm_compute in Hends. }
  exists items. split; [|split; [|split; [|exact Hlen]]].
  - apply Hmem. split; [vm_compute; reflexivity|].
    by exists "x86_64/foo-1.1-1.x86_64.rpm".
  - apply Hmem. split; [vm_compute; reflexivity|].
    by exists "x86_64/bar-2.0-3.x86_64.rpm".
  - apply (Hother Fixture.foo_src "src/foo-1.1-1.src.rpm").
Defined.

Lemma get_product_dir_edits_the_shared_list_witness :
  "local" ∉ deref (y_architectures Fixture.four)
    (get_product_dir Fixture.four None None
       (Fixture.world ["x86_64"; "local"; "aarch64"])).2.
Proof.
  destruct (get_product_dir_edits_the_shared_list (PkgSet := SpecPkgSet.t)
              Fixture.ext Fixture.no_unpack Fixture.four None None "out"
              (Fixture.world ["x86_64"; "local"; "aarch64"]))
    as (Hheap & _ & _ & Hgone).
  rewrite Hheap. apply Hgone.
  change (NoDup ["x86_64"; "local"; "aarch64"]).
  repeat (constructor; [rewrite ?not_elem_of_cons; repeat split; try done;
                        apply not_elem_of_nil|]).
  constructor.
Defined.

(** * Further properties of cli.py *)

(** ** The manifest tells where the files come from *)

Lemma link_file_fresh ext filename directory w :
  path_exists (directory +:+ "/" +:+ PyStr.basename filename) w = false →
  fs (link_file_into_dir ext filename directory w)
     !! (directory +:+ "/" +:+ PyStr.basename filename)
  = Some (if islink ext filename then CopyOf filename
          else HardLinkOf filename).
Proof.
  intros Hfresh. unfold link_file_into_dir.
  set (outname := directory +:+ "/" +:+ PyStr.basename filename) in *.
  set (w1 := if path_exists directory w then w else _).
  assert (path_exists outname w1 = false) as ->.
  { subst w1. destruct (path_exists directory w); [done|].
    apply path_exists_false in Hfresh.
    apply not_true_is_false. rewrite path_exists_true. simpl.
    rewrite lookup_insert_ne; [by rewrite Hfresh; intros []|].
    intros Heq. symmetry in Heq. revert Heq. by apply string_app_ne. }
  destruct (islink ext filename); simpl; by rewrite lookup_insert_eq.
Qed.

Lemma link_file_report ext filename directory w :
  tree_report (link_file_into_dir ext filename directory w) = tree_report w.
Proof.
  unfold link_file_into_dir.
  repeat (match goal with |- context [if ?b then _ else _] => destruct b end);
    done.
Qed.

Lemma add_entry_fs entry outname w :
  fs (add_entry_to_report entry outname w) = fs w.
Proof. unfold add_entry_to_report. by case_bool_decide. Qed.

Lemma outname_of_split entry directory :
  outname_of entry directory
  = (directory +:+ "/" +:+ pkg_arch entry) +:+ "/"
      +:+ PyStr.basename (pkg_location entry).
Proof. unfold outname_of. by rewrite !string_app_assoc. Qed.

(** What [link_entry_into_dir] does to the manifest: nothing, or one new
    entry, for the output path of the package. *)
Lemma link_entry_report ext entry directory add_slsa w :
  tree_report (link_entry_into_dir ext entry directory add_slsa w)
  = if path_exists (outname_of entry directory) w
       || bool_decide (is_Some (tree_report w !! outname_of entry directory))
    then tree_report w
    else <[outname_of entry directory := entry]> (tree_report w).
Proof.
  unfold link_entry_into_dir.
  destruct (path_exists (outname_of entry directory) w); [done|]. simpl.
  assert (tree_report
            (add_entry_to_report entry (outname_of entry directory)
               (link_file_into_dir ext (pkg_location entry)
                  (directory +:+ "/" +:+ pkg_arch entry) w))
          = if bool_decide
                 (is_Some (tree_report w !! outname_of entry directory))
            then tree_report w
            else <[outname_of entry directory := entry]> (tree_report w))
    as Hadd.
  { unfold add_entry_to_report. rewrite link_file_report.
    case_bool_decide; simpl; by rewrite link_file_report. }
  destruct add_slsa; [|exact Hadd].
  destruct (pool_file_exists ext _); [|exact Hadd].
  by rewrite link_file_report.
Qed.

Lemma link_entry_sound ext entry directory add_slsa w :
  provenance_sound w →
  provenance_sound (link_entry_into_dir ext entry directory add_slsa w).
Proof.
  intros Hsound p e.
  pose proof (extends_link_entry ext entry directory add_slsa w) as Hext.
  rewrite link_entry_report.
  destruct (path_exists (outname_of entry directory) w) eqn:Hex; simpl.
  { intros Hp. destruct (Hsound p e Hp) as [Hfs|Hfs]; [left|right];
      by apply (lookup_weaken _ _ _ _ Hfs), Hext. }
  case_bool_decide as Hin.
  { intros Hp. destruct (Hsound p e Hp) as [Hfs|Hfs]; [left|right];
      by apply (lookup_weaken _ _ _ _ Hfs), Hext. }
  destruct (decide (p = outname_of entry directory)) as [->|Hne].
  - rewrite lookup_insert_eq. intros [= <-].
    assert (fs (link_entry_into_dir ext entry directory add_slsa w)
              !! outname_of entry directory
            = Some (if islink ext (pkg_location entry)
                    then CopyOf (pkg_location entry)
                    else HardLinkOf (pkg_location entry))) as Hnew.
    { unfold link_entry_into_dir. rewrite Hex.
      set (w1 := link_file_into_dir ext (pkg_location entry) _ w).
      assert (fs w1 !! outname_of entry directory
              = Some (if islink ext (pkg_location entry)
                      then CopyOf (pkg_location entry)
                      else HardLinkOf (pkg_location entry))) as H1.
      { subst w1. rewrite outname_of_split. apply link_file_fresh.
        by rewrite <-outname_of_split. }
      set (w2 := add_entry_to_report entry (outname_of entry directory) w1).
      assert (fs w2 = fs w1) as H2 by apply add_entry_fs.
      destruct add_slsa; [|by rewrite H2].
      destruct (pool_file_exists ext _); [|by rewrite H2].
      apply (lookup_weaken (fs w2)); [by rewrite H2|].
      apply (extends_link_file ext). }
    rewrite Hnew. destruct (islink ext (pkg_location entry)); auto.
  - rewrite lookup_insert_ne by done.
    intros Hp. destruct (Hsound p e Hp) as [Hfs|Hfs]; [left|right];
      by apply (lookup_weaken _ _ _ _ Hfs), Hext.
Qed.

Lemma sound_same_tree w v :
  fs v = fs w → tree_report v = tree_report w →
  provenance_sound w → provenance_sound v.
Proof. unfold provenance_sound. by intros -> ->. Qed.

Lemma warn_fs msg details w : fs (warn msg details w) = fs w.
Proof.
  unfold warn, print. destruct details as [d|]; [case_bool_decide|]; done.
Qed.

Lemma warn_report msg details w :
  tree_report (warn msg details w) = tree_report w.
Proof.
  unfold warn, print. destruct details as [d|]; [case_bool_decide|]; done.
Qed.

Section SoundFacts.
Context (ext : Externals).
Context (rpmdir arch : string) (debugdir sourcedir : option string).
Context (singlemode add_slsa : bool).

Lemma link_rpm_sound sel st rpm :
  provenance_sound st.2 →
  provenance_sound
    (link_rpm ext rpmdir arch debugdir sourcedir add_slsa sel st rpm).2.
Proof.
  intros Hsound. unfold link_rpm.
  set (w1 := link_entry_into_dir ext rpm rpmdir add_slsa st.2).
  set (w2 := set_supportstatus_db _ w1).
  assert (provenance_sound w2) as H2.
  { apply (sound_same_tree w1); [done..|]. by apply link_entry_sound. }
  clearbody w2.
  destruct (get_src_package ext rpm) as [srcrpm|]; unfold snd at 1.
  2:{ apply (sound_same_tree w2);
        [apply warn_fs|apply warn_report|done]. }
  assert (provenance_sound
            (link_source ext sourcedir add_slsa rpm srcrpm (st.1, w2)).2)
    as H3.
  { unfold link_source. destruct (given sourcedir) as [sdir|]; [|done].
    destruct (lookup_rpm ext _ _ _ _ _ _) as [srpm|]; unfold snd.
    - by apply link_entry_sound.
    - apply (sound_same_tree w2);
        [apply warn_fs|apply warn_report|done]. }
  set (w3 := (link_source ext sourcedir add_slsa rpm srcrpm (st.1, w2)).2)
    in *.
  clearbody w3. unfold link_debug.
  destruct (given debugdir) as [ddir|]; [|done].
  destruct (lookup_rpm ext arch (pkg_name srcrpm +:+ _) _ _ _ _);
    destruct (lookup_rpm ext arch (pkg_name rpm +:+ _) _ _ _ _);
    auto using link_entry_sound.
Qed.

Lemma link_selectors_sound sels st :
  provenance_sound st.2 →
  provenance_sound
    (foldl (link_selector ext rpmdir arch debugdir sourcedir singlemode
              add_slsa) st sels).2.
Proof.
  revert st. induction sels as [|sel sels IH]; intros st Hst; [done|].
  simpl. apply IH. unfold link_selector.
  destruct (resolve ext singlemode arch sel) as [|rpm rpms].
  - apply (sound_same_tree st.2); [apply warn_fs|apply warn_report|done].
  - generalize (rpm :: rpms). clear rpm rpms. intros rpms. revert st Hst.
    induction rpms as [|rpm rpms IHr]; intros st Hst; [done|].
    simpl. by apply IHr, link_rpm_sound.
Qed.

End SoundFacts.

(** X1.  The manifest stays truthful while packages are linked: if every
    path it lists is a hard link or a copy of the file of the package it is
    listed with, this still holds after [link_entry_into_dir] and after a
    whole run of [link_rpms_to_tree]; and one call of
    [link_entry_into_dir] adds no manifest entry but, at most, the one for
    the output path of its package (the provenance file linked beside it
    gets none). *)
Theorem manifest_stays_truthful
    (ext : Externals) {PkgSet : Type} `{!PkgSetOps PkgSet}
    (rpmdir : string) (yml : Yml) (arch : string) (flavor : option string)
    (debugdir sourcedir : option string) (entry : Package)
    (directory : string) (add_slsa : bool) (w : World) :
  provenance_sound w →
  provenance_sound (link_entry_into_dir ext entry directory add_slsa w)
  ∧ provenance_sound
      (link_rpms_to_tree ext rpmdir yml arch flavor debugdir sourcedir w).2
  ∧ (∀ p, p ≠ outname_of entry directory →
       tree_report (link_entry_into_dir ext entry directory add_slsa w) !! p
       = tree_report w !! p).
Proof.
  intros Hsound. split; [by apply link_entry_sound|]. split.
  - unfold link_rpms_to_tree, mbind, M_bind.
    destruct (create_package_set yml arch flavor "main") as [s|msg|exc];
      simpl.
    + set (st := foldl _ (false, w) (pkgset_iter s)).
      assert (provenance_sound st.2) as Hst
        by (by apply link_selectors_sound).
      by destruct (st.1 && negb _).
    + by case_bool_decide.
    + done.
  - intros p Hp. rewrite link_entry_report.
    destruct (_ || _); [done|]. by rewrite lookup_insert_ne.
Qed.

Lemma manifest_stays_truthful_witness :
  provenance_sound (Fixture.world ["x86_64"])
  ∧ provenance_sound
      (link_rpms_to_tree Fixture.ext "out/prod" Fixture.four "x86_64" None
         (Some "out/prod-Debug") (Some "out/prod-Source")
         (Fixture.world ["x86_64"])).2.
Proof.
  assert (provenance_sound (Fixture.world ["x86_64"])) as Hsound.
  { intros p e Hp. exfalso. revert Hp. simpl. by rewrite lookup_empty. }
  split; [exact Hsound|].
  apply (manifest_stays_truthful Fixture.ext "out/prod" Fixture.four
           "x86_64" None (Some "out/prod-Debug") (Some "out/prod-Source")
           Fixture.foo11 "out/prod" false (Fixture.world ["x86_64"]) Hsound).
Defined.

(** ** Reports of the sub-trees *)

Lemma elem_of_report_entries directory w fn e :
  (fn, e) ∈ report_entries directory w
  ↔ tree_report w !! fn = Some e
    ∧ PyStr.startswith (with_slash directory) fn = true.
Proof.
  unfold report_entries.
  rewrite list_elem_of_filter, elem_of_sorted_items. simpl. tauto.
Qed.

Lemma outname_under directory entry :
  PyStr.startswith (with_slash directory) (outname_of entry directory) = true.
Proof.
  unfold PyStr.startswith, with_slash, outname_of.
  destruct (PyStr.endswith "/" directory).
  - apply prefix_app.
  - rewrite <-string_app_assoc. apply prefix_app.
Qed.

(** X2.  The report of a directory is complete for what was linked into
    it: a package registered for its output path below [directory] has
    its element in the report of [directory], and a package that
    [link_entry_into_dir] links at a path that neither exists nor is
    registered yet is in the report right after. *)
Theorem linked_packages_are_reported
    (ext : Externals) (entry : Package) (directory : string)
    (add_slsa : bool) (w : World) :
  (tree_report w !! outname_of entry directory = Some entry →
   binary_of entry ∈ write_report_file directory w)
  ∧ (path_exists (outname_of entry directory) w = false →
     tree_report w !! outname_of entry directory = None →
     binary_of entry
     ∈ write_report_file directory
         (link_entry_into_dir ext entry directory add_slsa w)).
Proof.
  assert (∀ v, tree_report v !! outname_of entry directory = Some entry →
               binary_of entry ∈ write_report_file directory v) as Hrep.
  { intros v Hreg. unfold write_report_file.
    apply list_elem_of_fmap. exists (outname_of entry directory, entry).
    split; [done|]. apply elem_of_report_entries.
    split; [done|apply outname_under]. }
  split; [apply Hrep|].
  intros Hfresh Hnew. apply Hrep. rewrite link_entry_report, Hfresh, Hnew.
  simpl. apply lookup_insert_eq.
Qed.

Lemma linked_packages_are_reported_witness :
  binary_of Fixture.foo11
  ∈ write_report_file "out/prod"
      (link_entry_into_dir Fixture.ext Fixture.foo11 "out/prod" false
         (Fixture.world ["x86_64"])).
Proof.
  apply (linked_packages_are_reported Fixture.ext Fixture.foo11 "out/prod"
           false (Fixture.world ["x86_64"])); reflexivity.
Defined.

(** X3.  The reports of the main tree and of split source and debug trees
    share no entry: with the directories [create_tree] gives them,
    [maindir], [maindir-Source] and [maindir-Debug], a manifest path is in
    at most one of the three reports. *)
Theorem split_reports_do_not_overlap (maindir : string) (w : World)
    (fn : string) (e1 e2 : Package) :
  PyStr.endswith "/" maindir = false →
  ((fn, e1) ∈ report_entries maindir w →
   (fn, e2) ∈ report_entries (maindir +:+ "-Source") w → False)
  ∧ ((fn, e1) ∈ report_entries maindir w →
     (fn, e2) ∈ report_entries (maindir +:+ "-Debug") w → False)
  ∧ ((fn, e1) ∈ report_entries (maindir +:+ "-Source") w →
     (fn, e2) ∈ report_entries (maindir +:+ "-Debug") w → False).
Proof.
  intros Hmain.
  assert (with_slash maindir = maindir +:+ String "/" "") as Hm
    by (unfold with_slash; by rewrite Hmain).
  assert (with_slash (maindir +:+ "-Source")
          = (maindir +:+ "-") +:+ String "S" "ource/") as Hs.
  { unfold with_slash.
    change (maindir +:+ "-Source") with (maindir +:+ "-Sourc" +:+ "e").
    rewrite (endswith_slash_app maindir "-Sourc" "e") by done.
    by rewrite !string_app_assoc. }
  assert (with_slash (maindir +:+ "-Debug")
          = (maindir +:+ "-") +:+ String "D" "ebug/") as Hd.
  { unfold with_slash.
    change (maindir +:+ "-Debug") with (maindir +:+ "-Debu" +:+ "g").
    rewrite (endswith_slash_app maindir "-Debu" "g") by done.
    by rewrite !string_app_assoc. }
  rewrite !elem_of_report_entries, Hm, Hs, Hd. unfold PyStr.startswith.
  split; [|split].
  - intros [_ H1] [_ H2]. rewrite string_app_assoc in H2.
    by eapply (prefix_app_disjoint maindir "/" "-").
  - intros [_ H1] [_ H2]. rewrite string_app_assoc in H2.
    by eapply (prefix_app_disjoint maindir "/" "-").
  - intros [_ H1] [_ H2].
    by eapply (prefix_app_disjoint (maindir +:+ "-") "S" "D").
Qed.

Lemma split_reports_do_not_overlap_witness :
  PyStr.endswith "/" "out/prod" = false
  ∧ ("out/prod-Source/src/foo-1.1-1.src.rpm", Fixture.foo_src)
    ∈ report_entries ("out/prod" +:+ "-Source")
        (link_entry_into_dir Fixture.ext Fixture.foo_src "out/prod-Source"
           false (Fixture.world ["x86_64"]))
  ∧ ("out/prod-Source/src/foo-1.1-1.src.rpm", Fixture.foo_src)
    ∉ report_entries "out/prod"
        (link_entry_into_dir Fixture.ext Fixture.foo_src "out/prod-Source"
           false (Fixture.world ["x86_64"])).
Proof.
  assert (("out/prod-Source/src/foo-1.1-1.src.rpm", Fixture.foo_src)
          ∈ report_entries ("out/prod" +:+ "-Source")
              (link_entry_into_dir Fixture.ext Fixture.foo_src
                 "out/prod-Source" false (Fixture.world ["x86_64"])))
    as Hin.
  { apply elem_of_report_entries. split; vm_compute; reflexivity. }
  split; [reflexivity|]. split; [exact Hin|].
  intros Hmain.
  destruct (split_reports_do_not_overlap "out/prod"
              (link_entry_into_dir Fixture.ext Fixture.foo_src
                 "out/prod-Source" false (Fixture.world ["x86_64"]))
              "out/prod-Source/src/foo-1.1-1.src.rpm" Fixture.foo_src
              Fixture.foo_src eq_refl) as (Hsrc & _ & _).
  exact (Hsrc Hmain Hin).
Defined.

(** ** A second run of the resolution *)

(** The output tree after [link_file_into_dir], from the tree before. *)
Lemma link_file_fs ext filename directory w :
  fs (link_file_into_dir ext filename directory w)
  = (λ m : gmap string fnode,
       if bool_decide
            (is_Some (m !! (directory +:+ "/" +:+ PyStr.basename filename)))
       then m
       else <[directory +:+ "/" +:+ PyStr.basename filename :=
                if islink ext filename then CopyOf filename
                else HardLinkOf filename]> m)
      (if bool_decide (is_Some (fs w !! directory)) then fs w
       else <[directory := Directory]> (fs w)).
Proof.
  unfold link_file_into_dir, path_exists.
  destruct (bool_decide (is_Some (fs w !! directory))); simpl.
  - destruct (bool_decide _); [done|]. by destruct (islink ext filename).
  - destruct (bool_decide _); [done|]. by destruct (islink ext filename).
Qed.

Lemma link_file_fs_eq ext filename directory w v :
  fs w = fs v →
  fs (link_file_into_dir ext filename directory w)
  = fs (link_file_into_dir ext filename directory v).
Proof. intros Hfs. by rewrite !link_file_fs, Hfs. Qed.

Lemma link_entry_tree_eq ext entry directory add_slsa w v :
  fs w = fs v → tree_report w = tree_report v →
  fs (link_entry_into_dir ext entry directory add_slsa w)
  = fs (link_entry_into_dir ext entry directory add_slsa v)
  ∧ tree_report (link_entry_into_dir ext entry directory add_slsa w)
    = tree_report (link_entry_into_dir ext entry directory add_slsa v).
Proof.
  intros Hfs Hrep.
  assert (path_exists (outname_of entry directory) w
          = path_exists (outname_of entry directory) v) as Hex
    by (unfold path_exists; by rewrite Hfs).
  split.
  - unfold link_entry_into_dir. rewrite Hex.
    destruct (path_exists (outname_of entry directory) v); [done|].
    assert (fs (add_entry_to_report entry (outname_of entry directory)
                  (link_file_into_dir ext (pkg_location entry)
                     (directory +:+ "/" +:+ pkg_arch entry) w))
            = fs (add_entry_to_report entry (outname_of entry directory)
                    (link_file_into_dir ext (pkg_location entry)
                       (directory +:+ "/" +:+ pkg_arch entry) v))) as H1.
    { rewrite !add_entry_fs. by apply link_file_fs_eq. }
    destruct add_slsa; [|done].
    destruct (pool_file_exists ext _); [|done].
    by apply link_file_fs_eq.
  - by rewrite !link_entry_report, Hex, Hrep.
Qed.

Section TraceFacts.
Context (ext : Externals).
Context (rpmdir arch : string) (debugdir sourcedir : option string).
Context (singlemode add_slsa : bool).

Local Abbreviation tree_eq w v :=
  (fs w = fs v ∧ tree_report w = tree_report v).

Lemma relink_app calls1 calls2 w :
  relink ext add_slsa (calls1 ++ calls2) w
  = relink ext add_slsa calls2 (relink ext add_slsa calls1 w).
Proof. apply foldl_app. Qed.

Lemma relink_tree_eq calls w v :
  tree_eq w v →
  tree_eq (relink ext add_slsa calls w) (relink ext add_slsa calls v).
Proof.
  revert w v. induction calls as [|c calls IH]; intros w v [Hfs Hrep];
    [done|].
  simpl. apply IH. by apply link_entry_tree_eq.
Qed.

Lemma relink_opt_tree_eq (found : option Package) dir w v :
  tree_eq w v →
  tree_eq (match found with
           | Some p => link_entry_into_dir ext p dir add_slsa w
           | None => w
           end)
          (relink ext add_slsa
             (match found with Some p => [(p, dir)] | None => [] end) v).
Proof.
  intros [Hfs Hrep]. destruct found as [p|]; [|done].
  simpl. by apply link_entry_tree_eq.
Qed.

(** On the output tree and the manifest, [link_rpm] is its sequence of
    calls of [link_entry_into_dir]. *)
Lemma link_rpm_trace sel st rpm v :
  tree_eq st.2 v →
  tree_eq (link_rpm ext rpmdir arch debugdir sourcedir add_slsa sel st rpm).2
          (relink ext add_slsa
             (rpm_links ext rpmdir arch debugdir sourcedir rpm) v).
Proof.
  intros [Hfs Hrep]. unfold link_rpm, rpm_links.
  change (relink ext add_slsa ((rpm, rpmdir) :: ?l) v)
    with (relink ext add_slsa l (link_entry_into_dir ext rpm rpmdir add_slsa v)).
  set (w1 := link_entry_into_dir ext rpm rpmdir add_slsa st.2).
  set (v1 := link_entry_into_dir ext rpm rpmdir add_slsa v).
  set (w2 := set_supportstatus_db _ w1).
  assert (tree_eq w2 v1) as H2.
  { subst w2 w1 v1. unfold set_supportstatus_db. simpl.
    by apply link_entry_tree_eq. }
  clearbody w2 v1. clear w1 Hfs Hrep.
  destruct (get_src_package ext rpm) as [srcrpm|]; cbn [snd].
  2:{ destruct H2. split; [rewrite warn_fs|rewrite warn_report]; done. }
  rewrite relink_app.
  set (w3 := (link_source ext sourcedir add_slsa rpm srcrpm (st.1, w2)).2).
  set (v3 := relink ext add_slsa _ v1).
  assert (tree_eq w3 v3) as H3.
  { subst w3 v3. unfold link_source.
    destruct (given sourcedir) as [sdir|]; [|done].
    destruct (lookup_rpm ext _ _ _ _ _ _) as [srpm|]; cbn [snd].
    - destruct H2. by apply link_entry_tree_eq.
    - destruct H2. split; [rewrite warn_fs|rewrite warn_report]; done. }
  clearbody w3 v3. unfold link_debug.
  destruct (given debugdir) as [ddir|]; [|done].
  rewrite relink_app.
  apply relink_opt_tree_eq. by apply relink_opt_tree_eq.
Qed.

Lemma link_rpms_trace sel rpms st v :
  tree_eq st.2 v →
  tree_eq (foldl (link_rpm ext rpmdir arch debugdir sourcedir add_slsa sel)
             st rpms).2
          (relink ext add_slsa
             (rpm ← rpms; rpm_links ext rpmdir arch debugdir sourcedir rpm) v).
Proof.
  revert st v. induction rpms as [|rpm rpms IH]; intros st v Heq; [done|].
  simpl. rewrite relink_app. apply IH. by apply link_rpm_trace.
Qed.

Lemma link_selectors_trace sels st v :
  tree_eq st.2 v →
  tree_eq (foldl (link_selector ext rpmdir arch debugdir sourcedir singlemode
                    add_slsa) st sels).2
          (relink ext add_slsa
             (set_links ext rpmdir arch debugdir sourcedir singlemode sels) v).
Proof.
  revert st v. induction sels as [|sel sels IH]; intros st v Heq; [done|].
  unfold set_links. simpl. rewrite relink_app. apply IH.
  unfold link_selector.
  destruct (resolve ext singlemode arch sel) as [|rpm rpms] eqn:Hres.
  - destruct Heq. cbn [snd].
    split; [rewrite warn_fs|rewrite warn_report]; done.
  - by apply (link_rpms_trace sel (rpm :: rpms)).
Qed.

Lemma relink_extends calls w : extends w (relink ext add_slsa calls w).
Proof.
  revert w. induction calls as [|c calls IH]; intros w; simpl.
  - reflexivity.
  - etrans; [apply (extends_link_entry ext c.1 c.2 add_slsa)|]. apply IH.
Qed.

(** After a sequence of calls every output path of it exists. *)
Lemma relink_exists calls w c :
  c ∈ calls →
  path_exists (outname_of c.1 c.2) (relink ext add_slsa calls w) = true.
Proof.
  intros Hin. revert w.
  induction Hin as [c calls|c c' calls _ IH]; intros w; simpl.
  - eapply extends_path_exists; [apply relink_extends|].
    apply link_entry_creates.
  - apply IH.
Qed.

(** Calls whose output paths all exist change nothing. *)
Lemma relink_noop calls w :
  (∀ c, c ∈ calls → path_exists (outname_of c.1 c.2) w = true) →
  relink ext add_slsa calls w = w.
Proof.
  induction calls as [|c calls IH]; intros Hall; [done|].
  simpl. unfold link_entry_into_dir at 1.
  rewrite (Hall c) by apply list_elem_of_here.
  apply IH. intros c' Hc'. by apply Hall, list_elem_of_further.
Qed.

(** The writes to [supportstatus] of the loop over the Selectors. *)
Lemma link_rpms_writes sel rpms st :
  supportstatus
    (foldl (link_rpm ext rpmdir arch debugdir sourcedir add_slsa sel)
           st rpms).2
  = apply_writes
      (rpm ← rpms;
       [(pkg_name rpm,
         match supportstatus_override st.2 !! pkg_name rpm with
         | Some s => Some s
         | None => sel_supportstatus sel
         end)])
      (supportstatus st.2).
Proof.
  revert st. induction rpms as [|rpm rpms IH]; intros st; [done|].
  simpl. rewrite IH, link_rpm_status, link_rpm_override. done.
Qed.

Lemma link_selectors_writes sels st :
  supportstatus
    (foldl (link_selector ext rpmdir arch debugdir sourcedir singlemode
              add_slsa) st sels).2
  = apply_writes
      (set_writes ext (supportstatus_override st.2) arch singlemode sels)
      (supportstatus st.2).
Proof.
  revert st. induction sels as [|sel sels IH]; intros st; [done|].
  unfold set_writes, apply_writes in *. simpl. rewrite foldl_app, IH.
  pose proof (link_selector_extends ext rpmdir arch debugdir sourcedir
                singlemode add_slsa st sel) as Hext.
  rewrite (ext_override _ _ Hext). f_equal.
  unfold link_selector.
  destruct (resolve ext singlemode arch sel) as [|rpm rpms] eqn:Hres.
  - cbn [snd mbind list_bind foldl]. apply warn_status.
  - apply (link_rpms_writes sel (rpm :: rpms)).
Qed.

End TraceFacts.

Lemma apply_writes_lookup {V} (writes : list (string * V)) m k :
  apply_writes writes m !! k
  = match written k writes with
    | Some v => Some v
    | None => m !! k
    end.
Proof.
  revert m. induction writes as [|[k' v] writes IH]; intros m; [done|].
  unfold apply_writes in *. simpl. rewrite IH.
  destruct (written k writes); [done|].
  case_bool_decide as Hk.
  - subst. apply lookup_insert_eq.
  - by apply lookup_insert_ne.
Qed.

(** Writing a sequence twice is writing it once. *)
Lemma apply_writes_twice {V} (writes : list (string * V)) m :
  apply_writes writes (apply_writes writes m) = apply_writes writes m.
Proof.
  apply map_eq. intros k. rewrite !apply_writes_lookup.
  by destruct (written k writes).
Qed.

(** X4.  Running [link_rpms_to_tree] again on the world it left changes
    nothing but the printed lines: the output tree, the manifest, the
    status tables and the shared lists are the same after the second run,
    and the second run ends as the first did. *)
Theorem second_run_changes_nothing
    (ext : Externals) {PkgSet : Type} `{!PkgSetOps PkgSet}
    (rpmdir : string) (yml : Yml) (arch : string) (flavor : option string)
    (debugdir sourcedir : option string) (w : World) :
  same_state
    (link_rpms_to_tree ext rpmdir yml arch flavor debugdir sourcedir
       (link_rpms_to_tree ext rpmdir yml arch flavor debugdir sourcedir w).2).2
    (link_rpms_to_tree ext rpmdir yml arch flavor debugdir sourcedir w).2
  ∧ (link_rpms_to_tree ext rpmdir yml arch flavor debugdir sourcedir
       (link_rpms_to_tree ext rpmdir yml arch flavor debugdir sourcedir w).2).1
    = (link_rpms_to_tree ext rpmdir yml arch flavor debugdir sourcedir w).1.
Proof.
  unfold link_rpms_to_tree, mbind, M_bind.
  destruct (create_package_set yml arch flavor "main") as [s|msg|exc]; simpl.
  2:{ by case_bool_decide. }
  2:{ done. }
  set (singlemode := negb (PyStr.mem "take_all_available_versions" _)).
  set (add_slsa := PyStr.mem "add_slsa_provenance" _).
  set (ignore := negb (PyStr.mem "ignore_missing_packages" _)).
  set (step := link_selector ext rpmdir arch debugdir sourcedir singlemode
                 add_slsa).
  set (calls := set_links ext rpmdir arch debugdir sourcedir singlemode
                  (pkgset_iter s)).
  assert (∀ v, (foldl step (false, v) (pkgset_iter s)).1
               = existsb (selector_missing ext singlemode arch sourcedir)
                         (pkgset_iter s)) as Hflag.
  { intros v. subst step. by rewrite link_selectors_flag. }
  assert (∀ v, extends v (foldl step (false, v) (pkgset_iter s)).2) as Hext.
  { intros v. apply (link_selectors_extends ext rpmdir arch debugdir
                       sourcedir singlemode add_slsa _ (false, v)). }
  assert (∀ v v', same_state v' (foldl step (false, v) (pkgset_iter s)).2 →
            same_state (foldl step (false, v') (pkgset_iter s)).2
                       (foldl step (false, v) (pkgset_iter s)).2) as Hagain.
  { intros v v' Hsame. set (w1 := (foldl step (false, v) (pkgset_iter s)).2)
      in *.
    destruct Hsame as [Hfs Hrep Hst Hov Hhp].
    set (w2 := (foldl step (false, v') (pkgset_iter s)).2).
    destruct (link_selectors_trace ext rpmdir arch debugdir sourcedir
                singlemode add_slsa (pkgset_iter s) (false, v) v)
      as [Hfs1 Hrep1]; [done|]. fold step calls w1 in Hfs1, Hrep1.
    destruct (link_selectors_trace ext rpmdir arch debugdir sourcedir
                singlemode add_slsa (pkgset_iter s) (false, v') w1)
      as [Hfs2 Hrep2]; [done|]. fold step calls w2 in Hfs2, Hrep2.
    assert (relink ext add_slsa calls w1 = w1) as Hnoop.
    { apply relink_noop. intros c Hc. unfold path_exists. rewrite Hfs1.
      apply (relink_exists ext add_slsa calls v c Hc). }
    rewrite Hnoop in Hfs2, Hrep2.
    split; [done..| | |].
    - subst w2 w1 step. rewrite !link_selectors_writes. simpl.
      rewrite Hov, Hst.
      rewrite (ext_override _ _ (Hext v)).
      rewrite link_selectors_writes. simpl.
      apply apply_writes_twice.
    - subst w2. by rewrite (ext_override _ _ (Hext v')).
    - subst w2. by rewrite (ext_heap _ _ (Hext v')). }
  rewrite !Hflag.
  destruct (existsb _ _ && ignore); simpl; [|split; [|done]].
  - split; [|done].
    set (w1 := (foldl step (false, w) (pkgset_iter s)).2).
    assert (same_state
              (foldl step (false, print "ERROR: Abort due to missing packages" w1)
                 (pkgset_iter s)).2 w1) as [? ? ? ? ?].
    { apply Hagain. by split. }
    by split.
  - set (w1 := (foldl step (false, w) (pkgset_iter s)).2).
    assert (same_state (foldl step (false, w1) (pkgset_iter s)).2 w1)
      as [? ? ? ? ?].
    { apply Hagain. by split. }
    by split.
Qed.

(** ** Lines of the support-status file *)

Lemma no_space_app (s t : string) :
  no_space (s +:+ t) = no_space s && no_space t.
Proof.
  induction s as [|a s IH]; [done|].
  rewrite string_app_cons. simpl. rewrite IH. by rewrite andb_assoc.
Qed.

Lemma all_space_app (s t : string) :
  all_space (s +:+ t) = all_space s && all_space t.
Proof.
  induction s as [|a s IH]; [done|].
  rewrite string_app_cons. simpl. rewrite IH. by rewrite andb_assoc.
Qed.

Lemma no_space_rev (s : string) : no_space (String.rev s) = no_space s.
Proof.
  induction s as [|a s IH]; [done|].
  rewrite rev_cons, no_space_app, IH. simpl.
  rewrite andb_true_r. apply andb_comm.
Qed.

Lemma all_space_rev (s : string) : all_space (String.rev s) = all_space s.
Proof.
  induction s as [|a s IH]; [done|].
  rewrite rev_cons, all_space_app, IH. simpl.
  rewrite andb_true_r. apply andb_comm.
Qed.

Lemma rev_nonempty (s : string) : s ≠ "" → String.rev s ≠ "".
Proof.
  intros Hs Hrev. apply Hs. by rewrite <-(rev_involutive s), Hrev.
Qed.

Lemma lstrip_all_space (ws s : string) :
  all_space ws = true → PyStr.lstrip (ws +:+ s) = PyStr.lstrip s.
Proof.
  induction ws as [|a ws IH]; [done|]. simpl.
  intros [Ha Hws]%andb_true_iff. simpl.
  rewrite Ha. by apply IH.
Qed.

(** A string that starts with a word is not shortened from the left. *)
Lemma lstrip_word (x s : string) :
  no_space x = true → x ≠ "" → PyStr.lstrip (x +:+ s) = x +:+ s.
Proof.
  destruct x as [|a x]; [done|]. simpl.
  intros [Ha _]%andb_true_iff _. simpl.
  by destruct (PyStr.is_space a).
Qed.

Lemma lstrip_spaces (ws : string) :
  all_space ws = true → PyStr.lstrip ws = "".
Proof.
  intros Hws. rewrite <-(string_app_nil_r ws).
  by rewrite lstrip_all_space.
Qed.

(** [strip] removes the white space around a text that begins and ends
    with a word. *)
Lemma strip_between (lead x mid y trail : string) :
  all_space lead = true → all_space trail = true →
  no_space x = true → x ≠ "" → no_space y = true → y ≠ "" →
  PyStr.strip (lead +:+ (x +:+ mid +:+ y) +:+ trail) = x +:+ mid +:+ y.
Proof.
  intros Hlead Htrail Hx Hx0 Hy Hy0. unfold PyStr.strip.
  rewrite lstrip_all_space by done.
  rewrite !string_app_assoc, lstrip_word by done.
  rewrite <-!string_app_assoc. rewrite !rev_app_distr.
  rewrite !string_app_assoc.
  rewrite lstrip_all_space by (by rewrite all_space_rev).
  rewrite lstrip_word;
    [|by rewrite no_space_rev|by apply rev_nonempty].
  rewrite <-!rev_app_distr, rev_involutive. by rewrite !string_app_assoc.
Qed.

Lemma strip_word (lead x trail : string) :
  all_space lead = true → all_space trail = true →
  no_space x = true → x ≠ "" →
  PyStr.strip (lead +:+ x +:+ trail) = x.
Proof.
  intros Hlead Htrail Hx Hx0. unfold PyStr.strip.
  rewrite lstrip_all_space by done.
  rewrite lstrip_word by done.
  rewrite rev_app_distr.
  rewrite lstrip_all_space by (by rewrite all_space_rev).
  rewrite <-(string_app_nil_r (String.rev x)).
  rewrite lstrip_word;
    [|by rewrite no_space_rev|by apply rev_nonempty].
  by rewrite string_app_nil_r, rev_involutive.
Qed.

Lemma split_go_word (x cur r : string) :
  no_space x = true →
  PyStr.split_go cur (x +:+ String " " r)
  = String.rev (String.rev_app x cur) :: PyStr.split_go "" r.
Proof.
  revert cur. induction x as [|a x IH]; intros cur; [done|]. simpl.
  intros [Ha Hx]%andb_true_iff. simpl.
  destruct (Ascii.eqb a " ") eqn:Heq.
  - apply Ascii.eqb_eq in Heq. by subst.
  - by apply IH.
Qed.

Lemma split_go_last (x cur : string) :
  no_space x = true →
  PyStr.split_go cur x = [String.rev (String.rev_app x cur)].
Proof.
  revert cur. induction x as [|a x IH]; intros cur; [done|]. simpl.
  intros [Ha Hx]%andb_true_iff.
  destruct (Ascii.eqb a " ") eqn:Heq.
  - apply Ascii.eqb_eq in Heq. by subst.
  - by apply IH.
Qed.

Lemma rev_rev_app (x : string) : String.rev (String.rev_app x "") = x.
Proof. apply rev_involutive. Qed.

Lemma for_each_app {A S} (body : A → S → M S) (l1 l2 : list A) (acc : S) w :
  for_each body (l1 ++ l2) acc w
  = (acc' ← for_each body l1 acc; for_each body l2 acc') w.
Proof.
  revert acc w. induction l1 as [|x l1 IH]; intros acc w; [done|].
  simpl. unfold mbind, M_bind in *.
  destruct (body x acc w) as [[acc'| |] w']; [apply IH|done..].
Qed.

(** X5.  In a support-status file of ASCII text, a line that holds a
    name, one blank and a status, with white space before and after at
    will (the newline that [readlines] keeps is part of it), binds the
    name to the status in the override table and changes nothing else;
    coming after other lines it overwrites what they gave the name. *)
Theorem supportstatus_line_is_read_back
    (lead name status trail : string) (lines : list string) (w w' : World) :
  ascii_text name = true → ascii_text status = true →
  Forall (λ line, ascii_text line = true) lines →
  all_space lead = true → all_space trail = true →
  no_space name = true → name ≠ "" →
  no_space status = true → status ≠ "" →
  parse_supportstatus_line
    (lead +:+ (name +:+ " " +:+ status) +:+ trail) tt w
  = (Normal tt, set_override <[name := status]> w)
  ∧ (parse_supportstatus lines w = (Normal tt, w') →
     parse_supportstatus
       (lines ++ [lead +:+ (name +:+ " " +:+ status) +:+ trail]) w
     = (Normal tt, set_override <[name := status]> w')
     ∧ supportstatus_override
         (parse_supportstatus
            (lines ++ [lead +:+ (name +:+ " " +:+ status) +:+ trail]) w).2
         !! name = Some status).
Proof.
  intros _ _ _ Hlead Htrail Hname Hname0 Hstatus Hstatus0.
  assert (∀ v, parse_supportstatus_line
                 (lead +:+ (name +:+ " " +:+ status) +:+ trail) tt v
               = (Normal tt, set_override <[name := status]> v)) as Hline.
  { intros v. unfold parse_supportstatus_line.
    rewrite strip_between by done. unfold PyStr.split.
    change (" " +:+ status) with (String " " status).
    rewrite split_go_word, split_go_last by done.
    by rewrite !rev_rev_app. }
  split; [apply Hline|].
  intros Hlines.
  assert (parse_supportstatus
            (lines ++ [lead +:+ (name +:+ " " +:+ status) +:+ trail]) w
          = (Normal tt, set_override <[name := status]> w')) as Hall.
  { unfold parse_supportstatus in *. rewrite for_each_app.
    unfold mbind, M_bind. rewrite Hlines. simpl.
    unfold mbind, M_bind. by rewrite Hline. }
  split; [exact Hall|]. rewrite Hall. simpl. apply lookup_insert_eq.
Qed.

Lemma supportstatus_line_is_read_back_witness :
  parse_supportstatus_line "  foo l3 " tt (Fixture.world [])
  = (Normal tt, set_override <[ "foo" := "l3" ]> (Fixture.world [])).
Proof.
  apply (supportstatus_line_is_read_back "  " "foo" "l3" " " []
           (Fixture.world []) (Fixture.world []));
    reflexivity || done || constructor.
Defined.

(** X6.  A line of the support-status file that is blank, or holds one
    word only, makes [parse_supportstatus] raise the [IndexError] of
    [a[1]]: the lines before it have been applied, the lines after it are
    not read. *)
Theorem supportstatus_short_line_raises
    (lead word trail : string) (before after : list string) (w w' : World) :
  all_space lead = true → all_space trail = true →
  no_space word = true →
  parse_supportstatus before w = (Normal tt, w') →
  parse_supportstatus (before ++ (lead +:+ word +:+ trail) :: after) w
  = (Raised "IndexError: list index out of range", w').
Proof.
  intros Hlead Htrail Hword Hbefore.
  assert (PyStr.split (PyStr.strip (lead +:+ word +:+ trail)) = [word])
    as Hsplit.
  { destruct (decide (word = "")) as [->|Hw0].
    - unfold PyStr.strip.
      rewrite (lstrip_spaces (lead +:+ "" +:+ trail))
        by (rewrite all_space_app, Hlead; exact Htrail).
      done.
    - rewrite strip_word by done. unfold PyStr.split.
      rewrite split_go_last by done. by rewrite rev_rev_app. }
  unfold parse_supportstatus in *. rewrite for_each_app.
  unfold mbind, M_bind. rewrite Hbefore. simpl.
  unfold mbind, M_bind, parse_supportstatus_line. by rewrite Hsplit.
Qed.

Lemma supportstatus_short_line_raises_witness :
  parse_supportstatus ["foo l3"; String "010" ""; "bar l2"]
    (Fixture.world [])
  = (Raised "IndexError: list index out of range",
     set_override <[ "foo" := "l3" ]> (Fixture.world [])).
Proof.
  apply (supportstatus_short_line_raises (String "010" "") "" ""
           ["foo l3"] ["bar l2"] (Fixture.world []));
    reflexivity.
Defined.

(** ** The legacy package lists *)

Section LegacyLists.
Context {PkgSet : Type} `{!PkgSetOps PkgSet}.

Lemma compat_all_skipped arch flavor (entries : list entry) (s : PkgSet) :
  Forall (λ e, active arch flavor e = false) entries →
  fold_result (compat_step arch flavor) (CompatDict <$> entries) s = Ok s.
Proof.
  induction 1 as [|e entries He _ IH]; [done|].
  simpl. unfold mbind, result_bind, active in *.
  destruct (skipped_by_flavor flavor e); simpl in *; [exact IH|].
  destruct (skipped_by_arch arch e); simpl in *; [exact IH|done].
Qed.

(** X7.  A document without [packagesets] defines two sets at most.  Any
    name other than main and unpack is fatal, "is not defined", whatever
    the legacy lists hold; main is fatal in the same way without the
    [packages] list, while unpack without [unpack_packages] is the empty
    set; and a [packages] list whose entries are all filtered out for the
    flavor or the architecture gives the empty main set, not an error. *)
Theorem legacy_lists_define_two_sets
    (yml : Yml) (arch : string) (flavor : option string) :
  y_packagesets yml = None →
  (∀ setname, setname ≠ "main" → setname ≠ "unpack" →
     create_package_set yml arch flavor setname = Die (not_defined setname))
  ∧ (y_packages yml = None →
     create_package_set yml arch flavor "main" = Die (not_defined "main"))
  ∧ (y_unpack_packages yml = None →
     create_package_set yml arch flavor "unpack" = Ok (PkgSet_new "unpack"))
  ∧ (∀ entries,
       y_packages yml = Some (CompatDict <$> entries) →
       Forall (λ e, active arch flavor e = false) entries →
       create_package_set yml arch flavor "main" = Ok (PkgSet_new "main")).
Proof.
  intros Hlegacy. unfold create_package_set, create_package_set_compat.
  rewrite Hlegacy. repeat split.
  - intros setname Hmain Hunpack.
    by rewrite !bool_decide_eq_false_2 by done.
  - by intros ->.
  - by intros ->.
  - intros entries -> Hskipped. simpl. unfold mbind, result_bind.
    by rewrite compat_all_skipped.
Qed.

(** X8.  One dictionary of the legacy [packages] list and the same
    dictionary as the only [packagesets] entry give the same main set,
    when the entry lists packages and has no status and no set operation:
    filtered out, both give the empty set.  They part on an entry that is
    not filtered out and has no [packages] key: the legacy reader raises
    the [KeyError] of [entry['packages']], the other declares the empty
    set. *)
Theorem legacy_entry_agrees_with_packageset
    (yml : Yml) (arch : string) (flavor : option string) (e : entry) :
  y_packagesets yml = None →
  y_packages yml = Some [CompatDict e] →
  entry_name e = "main" →
  e_str e !! "supportstatus" = None →
  e_seq e !! "add" = None → e_seq e !! "sub" = None →
  e_seq e !! "intersect" = None →
  (∀ spec specs, e_seq e !! "packages" = Some (spec :: specs) →
     create_package_set (with_packagesets [e] yml) arch flavor "main"
     = create_package_set yml arch flavor "main")
  ∧ (e_seq e !! "packages" = None → active arch flavor e = true →
     create_package_set yml arch flavor "main" = Raise "KeyError: 'packages'"
     ∧ create_package_set (with_packagesets [e] yml) arch flavor "main"
       = Ok (PkgSet_new "main")).
Proof.
  intros Hlegacy Hpackages Hname Hstatus Hadd Hsub Hintersect.
  unfold create_package_set, create_package_set_compat, eval_packagesets.
  rewrite Hlegacy, Hpackages.
  assert (∀ st : PkgSet * gmap string (option PkgSet),
            fold_result (setop_step "main" e) ["add"; "sub"; "intersect"] st
            = Ok st) as Hsetops.
  { intros st. simpl. unfold mbind, result_bind, setop_step.
    by rewrite Hadd, Hsub, Hintersect. }
  cbn [fold_result with_packagesets y_packagesets].
  unfold mbind, result_bind, entry_step, compat_step, active.
  rewrite Hname, Hstatus, lookup_empty. cbn [mjoin option_join].
  rewrite bool_decide_eq_false_2 by (by intros [? ?]).
  split.
  - intros spec specs ->. rewrite Hsetops. cbn [snd].
    destruct (skipped_by_flavor flavor e);
      [by rewrite lookup_insert_eq|].
    destruct (skipped_by_arch arch e);
      [by rewrite lookup_insert_eq|].
    cbn [mbind result_bind snd]. by rewrite lookup_insert_eq.
  - intros -> Hactive. rewrite Hsetops. cbn [snd].
    destruct (skipped_by_flavor flavor e); [done|].
    destruct (skipped_by_arch arch e); [done|].
    cbn [mbind result_bind snd]. by rewrite lookup_insert_eq.
Qed.

End LegacyLists.

Lemma legacy_lists_define_two_sets_witness :
  create_package_set (PkgSet := SpecPkgSet.t)
    (mkYml "prod" "1.0" None [] 0 None
       (Some [CompatSpec "foo"]) None None None None)
    "x86_64" None "extra"
  = Die (not_defined "extra").
Proof.
  apply (legacy_lists_define_two_sets (PkgSet := SpecPkgSet.t)
           (mkYml "prod" "1.0" None [] 0 None
              (Some [CompatSpec "foo"]) None None None None)
           "x86_64" None); done.
Defined.

Lemma legacy_entry_agrees_with_packageset_witness :
  create_package_set (PkgSet := SpecPkgSet.t)
    (with_packagesets
       [Fixture.entry_of [] [("packages", ["foo"; "bar"])]]
       (mkYml "prod" "1.0" None [] 0 None
          (Some [CompatDict
                   (Fixture.entry_of [] [("packages", ["foo"; "bar"])])])
          None None None None))
    "x86_64" None "main"
  = create_package_set (PkgSet := SpecPkgSet.t)
      (mkYml "prod" "1.0" None [] 0 None
         (Some [CompatDict
                  (Fixture.entry_of [] [("packages", ["foo"; "bar"])])])
         None None None None)
      "x86_64" None "main".
Proof.
  eapply (legacy_entry_agrees_with_packageset (PkgSet := SpecPkgSet.t));
    reflexivity.
Defined.

(** ** The name of the product directory *)

(** What [get_product_dir] does to the world: the list of architectures
    loses its first local, and a name with a slash leaves the message of
    [die]. *)
Lemma get_product_dir_world yml flavor release w :
  (get_product_dir yml flavor release w).2
  = let w1 :=
      if PyStr.mem "local" (deref (y_architectures yml) w)
      then set_heap <[y_architectures yml :=
             PyStr.remove "local" (deref (y_architectures yml) w)]> w
      else w in
    match (get_product_dir yml flavor release w).1 with
    | Normal _ => w1
    | _ => print "ERROR: Illegal product name" w1
    end.
Proof.
  unfold get_product_dir, mbind, M_bind. cbv zeta.
  destruct (deref (y_architectures yml) w) as [|a archs] eqn:Harchs.
  - unfold PyStr.mem. rewrite bool_decide_eq_false_2 by apply not_elem_of_nil.
    by destruct (PyStr.has_char _ _).
  - by destruct (PyStr.has_char _ _).
Qed.

Lemma get_product_dir_outcome yml flavor release w :
  (∃ name, (get_product_dir yml flavor release w).1 = Normal name
           ∧ PyStr.has_char "/" name = false)
  ∨ (get_product_dir yml flavor release w).1 = Exit 1.
Proof.
  rewrite get_product_dir_name.
  destruct (deref (y_architectures yml) w) as [|a archs];
    destruct (PyStr.has_char _ _) eqn:Hslash; eauto.
Qed.

(** X9.  [get_product_dir] returns one path component or leaves the
    build: a name it returns holds no slash, and nothing was printed;
    otherwise the exit code is 1 and the last line printed is the error
    "Illegal product name".  Either way the output tree, the manifest and
    the status tables are untouched, and of the shared lists only the
    architectures of the document can have changed. *)
Theorem product_dir_is_one_path_component
    (yml : Yml) (flavor release : option string) (w : World) :
  ((∃ name, (get_product_dir yml flavor release w).1 = Normal name
            ∧ PyStr.has_char "/" name = false
            ∧ stdout (get_product_dir yml flavor release w).2 = stdout w)
   ∨ ((get_product_dir yml flavor release w).1 = Exit 1
      ∧ stdout (get_product_dir yml flavor release w).2
        = stdout w ++ ["ERROR: Illegal product name"]))
  ∧ fs (get_product_dir yml flavor release w).2 = fs w
  ∧ tree_report (get_product_dir yml flavor release w).2 = tree_report w
  ∧ supportstatus (get_product_dir yml flavor release w).2 = supportstatus w
  ∧ supportstatus_override (get_product_dir yml flavor release w).2
    = supportstatus_override w
  ∧ (∀ l, l ≠ y_architectures yml →
       heap (get_product_dir yml flavor release w).2 !! l = heap w !! l).
Proof.
  rewrite get_product_dir_world. cbv zeta.
  set (w1 := if PyStr.mem _ _ then _ else w).
  assert (fs w1 = fs w ∧ tree_report w1 = tree_report w
          ∧ supportstatus w1 = supportstatus w
          ∧ supportstatus_override w1 = supportstatus_override w
          ∧ stdout w1 = stdout w
          ∧ ∀ l, l ≠ y_architectures yml → heap w1 !! l = heap w !! l)
    as (Hfs & Hreport & Hstatus & Hoverride & Hout & Hheap).
  { subst w1. destruct (PyStr.mem _ _); simpl; repeat split; try done.
    intros l Hl. by rewrite lookup_insert_ne. }
  destruct (get_product_dir_outcome yml flavor release w)
    as [(name & -> & Hslash)| ->]; simpl.
  - repeat split; try done. left. by exists name.
  - rewrite Hout. repeat split; try done. by right.
Qed.

(** X10.  With the build option hide_flavor_in_product_directory_name
    the flavor has no part in the call: the name and the world are those
    of a build without a flavor.  An empty flavor and an empty release act
    as none given. *)
Theorem hidden_flavor_does_not_name_the_directory
    (yml : Yml) (flavor release : option string) (w : World) :
  (PyStr.mem "hide_flavor_in_product_directory_name" (y_build_options yml)
   = true →
   get_product_dir yml flavor release w = get_product_dir yml None release w)
  ∧ get_product_dir yml (Some "") release w
    = get_product_dir yml None release w
  ∧ get_product_dir yml flavor (Some "") w
    = get_product_dir yml flavor None w.
Proof.
  split; [|split].
  - intros Hhide. unfold get_product_dir, name_prefix.
    by rewrite Hhide, andb_false_r.
  - done.
  - done.
Qed.

Lemma name_suffix_length release name :
  String.length (name_suffix release name)
  = (String.length name
     + String.length (name_suffix release ""))%nat.
Proof.
  unfold name_suffix. destruct (nonempty release); simpl; [|lia].
  by rewrite !string_length_app.
Qed.

(** X11.  The product name is settled by the first call only when an
    architecture is left.  On distinct architectures of which one other
    than local is listed, a second call returns the name of the first and
    changes nothing; on the list that names local alone the first call
    ends the name before the release in a dash, the second call finds the
    list empty and returns the name without it. *)
Theorem product_dir_second_call
    (yml : Yml) (flavor release : option string) (w : World) :
  NoDup (deref (y_architectures yml) w) →
  (PyStr.remove "local" (deref (y_architectures yml) w) ≠ [] →
   ∀ name,
     (get_product_dir yml flavor release w).1 = Normal name →
     get_product_dir yml flavor release
       (get_product_dir yml flavor release w).2
     = (Normal name, (get_product_dir yml flavor release w).2))
  ∧ (deref (y_architectures yml) w = ["local"] →
     ∀ name,
       (get_product_dir yml flavor release w).1 = Normal name →
       name = name_suffix release (name_prefix yml flavor +:+ "-")
       ∧ (get_product_dir yml flavor release
            (get_product_dir yml flavor release w).2).1
         = Normal (name_suffix release (name_prefix yml flavor))
       ∧ name ≠ name_suffix release (name_prefix yml flavor)).
Proof.
  intros Hnodup. split.
  - intros Hleft name Hname.
    pose proof (get_product_dir_heap yml flavor release w) as Hheap.
    set (w1 := (get_product_dir yml flavor release w).2) in *.
    assert ("local" ∉ deref (y_architectures yml) w1) as Hnone
      by (rewrite Hheap; by apply remove_nodup).
    assert ((get_product_dir yml flavor release w1).1 = Normal name)
      as Hagain.
    { rewrite get_product_dir_name, Hheap.
      rewrite get_product_dir_name in Hname.
      rewrite (remove_absent "local" (PyStr.remove _ _))
        by (by rewrite <-Hheap).
      destruct (deref (y_architectures yml) w) as [|a archs]; [done|].
      by destruct (PyStr.remove "local" (a :: archs)). }
    pose proof (get_product_dir_world yml flavor release w1) as Hworld.
    rewrite Hagain in Hworld. cbv zeta in Hworld.
    unfold PyStr.mem in Hworld.
    rewrite bool_decide_eq_false_2 in Hworld by done.
    destruct (get_product_dir yml flavor release w1) as [o w2].
    simpl in *. by subst.
  - intros Hlocal name Hname.
    pose proof (get_product_dir_heap yml flavor release w) as Hheap.
    rewrite get_product_dir_name in Hname |- *.
    rewrite Hheap, Hlocal in *. simpl in *.
    assert (∀ s, s +:+ "-" +:+ "" = s +:+ "-") as Hdash by done.
    destruct (PyStr.has_char "/"
                (name_suffix release (name_prefix yml flavor +:+ "-" +:+ "")))
      eqn:Hslash; [done|].
    injection Hname as <-.
    assert (PyStr.has_char "/"
              (name_suffix release (name_prefix yml flavor)) = false)
      as ->.
    { revert Hslash. unfold name_suffix.
      destruct (nonempty release).
      - generalize (name_prefix yml flavor). intros s.
        induction s as [|a s IH]; simpl; [done|].
        destruct (Ascii.eqb a "/"); [done|]. exact IH.
      - generalize (name_prefix yml flavor). intros s.
        induction s as [|a s IH]; simpl; [done|].
        destruct (Ascii.eqb a "/"); [done|]. exact IH. }
    repeat split; try done.
    intros Heq. apply (f_equal String.length) in Heq.
    rewrite (name_suffix_length release (_ +:+ _)) in Heq.
    rewrite (name_suffix_length release (name_prefix yml flavor)) in Heq.
    rewrite !string_length_app in Heq. simpl in Heq. lia.
Qed.

Lemma hidden_flavor_does_not_name_the_directory_witness :
  get_product_dir
    (Fixture.product ["hide_flavor_in_product_directory_name"] [])
    (Some "full") None (Fixture.world ["x86_64"])
  = get_product_dir
      (Fixture.product ["hide_flavor_in_product_directory_name"] [])
      None None (Fixture.world ["x86_64"]).
Proof.
  apply (proj1 (hidden_flavor_does_not_name_the_directory
           (Fixture.product ["hide_flavor_in_product_directory_name"] [])
           (Some "full") None (Fixture.world ["x86_64"]))).
  reflexivity.
Defined.

Lemma product_dir_second_call_witness :
  get_product_dir (Fixture.product [] []) None None
    (get_product_dir (Fixture.product [] []) None None
       (Fixture.world ["local"; "x86_64"])).2
  = (Normal "prod-1.0-x86_64",
     (get_product_dir (Fixture.product [] []) None None
        (Fixture.world ["local"; "x86_64"])).2).
Proof.
  apply (product_dir_second_call (Fixture.product [] []) None None
           (Fixture.world ["local"; "x86_64"])).
  - apply (bool_decide_unpack _). vm_compute. exact I.
  - vm_compute. done.
  - reflexivity.
Defined.

(** ** The flavor of a build *)

Lemma split_on_go_field c (x cur r : string) :
  PyStr.has_char c x = false →
  PyStrMore.split_on_go c cur (x +:+ String c r)
  = String.rev (String.rev_app x cur) :: PyStrMore.split_on_go c "" r.
Proof.
  revert cur. induction x as [|a x IH]; intros cur; simpl.
  - by rewrite Ascii.eqb_refl.
  - destruct (Ascii.eqb a c); [done|]. apply IH.
Qed.

Lemma split_on_go_end c (x cur : string) :
  PyStr.has_char c x = false →
  PyStrMore.split_on_go c cur x = [String.rev (String.rev_app x cur)].
Proof.
  revert cur. induction x as [|a x IH]; intros cur; simpl; [done|].
  destruct (Ascii.eqb a c); [done|]. apply IH.
Qed.

(** Every string is a field without the separator followed by nothing or
    by the separator and a rest. *)
Lemma first_field c (s : string) :
  ∃ f rest, s = f +:+ rest ∧ PyStr.has_char c f = false
            ∧ (rest = "" ∨ ∃ r, rest = String c r).
Proof.
  induction s as [|a s (f & rest & -> & Hf & Hrest)].
  - exists "", "". eauto.
  - destruct (Ascii.eqb a c) eqn:Hac.
    + apply Ascii.eqb_eq in Hac as ->.
      exists "", (String c (f +:+ rest)). eauto.
    + exists (String a f), rest. simpl. rewrite Hac. eauto.
Qed.

Lemma split_on_first c (f rest : string) :
  PyStr.has_char c f = false →
  rest = "" ∨ (∃ r, rest = String c r) →
  ∃ tl, PyStrMore.split_on c (f +:+ rest) = f :: tl.
Proof.
  intros Hf [->|[r ->]]; unfold PyStrMore.split_on.
  - rewrite string_app_nil_r, split_on_go_end by done.
    rewrite rev_rev_app. by exists [].
  - rewrite split_on_go_field by done. rewrite rev_rev_app. eauto.
Qed.

(** X12.  The flavor of a build is the text of [--flavor] before its
    first dot, and there is one only when that text is not empty: it is
    never the empty string and holds no dot. *)
Theorem flavor_is_the_text_before_the_first_dot
    (arg : option string) (f : string) :
  build_flavor arg = Some f
  ↔ f ≠ "" ∧ PyStr.has_char "." f = false
    ∧ ∃ rest, arg = Some (f +:+ rest)
              ∧ (rest = "" ∨ ∃ r, rest = String "." r).
Proof.
  split.
  - destruct arg as [a|]; [|done]. unfold build_flavor.
    case_bool_decide as Ha; [done|].
    destruct (first_field "." a) as (f0 & rest & -> & Hf0 & Hrest).
    destruct (split_on_first "." f0 rest Hf0 Hrest) as [tl ->].
    case_bool_decide as Hempty; [done|].
    intros [= <-]. eauto.
  - intros (Hf & Hdot & rest & -> & Hrest). unfold build_flavor.
    rewrite bool_decide_eq_false_2
      by (destruct f; [done|by rewrite string_app_cons]).
    destruct (split_on_first "." f rest Hdot Hrest) as [tl ->].
    by rewrite bool_decide_eq_false_2.
Qed.

(** ** Disk usage *)

Lemma du_files_fold (fds : list filedata) (seen : gset string) (s c : Z) :
  ∃ seen',
    foldl du_file (seen, s, c) fds
    = (seen', (s + total_size fds)%Z, (c + file_count fds)%Z).
Proof.
  revert seen s c. induction fds as [|fd fds IH]; intros seen s c.
  - exists seen. unfold total_size, file_count. simpl.
    by rewrite !Z.add_0_r.
  - cbn [foldl du_file].
    destruct (IH (match fd_cookie fd with
                  | Some cookie =>
                      if bool_decide (cookie = "") then seen
                      else {[cookie]} ∪ seen
                  | None => seen
                  end) (s + fd_size fd)%Z (c + 1)%Z) as [seen' ->].
    exists seen'. unfold total_size, file_count.
    cbn [fmap list_fmap foldr List.length]. f_equal; [f_equal|]; lia.
Qed.

(** The dictionaries after one directory: its bytes and the number of
    its files are added along its path; the cookies seen play no part. *)
Lemma du_dir_dicts maxdepth st item :
  (du_dir maxdepth st item).2
  = du_components maxdepth (total_size item.2) (file_count item.2)
      (PyStrMore.split_on "/" (du_dirname item.1)) "" 0%Z st.2.
Proof.
  unfold du_dir.
  destruct (du_files_fold item.2 st.1 0 0) as [seen' ->]. done.
Qed.

Lemma du_dirs_same maxdepth dirs1 dirs2 :
  Forall2 same_sizes dirs1 dirs2 →
  ∀ st1 st2, st1.2 = st2.2 →
    (foldl (du_dir maxdepth) st1 dirs1).2
    = (foldl (du_dir maxdepth) st2 dirs2).2.
Proof.
  induction 1 as [|a b dirs1 dirs2 [Hname Hsizes] _ IH];
    intros st1 st2 Hst; [done|].
  simpl. apply IH. rewrite !du_dir_dicts.
  unfold total_size, file_count. by rewrite Hname, Hsizes, Hst.
Qed.

(** X13.  The disk usage data depends on the names of the directories
    and on the sizes of their files only: two listings that agree on
    these give the same data.  The cookies of the files are among what it
    does not depend on: a file that shares its cookie with one seen
    before is counted like any other. *)
Theorem du_data_reads_names_and_sizes
    (dirs1 dirs2 : list (string * list filedata)) (maxdepth : Z) :
  Forall2 same_sizes dirs1 dirs2 →
  generate_du_data dirs1 maxdepth = generate_du_data dirs2 maxdepth
  ∧ generate_du_data (without_cookies dirs1) maxdepth
    = generate_du_data dirs1 maxdepth.
Proof.
  intros Hsame.
  assert (∀ d1 d2, Forall2 same_sizes d1 d2 →
            generate_du_data d1 maxdepth = generate_du_data d2 maxdepth)
    as Hgen.
  { intros d1 d2 Hd. unfold generate_du_data. cbv zeta.
    by rewrite (du_dirs_same maxdepth d1 d2 Hd (∅, (∅, ∅)) (∅, (∅, ∅))). }
  split; [by apply Hgen|]. apply Hgen. unfold without_cookies.
  apply Forall2_fmap_l, Forall_Forall2_diag, Forall_forall.
  intros item _. split; [done|]. simpl.
  rewrite <-list_fmap_compose. by apply list_fmap_ext.
Qed.

Lemma du_data_reads_names_and_sizes_witness :
  generate_du_data
    [("/usr/bin", [mkFiledata "ls" 10 (Some "7"); mkFiledata "dir" 10 (Some "7")])]
    3
  = generate_du_data
      [("/usr/bin", [mkFiledata "a" 10 None; mkFiledata "b" 10 None])] 3.
Proof.
  apply (du_data_reads_names_and_sizes
           [("/usr/bin",
             [mkFiledata "ls" 10 (Some "7"); mkFiledata "dir" 10 (Some "7")])]
           [("/usr/bin", [mkFiledata "a" 10 None; mkFiledata "b" 10 None])]
           3).
  repeat constructor.
Defined.

Lemma du_add_same_keys subdir size count st :
  same_keys st → same_keys (du_add subdir size count st).
Proof.
  intros Hkeys k. unfold du_add.
  case_bool_decide as Hin; cbn [fst snd].
  - rewrite !lookup_alter_None. apply Hkeys.
  - rewrite !lookup_alter_None.
    destruct (decide (k = subdir)) as [->|Hne].
    + by rewrite !lookup_insert_eq.
    + rewrite !lookup_insert_ne by done. apply Hkeys.
Qed.

Lemma du_add_other subdir size count st k :
  k ≠ subdir →
  (du_add subdir size count st).1 !! k = st.1 !! k
  ∧ (du_add subdir size count st).2 !! k = st.2 !! k.
Proof.
  intros Hne. unfold du_add.
  case_bool_decide as Hin; cbn [fst snd];
    by rewrite !lookup_alter_ne, ?lookup_insert_ne by done.
Qed.

Lemma du_add_self subdir size count st :
  same_keys st →
  (du_add subdir size count st).1 !! subdir
  = Some (default 0 (st.1 !! subdir) + size)%Z
  ∧ (du_add subdir size count st).2 !! subdir
    = Some (default 0 (st.2 !! subdir) + count)%Z.
Proof.
  intros Hkeys. unfold du_add.
  case_bool_decide as Hin; cbn [fst snd].
  - rewrite !lookup_alter_eq.
    destruct Hin as [n Hn]. rewrite Hn.
    destruct (st.2 !! subdir) as [c|] eqn:Hc; [done|].
    apply Hkeys in Hc. congruence.
  - rewrite !lookup_alter_eq, !lookup_insert_eq.
    apply eq_None_not_Some in Hin. rewrite Hin.
    apply Hkeys in Hin. by rewrite Hin.
Qed.

Lemma du_components_same_keys maxdepth size count comps subdir depth st :
  same_keys st →
  same_keys (du_components maxdepth size count comps subdir depth st).
Proof.
  revert subdir depth st.
  induction comps as [|comp comps IH]; intros subdir depth st Hkeys; [done|].
  cbn [du_components]. destruct (_ <? _)%Z.
  - by apply du_add_same_keys.
  - by apply IH, du_add_same_keys.
Qed.

(** The loop over the path writes below [subdir] only: a key that is not
    longer than [subdir] keeps its values. *)
Lemma du_components_frame maxdepth size count comps subdir depth st k :
  (String.length k ≤ String.length subdir)%nat →
  (du_components maxdepth size count comps subdir depth st).1 !! k
  = st.1 !! k
  ∧ (du_components maxdepth size count comps subdir depth st).2 !! k
    = st.2 !! k.
Proof.
  revert subdir depth st.
  induction comps as [|comp comps IH]; intros subdir depth st Hlen; [done|].
  cbn [du_components].
  assert (k ≠ subdir +:+ comp +:+ "/") as Hne.
  { intros ->. rewrite !string_length_app in Hlen. simpl in Hlen. lia. }
  destruct (_ <? _)%Z.
  - by apply du_add_other.
  - destruct (IH (subdir +:+ comp +:+ "/") (depth + 1)%Z
                (du_add (subdir +:+ comp +:+ "/") size count st))
      as [-> ->].
    + rewrite !string_length_app. simpl. lia.
    + by apply du_add_other.
Qed.

Lemma split_on_du_dirname dir :
  ∃ comps, PyStrMore.split_on "/" (du_dirname dir) = "" :: comps.
Proof.
  unfold du_dirname, PyStrMore.split_on.
  change ("/" +:+ ?s) with (String "/" s). simpl. eauto.
Qed.

(** One directory adds its bytes and files to the root. *)
Lemma du_dir_root maxdepth st item :
  same_keys st.2 →
  (du_dir maxdepth st item).2.1 !! "/"
  = Some (default 0 (st.2.1 !! "/") + total_size item.2)%Z
  ∧ (du_dir maxdepth st item).2.2 !! "/"
    = Some (default 0 (st.2.2 !! "/") + file_count item.2)%Z
  ∧ same_keys (du_dir maxdepth st item).2.
Proof.
  intros Hkeys. rewrite du_dir_dicts.
  split; [|split]; [| |by apply du_components_same_keys].
  - destruct (split_on_du_dirname item.1) as [comps ->].
    cbn [du_components]. change ("" +:+ "" +:+ "/") with "/".
    destruct (_ <? _)%Z; [by apply du_add_self|].
    rewrite (proj1 (du_components_frame _ _ _ _ "/" _ _ "/" (le_n _))).
    by apply du_add_self.
  - destruct (split_on_du_dirname item.1) as [comps ->].
    cbn [du_components]. change ("" +:+ "" +:+ "/") with "/".
    destruct (_ <? _)%Z; [by apply du_add_self|].
    rewrite (proj2 (du_components_frame _ _ _ _ "/" _ _ "/" (le_n _))).
    by apply du_add_self.
Qed.

Lemma du_dirs_root maxdepth dirs st :
  same_keys st.2 →
  default 0%Z ((foldl (du_dir maxdepth) st dirs).2.1 !! "/")
  = (default 0 (st.2.1 !! "/") + (du_totals dirs).1)%Z
  ∧ default 0%Z ((foldl (du_dir maxdepth) st dirs).2.2 !! "/")
    = (default 0 (st.2.2 !! "/") + (du_totals dirs).2)%Z
  ∧ same_keys (foldl (du_dir maxdepth) st dirs).2
  ∧ (dirs ≠ [] →
     is_Some ((foldl (du_dir maxdepth) st dirs).2.1 !! "/")).
Proof.
  revert st. induction dirs as [|item dirs IH]; intros st Hkeys.
  - simpl. rewrite !Z.add_0_r. done.
  - cbn [foldl].
    destruct (du_dir_root maxdepth st item Hkeys) as (Hsize & Hcount & Hk).
    destruct (IH _ Hk) as (IH1 & IH2 & IH3 & IH4).
    rewrite IH1, IH2, Hsize, Hcount. unfold du_totals. simpl.
    split; [lia|]. split; [lia|]. split; [done|]. intros _.
    destruct dirs as [|item' dirs]; [cbn [foldl]; by rewrite Hsize|].
    by apply IH4.
Qed.

Lemma same_keys_empty : same_keys (∅, ∅).
Proof. intros k. simpl. by rewrite !lookup_empty. Qed.

Lemma du_dicts_same_keys dirs maxdepth : same_keys (du_dicts dirs maxdepth).
Proof.
  unfold du_dicts.
  by apply (du_dirs_root maxdepth dirs (∅, (∅, ∅))), same_keys_empty.
Qed.

(** The rows of the data are the entries of [dudata_size], each with the
    count of its key. *)
Lemma elem_of_generate_du_data dirs maxdepth k size count :
  (k, size, count) ∈ generate_du_data dirs maxdepth
  ↔ (du_dicts dirs maxdepth).1 !! k = Some size
    ∧ (du_dicts dirs maxdepth).2 !! k = Some count.
Proof.
  unfold generate_du_data. cbv zeta. fold (du_dicts dirs maxdepth).
  rewrite list_elem_of_fmap. split.
  - intros ([k' size'] & [= -> -> ->] & Hin).
    rewrite merge_sort_Permutation, elem_of_map_to_list in Hin.
    split; [done|]. simpl.
    destruct ((du_dicts dirs maxdepth).2 !! k') as [c|] eqn:Hc; [done|].
    apply (du_dicts_same_keys dirs maxdepth) in Hc. congruence.
  - intros [Hsize Hcount]. exists (k, size). simpl.
    rewrite Hcount. split; [done|].
    by rewrite merge_sort_Permutation, elem_of_map_to_list.
Qed.

(** X14.  Whatever the depth asked for, the data of a package that has a
    directory holds a row for the root, and this row gives the bytes and
    the number of all files of the package, a file that shares a cookie
    with another counted with it. *)
Theorem du_root_row_holds_the_totals
    (dirs : list (string * list filedata)) (maxdepth : Z) :
  dirs ≠ [] →
  ("/", (du_totals dirs).1, (du_totals dirs).2)
  ∈ generate_du_data dirs maxdepth.
Proof.
  intros Hdirs. apply elem_of_generate_du_data. unfold du_dicts.
  destruct (du_dirs_root maxdepth dirs (∅, (∅, ∅)) same_keys_empty)
    as (Hsize & Hcount & Hkeys & Hroot).
  specialize (Hroot Hdirs). cbn [fst snd] in *.
  rewrite lookup_empty in Hsize, Hcount. simpl in Hsize, Hcount.
  destruct Hroot as [n Hn]. rewrite Hn in Hsize. simpl in Hsize.
  destruct ((foldl (du_dir maxdepth) (∅, (∅, ∅)) dirs).2.2 !! "/")
    as [c|] eqn:Hc.
  - simpl in Hcount. by subst.
  - apply Hkeys in Hc. congruence.
Qed.

Lemma du_root_row_holds_the_totals_witness :
  ("/", 27%Z, 3%Z)
  ∈ generate_du_data
      [("/usr/bin", [mkFiledata "ls" 10 (Some "7");
                     mkFiledata "dir" 10 (Some "7")]);
       ("/etc/a/b/c/d", [mkFiledata "conf" 7 None])] 3.
Proof.
  apply (du_root_row_holds_the_totals
           [("/usr/bin", [mkFiledata "ls" 10 (Some "7");
                          mkFiledata "dir" 10 (Some "7")]);
            ("/etc/a/b/c/d", [mkFiledata "conf" 7 None])] 3).
  done.
Defined.

Global Instance key_le_total {A} : Total (@key_le A).
Proof. intros x y. unfold key_le. apply (total String.le). Qed.

Global Instance key_le_trans {A} : Transitive (@key_le A).
Proof. intros x y z. unfold key_le. apply (transitivity (R := String.le)). Qed.

(** X15.  The rows of the disk usage data are the entries of
    [dudata_size], each with the count [dudata_count] has for its
    directory: the two dictionaries have the same keys, so the lookup
    [dudata_count[dir]] of the last loop finds every directory.  The rows
    come in the order of their directories, and no directory has two. *)
Theorem du_rows_are_sorted_by_directory
    (dirs : list (string * list filedata)) (maxdepth : Z) :
  (∀ k size count,
     (k, size, count) ∈ generate_du_data dirs maxdepth
     ↔ (du_dicts dirs maxdepth).1 !! k = Some size
       ∧ (du_dicts dirs maxdepth).2 !! k = Some count)
  ∧ (∀ k, is_Some ((du_dicts dirs maxdepth).1 !! k)
          ↔ is_Some ((du_dicts dirs maxdepth).2 !! k))
  ∧ StronglySorted String.le
      ((λ row : string * Z * Z, row.1.1) <$> generate_du_data dirs maxdepth)
  ∧ NoDup
      ((λ row : string * Z * Z, row.1.1) <$> generate_du_data dirs maxdepth).
Proof.
  split; [|split; [|split]].
  - intros k size count. apply elem_of_generate_du_data.
  - intros k. rewrite <-!not_eq_None_Some.
    by rewrite (du_dicts_same_keys dirs maxdepth k).
  - unfold generate_du_data. cbv zeta. rewrite <-list_fmap_compose.
    apply (StronglySorted_fmap _ key_le); [by intros x y|].
    apply (StronglySorted_merge_sort key_le).
  - unfold generate_du_data. cbv zeta. rewrite <-list_fmap_compose.
    change (NoDup ((merge_sort key_le
      (map_to_list (foldl (du_dir maxdepth) (∅, (∅, ∅)) dirs).2.1)).*1)).
    rewrite merge_sort_Permutation. apply NoDup_fst_map_to_list.
Qed.

(** ** The depth of the disk usage data *)

Lemma has_char_app c (s t : string) :
  PyStr.has_char c (s +:+ t) = PyStr.has_char c s || PyStr.has_char c t.
Proof.
  induction s as [|a s IH]; [done|]. simpl.
  by destruct (Ascii.eqb a c).
Qed.

Lemma has_char_rev c (s : string) :
  PyStr.has_char c (String.rev s) = PyStr.has_char c s.
Proof.
  induction s as [|a s IH]; [done|].
  rewrite rev_cons, has_char_app, IH. simpl.
  destruct (Ascii.eqb a c); [apply orb_true_r|apply orb_false_r].
Qed.

Lemma split_on_go_fields c (cur s : string) :
  PyStr.has_char c cur = false →
  Forall (λ x, PyStr.has_char c x = false) (PyStrMore.split_on_go c cur s).
Proof.
  revert cur. induction s as [|a s IH]; intros cur Hcur; simpl.
  - constructor; [by rewrite has_char_rev|constructor].
  - destruct (Ascii.eqb a c) eqn:Hac.
    + constructor; [by rewrite has_char_rev|]. by apply IH.
    + apply IH. simpl. by rewrite Hac.
Qed.

Lemma slashes_app (s t : string) :
  slashes (s +:+ t) = (slashes s + slashes t)%Z.
Proof.
  induction s as [|a s IH]; [done|]. simpl. rewrite IH. lia.
Qed.

Lemma slashes_field (s : string) :
  PyStr.has_char "/" s = false → slashes s = 0%Z.
Proof.
  induction s as [|a s IH]; [done|]. simpl.
  destruct (Ascii.eqb a "/"); [done|]. intros Hs. rewrite IH by done. lia.
Qed.

Lemma du_add_keys subdir size count st k :
  is_Some ((du_add subdir size count st).1 !! k) →
  k = subdir ∨ is_Some (st.1 !! k).
Proof.
  destruct (decide (k = subdir)) as [->|Hne]; [by left|].
  rewrite (proj1 (du_add_other subdir size count st k Hne)). by right.
Qed.

Lemma du_components_depth maxdepth size count comps subdir depth st k :
  Forall (λ x, PyStr.has_char "/" x = false) comps →
  slashes subdir = depth →
  (depth = 0 ∨ depth ≤ maxdepth)%Z → (0 ≤ depth)%Z →
  is_Some ((du_components maxdepth size count comps subdir depth st).1 !! k) →
  is_Some (st.1 !! k) ∨ (1 ≤ slashes k ≤ Z.max 1 (maxdepth + 1))%Z.
Proof.
  revert subdir depth st.
  induction comps as [|comp comps IH];
    intros subdir depth st Hcomps Hsub Hdepth Hpos; [by left|].
  cbn [du_components].
  apply Forall_cons in Hcomps as [Hcomp Hcomps].
  assert (slashes (subdir +:+ comp +:+ "/") = (depth + 1)%Z) as Hnew.
  { rewrite !slashes_app, Hsub, slashes_field by done. simpl. lia. }
  assert (is_Some
            ((du_add (subdir +:+ comp +:+ "/") size count st).1 !! k) →
          is_Some (st.1 !! k)
          ∨ (1 ≤ slashes k ≤ Z.max 1 (maxdepth + 1))%Z) as Hadd.
  { intros [->|Hk]%du_add_keys; [right|by left]. rewrite Hnew. lia. }
  destruct (maxdepth <? depth + 1)%Z eqn:Hbreak; [exact Hadd|].
  apply Z.ltb_ge in Hbreak.
  intros Hk.
  destruct (IH (subdir +:+ comp +:+ "/") (depth + 1)%Z
              (du_add (subdir +:+ comp +:+ "/") size count st))
    as [Hst|Hbound]; [done|done|right; lia|lia|done| |by right].
  by apply Hadd.
Qed.

(** X16.  No row of the disk usage data lies deeper than the depth asked
    for allows: its directory has one slash at least, and no more than
    one more than [maxdepth]; below it the bytes and files are part of the
    rows of the directories above. *)
Theorem du_rows_stay_within_the_depth
    (dirs : list (string * list filedata)) (maxdepth : Z)
    (k : string) (size count : Z) :
  (k, size, count) ∈ generate_du_data dirs maxdepth →
  (1 ≤ slashes k ≤ Z.max 1 (maxdepth + 1))%Z.
Proof.
  intros [Hk _]%elem_of_generate_du_data.
  assert (∀ st : gset string * (gmap string Z * gmap string Z),
            (∀ k, is_Some (st.2.1 !! k) →
                  (1 ≤ slashes k ≤ Z.max 1 (maxdepth + 1))%Z) →
            ∀ k, is_Some ((foldl (du_dir maxdepth) st dirs).2.1 !! k) →
                 (1 ≤ slashes k ≤ Z.max 1 (maxdepth + 1))%Z) as Hall.
  { clear k Hk. induction dirs as [|item dirs IH]; intros st Hst; [done|].
    cbn [foldl]. apply IH. intros k. rewrite du_dir_dicts.
    intros [Hk|Hk]%du_components_depth; [by apply Hst|done| |done|by left|done].
    apply split_on_go_fields. done. }
  apply (Hall (∅, (∅, ∅))).
  - intros k'. simpl. rewrite lookup_empty. by intros [? ?].
  - unfold du_dicts in Hk. by rewrite Hk.
Qed.

Lemma du_rows_stay_within_the_depth_witness :
  (1 ≤ slashes "/etc/a/b/" ≤ Z.max 1 (3 + 1))%Z.
Proof.
  apply (du_rows_stay_within_the_depth
           [("/etc/a/b/c/d", [mkFiledata "conf" 7 None])] 3
           "/etc/a/b/" 7 1).
  apply (bool_decide_unpack _). vm_compute. exact I.
Defined.

(** ** The options of the tree *)

Section TreeOptions.
Context (ext : Externals).
Context (unpack_one_meta_rpm : string → Package → Z → M unit).
Context {PkgSet : Type} `{!PkgSetOps PkgSet}.

Lemma subtree_dir_bad option_name o maindir splitdir w :
  o ≠ "split" → o ≠ "include" → o ≠ "drop" →
  subtree_dir option_name (Some o) maindir splitdir w
  = (Exit 1, print (bad_option option_name) w).
Proof.
  intros Hsplit Hinclude Hdrop. unfold subtree_dir.
  rewrite !bool_decide_eq_false_2 by done. unfold die.
  rewrite bool_decide_eq_false_2; [done|].
  by destruct option_name.
Qed.

Lemma subtree_dir_plain option_name opt maindir splitdir w :
  plain_option opt →
  ∃ dir, subtree_dir option_name opt maindir splitdir w = (Normal dir, w).
Proof.
  intros [->|[->| ->]]; unfold subtree_dir; simpl; eauto.
Qed.

(** [if not os.path.exists(d): os.mkdir(d)]. *)
Lemma made_directory d w :
  let w1 := if path_exists d w then w else set_fs <[d := Directory]> w in
  tree_report w1 = tree_report w ∧ stdout w1 = stdout w
  ∧ heap w1 = heap w ∧ supportstatus w1 = supportstatus w
  ∧ (∀ p, p ≠ d → fs w1 !! p = fs w !! p)
  ∧ path_exists d w1 = true
  ∧ (∀ p, path_exists p w = true → path_exists p w1 = true).
Proof.
  cbv zeta. destruct (path_exists d w) eqn:Hd; [done|].
  simpl. repeat split; try done.
  - intros p Hp. by rewrite lookup_insert_ne.
  - apply path_exists_true. simpl. by rewrite lookup_insert_eq.
  - intros p [n Hn]%path_exists_true. apply path_exists_true. simpl.
    destruct (decide (p = d)) as [->|Hne].
    + by rewrite lookup_insert_eq.
    + by rewrite lookup_insert_ne, Hn.
Qed.

Lemma made_directory_exists d w :
  path_exists d (if path_exists d w then w else set_fs <[d := Directory]> w)
  = true.
Proof.
  pose proof (made_directory d w) as (_ & _ & _ & _ & _ & Hd & _).
  exact Hd.
Qed.

Lemma made_directory_keeps d p w :
  path_exists p w = true →
  path_exists p (if path_exists d w then w else set_fs <[d := Directory]> w)
  = true.
Proof.
  pose proof (made_directory d w) as (_ & _ & _ & _ & _ & _ & Hkeep).
  apply Hkeep.
Qed.

(** The world after the two directories of the tree were made. *)
Lemma made_directories outdir maindir w :
  ∃ w2,
    w2 = (if path_exists maindir
               (if path_exists outdir w then w
                else set_fs <[outdir := Directory]> w)
          then (if path_exists outdir w then w
                else set_fs <[outdir := Directory]> w)
          else set_fs <[maindir := Directory]>
                 (if path_exists outdir w then w
                  else set_fs <[outdir := Directory]> w))
    ∧ tree_report w2 = tree_report w ∧ stdout w2 = stdout w
    ∧ heap w2 = heap w
    ∧ supportstatus w2 = supportstatus w
    ∧ (∀ p, p ≠ outdir → p ≠ maindir → fs w2 !! p = fs w !! p)
    ∧ path_exists outdir w2 = true ∧ path_exists maindir w2 = true
    ∧ (∀ p, path_exists p w = true → path_exists p w2 = true).
Proof.
  eexists. split; [reflexivity|].
  pose proof (made_directory outdir w) as Hout. cbv zeta in Hout.
  set (w1 := if path_exists outdir w then w else _) in *.
  pose proof (made_directory maindir w1) as Hmain. cbv zeta in Hmain.
  set (w2 := if path_exists maindir w1 then w1 else _) in *.
  destruct Hout as (Ha & Hb & Hc & Hd & He & Hf & Hg).
  destruct Hmain as (Ha' & Hb' & Hc' & Hd' & He' & Hf' & Hg').
  repeat split; try congruence; auto.
  intros p Hp1 Hp2. by rewrite He', He.
Qed.

(** X17.  On an output directory that exists, and for a product
    directory name of one path component, a value of [source] other than
    split, include and drop ends the build with exit code 1 and the
    message of the option, and so does such a value of [debug] when
    [source] is absent, include or drop.  This happens before anything is
    resolved: the manifest and the status table are as before, one line
    was printed, and the output tree has changed at the product directory
    at most. *)
Theorem bad_subtree_option_stops_before_linking
    (outdir product_base_dir : string) (yml : Yml) (flavor : option string)
    (o : string) (w : World) :
  fs w !! outdir = Some Directory →
  PyStr.has_char "/" product_base_dir = false →
  o ≠ "split" → o ≠ "include" → o ≠ "drop" →
  ∀ option_name,
    (option_name = "source" ∧ y_source yml = Some o)
    ∨ (option_name = "debug" ∧ plain_option (y_source yml)
       ∧ y_debug yml = Some o) →
    (create_tree ext unpack_one_meta_rpm outdir product_base_dir yml
       flavor w).1 = Exit 1
    ∧ stdout (create_tree ext unpack_one_meta_rpm outdir product_base_dir
                yml flavor w).2
      = stdout w ++ [bad_option option_name]
    ∧ tree_report (create_tree ext unpack_one_meta_rpm outdir
                     product_base_dir yml flavor w).2 = tree_report w
    ∧ supportstatus (create_tree ext unpack_one_meta_rpm outdir
                       product_base_dir yml flavor w).2 = supportstatus w
    ∧ (∀ p, p ≠ outdir +:+ "/" +:+ product_base_dir →
         fs (create_tree ext unpack_one_meta_rpm outdir product_base_dir
               yml flavor w).2 !! p = fs w !! p).
Proof.
  intros Hthere _ Hsplit Hinclude Hdrop option_name Hcase.
  assert (∀ w2 : World,
            (∀ p, p ≠ outdir → p ≠ outdir +:+ "/" +:+ product_base_dir →
               fs w2 !! p = fs w !! p) →
            path_exists outdir w2 = true →
            (∀ p, path_exists p w = true → path_exists p w2 = true) →
            fs w2 !! outdir = Some Directory →
            ∀ p, p ≠ outdir +:+ "/" +:+ product_base_dir →
              fs w2 !! p = fs w !! p) as Hframe.
  { intros w2 Hfs _ _ Hdir p Hp.
    destruct (decide (p = outdir)) as [->|Hne]; [congruence|by apply Hfs]. }
  assert (fs (if path_exists (outdir +:+ "/" +:+ product_base_dir)
                   (if path_exists outdir w then w
                    else set_fs <[outdir := Directory]> w)
              then (if path_exists outdir w then w
                    else set_fs <[outdir := Directory]> w)
              else set_fs <[outdir +:+ "/" +:+ product_base_dir
                              := Directory]>
                     (if path_exists outdir w then w
                      else set_fs <[outdir := Directory]> w))
            !! outdir = Some Directory) as Hdir.
  { assert (path_exists outdir w = true) as ->
      by (apply path_exists_true; by rewrite Hthere).
    destruct (path_exists _ w); [done|]. simpl.
    by rewrite lookup_insert_ne by (by apply string_app_ne). }
  unfold create_tree, mbind, M_bind, modify. cbv zeta.
  destruct (made_directories outdir (outdir +:+ "/" +:+ product_base_dir) w)
    as (w2 & Hw2 & Hreport & Hout & _ & Hstatus & Hfs0 & Hex & _ & Hkeep).
  rewrite <-Hw2 in Hdir |- *.
  pose proof (Hframe _ Hfs0 Hex Hkeep Hdir) as Hfs. clear Hframe Hw2.
  destruct Hcase as [[-> Hsource]|(-> & Hsource & Hdebug)].
  - rewrite Hsource, subtree_dir_bad by done.
    unfold print. simpl. by rewrite Hout.
  - destruct (subtree_dir_plain "source" _
                (outdir +:+ "/" +:+ product_base_dir)
                (outdir +:+ "/" +:+ product_base_dir +:+ "-Source") w2
                Hsource) as [dir ->].
    rewrite Hdebug, subtree_dir_bad by done.
    unfold print. simpl. by rewrite Hout.
Qed.

End TreeOptions.

Lemma bad_subtree_option_stops_before_linking_witness :
  (create_tree (PkgSet := SpecPkgSet.t) Fixture.ext Fixture.no_unpack
     "out" "prod-1.0"
     (mkYml "prod" "1.0" None [] 0
        (Some [Fixture.entry_of [] [("packages", ["foo"])]])
        None None None (Some "separate") None)
     None (Fixture.tree ["x86_64"])).1 = Exit 1.
Proof.
  apply (bad_subtree_option_stops_before_linking (PkgSet := SpecPkgSet.t)
           Fixture.ext Fixture.no_unpack "out" "prod-1.0"
           (mkYml "prod" "1.0" None [] 0
              (Some [Fixture.entry_of [] [("packages", ["foo"])]])
              None None None (Some "separate") None)
           None "separate" (Fixture.tree ["x86_64"])
           eq_refl eq_refl
           ltac:(done) ltac:(done) ltac:(done) "source").
  left. split; reflexivity.
Defined.

(** ** Paths of the tree are never removed *)

Lemma keeps_paths_bind {A B} (m : M A) (k : A → M B) :
  keeps_paths m → (∀ a, keeps_paths (k a)) → keeps_paths (m ≫= k).
Proof.
  intros Hm Hk w p Hp. unfold mbind, M_bind.
  specialize (Hm w p Hp).
  destruct (m w) as [[a| |] w']; simpl in *; [by apply Hk|done..].
Qed.

Lemma keeps_paths_for_each {A S} (body : A → S → M S) (l : list A) acc :
  (∀ x s, keeps_paths (body x s)) → keeps_paths (for_each body l acc).
Proof.
  intros Hbody. revert acc. induction l as [|x l IH]; intros acc.
  - by intros ? ? ?.
  - simpl. apply keeps_paths_bind; [apply Hbody|apply IH].
Qed.

Lemma keeps_paths_same_fs {A} (m : M A) :
  (∀ w, fs (m w).2 = fs w) → keeps_paths m.
Proof.
  intros Hfs w p. unfold path_exists. by rewrite Hfs.
Qed.

Lemma keeps_paths_die {A} msg : keeps_paths (die (A := A) msg).
Proof.
  apply keeps_paths_same_fs. intros w. unfold die. simpl.
  destruct msg as [m|]; [|done]. by case_bool_decide.
Qed.

Lemma keeps_paths_run_result {A} (r : result A) : keeps_paths (run_result r).
Proof.
  destruct r as [a|msg|exc]; simpl.
  - by intros ? ? ?.
  - apply keeps_paths_die.
  - by intros ? ? ?.
Qed.

Section KeptPaths.
Context (ext : Externals).
Context (unpack_one_meta_rpm : string → Package → Z → M unit).
Context {PkgSet : Type} `{!PkgSetOps PkgSet}.
Context (unpack_keeps :
  ∀ rpmdir rpm medium, keeps_paths (unpack_one_meta_rpm rpmdir rpm medium)).

Lemma keeps_paths_unpack_meta_rpms rpmdir yml arch flavor medium :
  keeps_paths
    (unpack_meta_rpms ext unpack_one_meta_rpm rpmdir yml arch flavor medium).
Proof.
  unfold unpack_meta_rpms. apply keeps_paths_bind.
  - apply keeps_paths_for_each. intros name missing.
    apply keeps_paths_bind; [apply keeps_paths_run_result|].
    intros s. apply keeps_paths_for_each. intros sel flag.
    unfold unpack_selector. destruct (lookup_rpm _ _ _ _ _ _ _).
    + apply keeps_paths_bind; [apply unpack_keeps|]. by intros _ ? ? ?.
    + apply keeps_paths_bind; [|by intros _ ? ? ?].
      intros w q Hq. unfold modify. simpl.
      apply (extends_path_exists q w); [apply extends_warn|done].
  - intros missing. destruct (_ && _); [apply keeps_paths_die|].
    by intros ? ? ?.
Qed.

Lemma keeps_paths_subtree_dir option_name opt maindir splitdir :
  keeps_paths (subtree_dir option_name opt maindir splitdir).
Proof.
  unfold subtree_dir. destruct opt as [o|]; [|by intros ? ? ?].
  case_bool_decide;
    [|case_bool_decide; [by intros ? ? ?|];
      case_bool_decide; [by intros ? ? ?|apply keeps_paths_die]].
  apply keeps_paths_bind; [|by intros _ ? ? ?].
  intros w p Hp. unfold mkdir.
  destruct (path_exists splitdir w) eqn:Hsplit; [done|]. simpl.
  apply path_exists_true in Hp as [n Hn]. apply path_exists_true. simpl.
  destruct (decide (p = splitdir)) as [->|Hne].
  - by rewrite lookup_insert_eq.
  - by rewrite lookup_insert_ne, Hn.
Qed.

Lemma keeps_paths_create_tree outdir product_base_dir yml flavor :
  keeps_paths
    (create_tree ext unpack_one_meta_rpm outdir product_base_dir yml flavor).
Proof.
  unfold create_tree.
  apply keeps_paths_bind;
    [intros w p Hp; by apply made_directory_keeps|intros _].
  apply keeps_paths_bind;
    [intros w p Hp; by apply made_directory_keeps|intros _].
  apply keeps_paths_bind; [apply keeps_paths_subtree_dir|intros sourcedir].
  apply keeps_paths_bind; [apply keeps_paths_subtree_dir|intros debugdir].
  apply keeps_paths_bind; [by intros ? ? ?|intros archs].
  apply keeps_paths_bind.
  - apply keeps_paths_for_each. intros arch _ w p Hp.
    apply (extends_path_exists p w); [apply link_rpms_to_tree_extends|done].
  - intros _. apply keeps_paths_bind; [by intros ? ? ?|intros archs'].
    apply keeps_paths_for_each. intros arch _.
    apply keeps_paths_unpack_meta_rpms.
Qed.

(** [os.mkdir] of a sub-tree directory that exists. *)
Lemma create_tree_split_exists outdir product_base_dir yml flavor w :
  path_exists outdir w = true →
  path_exists (outdir +:+ "/" +:+ product_base_dir) w = true →
  (y_source yml = Some "split"
   ∧ path_exists (outdir +:+ "/" +:+ product_base_dir +:+ "-Source") w
     = true)
  ∨ (plain_option (y_source yml) ∧ y_debug yml = Some "split"
     ∧ path_exists (outdir +:+ "/" +:+ product_base_dir +:+ "-Debug") w
       = true) →
  create_tree ext unpack_one_meta_rpm outdir product_base_dir yml flavor w
  = (Raised "FileExistsError", w).
Proof.
  intros Hout Hmain Hcase.
  unfold create_tree, mbind, M_bind, modify. cbv zeta.
  rewrite Hout, Hmain.
  destruct Hcase as [[-> Hsource]|(Hplain & -> & Hdebug)].
  - unfold subtree_dir, mkdir, mbind, M_bind. simpl. by rewrite Hsource.
  - destruct (subtree_dir_plain "source" _
                (outdir +:+ "/" +:+ product_base_dir)
                (outdir +:+ "/" +:+ product_base_dir +:+ "-Source") w
                Hplain) as [dir ->].
    unfold subtree_dir, mkdir, mbind, M_bind. simpl. by rewrite Hdebug.
Qed.

Lemma keeps_paths_link rpmdir yml arch flavor debugdir sourcedir :
  keeps_paths
    (link_rpms_to_tree ext rpmdir yml arch flavor debugdir sourcedir).
Proof.
  intros w p Hp.
  apply (extends_path_exists p w); [apply link_rpms_to_tree_extends|done].
Qed.

(** A path that exists when the first step is over exists at the end,
    when the steps that follow remove none. *)
Lemma path_after_bind {A B} (m : M A) (k : A → M B) p w :
  path_exists p (m w).2 = true → (∀ a, keeps_paths (k a)) →
  path_exists p ((m ≫= k) w).2 = true.
Proof.
  intros Hp Hk. unfold mbind, M_bind.
  destruct (m w) as [[a| |] w']; simpl in *; [by apply Hk|done..].
Qed.

Lemma bind_modify {B} (f : World → World) (k : unit → M B) w :
  (modify f ≫= k) w = k tt (f w).
Proof. done. Qed.

Lemma bind_normal {A B} (m : M A) (k : A → M B) a w w' :
  m w = (Normal a, w') → (m ≫= k) w = k a w'.
Proof. intros Hm. unfold mbind, M_bind. by rewrite Hm. Qed.

Lemma subtree_split_exists option_name maindir splitdir w :
  path_exists splitdir
    (subtree_dir option_name (Some "split") maindir splitdir w).2 = true.
Proof.
  unfold subtree_dir, mkdir, mbind, M_bind. simpl.
  destruct (path_exists splitdir w) eqn:Hsplit; [done|]. simpl.
  apply path_exists_true. simpl. by rewrite lookup_insert_eq.
Qed.

(** The loops of [create_tree], for any directories of the sub-trees. *)
Lemma keeps_paths_loops maindir yml flavor sourcedir debugdir :
  keeps_paths
    (archs ← get (deref (y_architectures yml));
     for_each (λ arch _,
         link_rpms_to_tree ext maindir yml arch flavor debugdir sourcedir)
       archs tt;;
     archs ← get (deref (y_architectures yml));
     for_each (λ arch _,
         unpack_meta_rpms ext unpack_one_meta_rpm maindir yml arch flavor 1)
       archs tt).
Proof.
  apply keeps_paths_bind; [by intros ? ? ?|intros archs].
  apply keeps_paths_bind.
  - apply keeps_paths_for_each. intros arch _. apply keeps_paths_link.
  - intros _. apply keeps_paths_bind; [by intros ? ? ?|intros archs'].
    apply keeps_paths_for_each. intros arch _.
    apply keeps_paths_unpack_meta_rpms.
Qed.

(** What a run of [create_tree] leaves in the output, however it ends. *)
Lemma create_tree_leaves_directories outdir product_base_dir yml flavor w :
  path_exists outdir
    (create_tree ext unpack_one_meta_rpm outdir product_base_dir yml
       flavor w).2 = true
  ∧ path_exists (outdir +:+ "/" +:+ product_base_dir)
      (create_tree ext unpack_one_meta_rpm outdir product_base_dir yml
         flavor w).2 = true
  ∧ (y_source yml = Some "split" →
     path_exists (outdir +:+ "/" +:+ product_base_dir +:+ "-Source")
       (create_tree ext unpack_one_meta_rpm outdir product_base_dir yml
          flavor w).2 = true)
  ∧ (plain_option (y_source yml) → y_debug yml = Some "split" →
     path_exists (outdir +:+ "/" +:+ product_base_dir +:+ "-Debug")
       (create_tree ext unpack_one_meta_rpm outdir product_base_dir yml
          flavor w).2 = true).
Proof.
  assert (∀ sourcedir debugdir,
            keeps_paths
              (archs ← get (deref (y_architectures yml));
               for_each (λ arch _,
                   link_rpms_to_tree ext
                     (outdir +:+ "/" +:+ product_base_dir) yml arch flavor
                     debugdir sourcedir) archs tt;;
               archs ← get (deref (y_architectures yml));
               for_each (λ arch _,
                   unpack_meta_rpms ext unpack_one_meta_rpm
                     (outdir +:+ "/" +:+ product_base_dir) yml arch
                     flavor 1) archs tt)) as Hloops
    by (intros; apply keeps_paths_loops).
  assert (∀ sourcedir,
            keeps_paths
              (debugdir ← subtree_dir "debug" (y_debug yml)
                            (outdir +:+ "/" +:+ product_base_dir)
                            (outdir +:+ "/" +:+ product_base_dir
                               +:+ "-Debug");
               archs ← get (deref (y_architectures yml));
               for_each (λ arch _,
                   link_rpms_to_tree ext
                     (outdir +:+ "/" +:+ product_base_dir) yml arch flavor
                     debugdir sourcedir) archs tt;;
               archs ← get (deref (y_architectures yml));
               for_each (λ arch _,
                   unpack_meta_rpms ext unpack_one_meta_rpm
                     (outdir +:+ "/" +:+ product_base_dir) yml arch
                     flavor 1) archs tt)) as Hdebug.
  { intros sourcedir.
    apply keeps_paths_bind; [apply keeps_paths_subtree_dir|].
    intros debugdir. apply Hloops. }
  unfold create_tree. cbv zeta. split; [|split; [|split]].
  - apply path_after_bind; [apply made_directory_exists|].
    intros _. apply keeps_paths_bind;
      [intros v p Hp; by apply made_directory_keeps|intros _].
    apply keeps_paths_bind; [apply keeps_paths_subtree_dir|].
    intros sourcedir. apply Hdebug.
  - rewrite bind_modify.
    apply path_after_bind; [apply made_directory_exists|].
    intros _. apply keeps_paths_bind; [apply keeps_paths_subtree_dir|].
    intros sourcedir. apply Hdebug.
  - intros Hsplit. rewrite !bind_modify, Hsplit.
    apply path_after_bind; [apply subtree_split_exists|].
    intros sourcedir. apply Hdebug.
  - intros Hplain Hsplit. rewrite !bind_modify.
    set (w2 := if path_exists (outdir +:+ "/" +:+ product_base_dir) _
               then _ else _).
    destruct (subtree_dir_plain "source" _
                (outdir +:+ "/" +:+ product_base_dir)
                (outdir +:+ "/" +:+ product_base_dir +:+ "-Source") w2
                Hplain) as [sourcedir Hsource].
    rewrite (bind_normal _ _ _ _ _ Hsource), Hsplit.
    apply path_after_bind; [apply subtree_split_exists|].
    intros debugdir. apply Hloops.
Qed.

(** X18.  A tree with a split sub-tree cannot be built twice into one
    output directory.  With [source: split], or with [debug: split] and a
    [source] that is absent, include or drop, [create_tree] raises
    [FileExistsError] on an output where the directory of the sub-tree
    exists, and leaves it as it is; and a first run on an output directory
    that exists, for a product directory name of one path component,
    leaves such an output whether it got through the packages or not, so
    that a second run raises.  Unpacking a meta package is assumed to
    remove no path of the tree. *)
Theorem split_subtree_needs_a_fresh_output
    (outdir product_base_dir : string) (yml : Yml) (flavor : option string)
    (w : World) :
  fs w !! outdir = Some Directory →
  PyStr.has_char "/" product_base_dir = false →
  y_source yml = Some "split"
  ∨ (plain_option (y_source yml) ∧ y_debug yml = Some "split") →
  create_tree ext unpack_one_meta_rpm outdir product_base_dir yml flavor
    (create_tree ext unpack_one_meta_rpm outdir product_base_dir yml
       flavor w).2
  = (Raised "FileExistsError",
     (create_tree ext unpack_one_meta_rpm outdir product_base_dir yml
        flavor w).2).
Proof.
  intros _ _ Hcase.
  destruct (create_tree_leaves_directories outdir product_base_dir yml
              flavor w) as (Hout & Hmain & Hsource & Hdebug).
  apply create_tree_split_exists; [done..|].
  destruct Hcase as [Hsplit|[Hplain Hsplit]].
  - left. split; [done|]. by apply Hsource.
  - right. split; [done|]. split; [done|]. by apply Hdebug.
Qed.

End KeptPaths.

Lemma split_subtree_needs_a_fresh_output_witness :
  create_tree (PkgSet := SpecPkgSet.t) Fixture.ext Fixture.no_unpack
    "out" "prod-1.0"
    (mkYml "prod" "1.0" None [] 0
       (Some [Fixture.entry_of [] [("packages", ["foo"])]])
       None None None (Some "split") None)
    None
    (create_tree (PkgSet := SpecPkgSet.t) Fixture.ext Fixture.no_unpack
       "out" "prod-1.0"
       (mkYml "prod" "1.0" None [] 0
          (Some [Fixture.entry_of [] [("packages", ["foo"])]])
          None None None (Some "split") None)
       None (Fixture.tree ["x86_64"])).2
  = (Raised "FileExistsError",
     (create_tree (PkgSet := SpecPkgSet.t) Fixture.ext Fixture.no_unpack
        "out" "prod-1.0"
        (mkYml "prod" "1.0" None [] 0
           (Some [Fixture.entry_of [] [("packages", ["foo"])]])
           None None None (Some "split") None)
        None (Fixture.tree ["x86_64"])).2).
Proof.
  apply (split_subtree_needs_a_fresh_output (PkgSet := SpecPkgSet.t)
           Fixture.ext Fixture.no_unpack).
  - by intros rpmdir rpm medium w p Hp.
  - reflexivity.
  - reflexivity.
  - by left.
Defined.

(** ** Meta packages *)

Section MetaPackages.
Context (ext : Externals).
Context (unpack_one_meta_rpm : string → Package → Z → M unit).
Context {PkgSet : Type} `{!PkgSetOps PkgSet}.
Context (unpack_returns :
  ∀ rpmdir rpm medium w,
    (unpack_one_meta_rpm rpmdir rpm medium w).1 = Normal tt).

Lemma unpack_selectors_outcome rpmdir arch medium sels flag w :
  (for_each (unpack_selector ext unpack_one_meta_rpm rpmdir arch medium)
     sels flag w).1
  = Normal (flag || existsb (meta_missing ext arch) sels).
Proof.
  revert flag w. induction sels as [|sel sels IH]; intros flag w.
  - simpl. by rewrite orb_false_r.
  - cbn [for_each existsb]. unfold mbind, M_bind.
    unfold unpack_selector at 1, meta_missing at 1.
    destruct (lookup_rpm ext arch _ _ _ _ _) as [rpm|].
    + unfold mbind, M_bind.
      pose proof (unpack_returns rpmdir rpm medium w) as Hone.
      destruct (unpack_one_meta_rpm rpmdir rpm medium w) as [o w'].
      simpl in Hone. subst o. cbn [mret M_ret]. by rewrite IH.
    + unfold mbind, M_bind, modify. cbn [mret M_ret].
      rewrite IH. simpl. by rewrite orb_true_r.
Qed.

Lemma unpack_sets_outcome rpmdir yml arch flavor medium names sets :
  Forall2 (λ name s, create_package_set yml arch flavor name = Ok s)
    names sets →
  ∀ flag w,
    (for_each (λ unpack_pkgset_name missing_package,
         unpack_pkgset ← run_result
           (create_package_set yml arch flavor unpack_pkgset_name);
         for_each (unpack_selector ext unpack_one_meta_rpm rpmdir arch medium)
                  (pkgset_iter unpack_pkgset) missing_package)
       names flag w).1
    = Normal (flag || existsb (meta_missing ext arch)
                        (concat (pkgset_iter <$> sets))).
Proof.
  induction 1 as [|name s names sets Hname _ IH]; intros flag w.
  - simpl. by rewrite orb_false_r.
  - cbn [for_each fmap list_fmap concat]. unfold mbind at 1, M_bind at 1.
    rewrite Hname. cbn [run_result]. unfold mbind at 1, M_bind at 1.
    cbn [mret M_ret].
    pose proof (unpack_selectors_outcome rpmdir arch medium
                  (pkgset_iter s) flag w) as Hsels.
    destruct (for_each _ (pkgset_iter s) flag w) as [o w'].
    simpl in Hsels. subst o. rewrite IH.
    by rewrite existsb_app, orb_assoc.
Qed.


End MetaPackages.

